(** * The in-browser translation pipeline of full-stack-fastapi-chinese

    A shallow embedding of the translation cache, the translator facade, the
    optimized batch generator, the page translation service, the reload
    hook, the restoration of the language switcher and the dynamic
    translation hook of the frontend, with the properties of the design
    document checked against them and further properties of the code.

    Conventions of the embedding:
    - a JavaScript string is the list of its UTF-16 code units;
    - a plain object used as a dictionary is the list of its own
      properties in insertion order; where a look-up takes any string as
      its key, it also finds the members of [Object.prototype];
    - [Date.now()], [Math.random()], [localStorage.setItem] and [fetch] are
      inputs: every operation takes the values the platform hands to it. *)

From Stdlib Require Import ZArith NArith List String Ascii Bool Lia DecimalString
  DecimalNat DecimalFacts Sorted.
From stdpp Require Import base option list gmap.
Import ListNotations.

Local Open Scope Z_scope.

(** ** JavaScript strings *)

Module Js.

Definition jsstring := list N.

(** Code units of an ASCII literal. *)
Definition str (s : string) : jsstring :=
  List.map N_of_ascii (list_ascii_of_string s).

Definition CH_UNDERSCORE : N := 95.
Definition CH_DASH : N := 45.

(** [WhiteSpace] and [LineTerminator] of ECMAScript: the set used by
    [String.prototype.trim] and by the regular expression class [\s]. *)
Definition is_ws (c : N) : bool :=
  ((9 <=? c) && (c <=? 13) || (c =? 32) || (c =? 160) || (c =? 5760)
   || (8192 <=? c) && (c <=? 8202) || (c =? 8232) || (c =? 8233)
   || (c =? 8239) || (c =? 8287) || (c =? 12288) || (c =? 65279))%N.

(** *** Lower case

    [String.prototype.toLowerCase] follows the default case conversion of
    Unicode on the code points of the string: the lower-case mapping of
    every cased letter, the two code points of U+0130, and the Greek capital
    sigma, whose lower-case form depends on the letters around it. The
    tables are those of Unicode 14.0. *)

(** The code points of a string: a high surrogate followed by a low one
    is the code point of a supplementary plane, any other unit is itself. *)
Fixpoint codePoints (s : jsstring) : list N :=
  match s with
  | [] => []
  | c :: r =>
      match r with
      | lo :: r' =>
          if ((0xd800 <=? c) && (c <=? 0xdbff)
              && (0xdc00 <=? lo) && (lo <=? 0xdfff))%N
          then (0x10000 + (c - 0xd800) * 0x400 + (lo - 0xdc00))%N
                 :: codePoints r'
          else c :: codePoints r
      | [] => [c]
      end
  end.

Definition codeUnits (cp : N) : jsstring :=
  if (cp <? 0x10000)%N then [cp]
  else [(0xd800 + (cp - 0x10000) / 0x400)%N;
        (0xdc00 + (cp - 0x10000) mod 0x400)%N].

(** A line of the table of lower-case mappings. *)
Inductive Casing :=
| Shift (lo hi target : N)   (* [lo .. hi] maps onto [target ..] *)
| Alt (lo hi : N)            (* [lo], [lo + 2], .., [hi] map to the next one *)
| Full (c : N) (l : list N). (* a mapping to several code points *)

(** The lower-case mappings, in the order of the code points. *)
Definition LOWER : list Casing :=
  [
    Shift 0x41 0x5a 0x61; Shift 0xc0 0xd6 0xe0; Shift 0xd8 0xde 0xf8;
    Alt 0x100 0x12e; Full 0x130 [0x69; 0x307]; Alt 0x132 0x136;
    Alt 0x139 0x147; Alt 0x14a 0x176; Shift 0x178 0x178 0xff; Alt 0x179 0x17d;
    Shift 0x181 0x181 0x253; Alt 0x182 0x184; Shift 0x186 0x186 0x254;
    Shift 0x187 0x187 0x188; Shift 0x189 0x18a 0x256; Shift 0x18b 0x18b 0x18c;
    Shift 0x18e 0x18e 0x1dd; Shift 0x18f 0x18f 0x259; Shift 0x190 0x190 0x25b;
    Shift 0x191 0x191 0x192; Shift 0x193 0x193 0x260; Shift 0x194 0x194 0x263;
    Shift 0x196 0x196 0x269; Shift 0x197 0x197 0x268; Shift 0x198 0x198 0x199;
    Shift 0x19c 0x19c 0x26f; Shift 0x19d 0x19d 0x272; Shift 0x19f 0x19f 0x275;
    Alt 0x1a0 0x1a4; Shift 0x1a6 0x1a6 0x280; Shift 0x1a7 0x1a7 0x1a8;
    Shift 0x1a9 0x1a9 0x283; Shift 0x1ac 0x1ac 0x1ad; Shift 0x1ae 0x1ae 0x288;
    Shift 0x1af 0x1af 0x1b0; Shift 0x1b1 0x1b2 0x28a; Alt 0x1b3 0x1b5;
    Shift 0x1b7 0x1b7 0x292; Shift 0x1b8 0x1b8 0x1b9; Shift 0x1bc 0x1bc 0x1bd;
    Shift 0x1c4 0x1c4 0x1c6; Shift 0x1c5 0x1c5 0x1c6; Shift 0x1c7 0x1c7 0x1c9;
    Shift 0x1c8 0x1c8 0x1c9; Shift 0x1ca 0x1ca 0x1cc; Alt 0x1cb 0x1db;
    Alt 0x1de 0x1ee; Shift 0x1f1 0x1f1 0x1f3; Alt 0x1f2 0x1f4;
    Shift 0x1f6 0x1f6 0x195; Shift 0x1f7 0x1f7 0x1bf; Alt 0x1f8 0x21e;
    Shift 0x220 0x220 0x19e; Alt 0x222 0x232; Shift 0x23a 0x23a 0x2c65;
    Shift 0x23b 0x23b 0x23c; Shift 0x23d 0x23d 0x19a;
    Shift 0x23e 0x23e 0x2c66; Shift 0x241 0x241 0x242;
    Shift 0x243 0x243 0x180; Shift 0x244 0x244 0x289; Shift 0x245 0x245 0x28c;
    Alt 0x246 0x24e; Alt 0x370 0x372; Shift 0x376 0x376 0x377;
    Shift 0x37f 0x37f 0x3f3; Shift 0x386 0x386 0x3ac; Shift 0x388 0x38a 0x3ad;
    Shift 0x38c 0x38c 0x3cc; Shift 0x38e 0x38f 0x3cd; Shift 0x391 0x3a1 0x3b1;
    Shift 0x3a4 0x3ab 0x3c4; Shift 0x3cf 0x3cf 0x3d7; Alt 0x3d8 0x3ee;
    Shift 0x3f4 0x3f4 0x3b8; Shift 0x3f7 0x3f7 0x3f8; Shift 0x3f9 0x3f9 0x3f2;
    Shift 0x3fa 0x3fa 0x3fb; Shift 0x3fd 0x3ff 0x37b; Shift 0x400 0x40f 0x450;
    Shift 0x410 0x42f 0x430; Alt 0x460 0x480; Alt 0x48a 0x4be;
    Shift 0x4c0 0x4c0 0x4cf; Alt 0x4c1 0x4cd; Alt 0x4d0 0x52e;
    Shift 0x531 0x556 0x561; Shift 0x10a0 0x10c5 0x2d00;
    Shift 0x10c7 0x10c7 0x2d27; Shift 0x10cd 0x10cd 0x2d2d;
    Shift 0x13a0 0x13ef 0xab70; Shift 0x13f0 0x13f5 0x13f8;
    Shift 0x1c90 0x1cba 0x10d0; Shift 0x1cbd 0x1cbf 0x10fd; Alt 0x1e00 0x1e94;
    Shift 0x1e9e 0x1e9e 0xdf; Alt 0x1ea0 0x1efe; Shift 0x1f08 0x1f0f 0x1f00;
    Shift 0x1f18 0x1f1d 0x1f10; Shift 0x1f28 0x1f2f 0x1f20;
    Shift 0x1f38 0x1f3f 0x1f30; Shift 0x1f48 0x1f4d 0x1f40;
    Shift 0x1f59 0x1f59 0x1f51; Shift 0x1f5b 0x1f5b 0x1f53;
    Shift 0x1f5d 0x1f5d 0x1f55; Shift 0x1f5f 0x1f5f 0x1f57;
    Shift 0x1f68 0x1f6f 0x1f60; Shift 0x1f88 0x1f8f 0x1f80;
    Shift 0x1f98 0x1f9f 0x1f90; Shift 0x1fa8 0x1faf 0x1fa0;
    Shift 0x1fb8 0x1fb9 0x1fb0; Shift 0x1fba 0x1fbb 0x1f70;
    Shift 0x1fbc 0x1fbc 0x1fb3; Shift 0x1fc8 0x1fcb 0x1f72;
    Shift 0x1fcc 0x1fcc 0x1fc3; Shift 0x1fd8 0x1fd9 0x1fd0;
    Shift 0x1fda 0x1fdb 0x1f76; Shift 0x1fe8 0x1fe9 0x1fe0;
    Shift 0x1fea 0x1feb 0x1f7a; Shift 0x1fec 0x1fec 0x1fe5;
    Shift 0x1ff8 0x1ff9 0x1f78; Shift 0x1ffa 0x1ffb 0x1f7c;
    Shift 0x1ffc 0x1ffc 0x1ff3; Shift 0x2126 0x2126 0x3c9;
    Shift 0x212a 0x212a 0x6b; Shift 0x212b 0x212b 0xe5;
    Shift 0x2132 0x2132 0x214e; Shift 0x2160 0x216f 0x2170;
    Shift 0x2183 0x2183 0x2184; Shift 0x24b6 0x24cf 0x24d0;
    Shift 0x2c00 0x2c2f 0x2c30; Shift 0x2c60 0x2c60 0x2c61;
    Shift 0x2c62 0x2c62 0x26b; Shift 0x2c63 0x2c63 0x1d7d;
    Shift 0x2c64 0x2c64 0x27d; Alt 0x2c67 0x2c6b; Shift 0x2c6d 0x2c6d 0x251;
    Shift 0x2c6e 0x2c6e 0x271; Shift 0x2c6f 0x2c6f 0x250;
    Shift 0x2c70 0x2c70 0x252; Shift 0x2c72 0x2c72 0x2c73;
    Shift 0x2c75 0x2c75 0x2c76; Shift 0x2c7e 0x2c7f 0x23f; Alt 0x2c80 0x2ce2;
    Alt 0x2ceb 0x2ced; Shift 0x2cf2 0x2cf2 0x2cf3; Alt 0xa640 0xa66c;
    Alt 0xa680 0xa69a; Alt 0xa722 0xa72e; Alt 0xa732 0xa76e;
    Alt 0xa779 0xa77b; Shift 0xa77d 0xa77d 0x1d79; Alt 0xa77e 0xa786;
    Shift 0xa78b 0xa78b 0xa78c; Shift 0xa78d 0xa78d 0x265; Alt 0xa790 0xa792;
    Alt 0xa796 0xa7a8; Shift 0xa7aa 0xa7aa 0x266; Shift 0xa7ab 0xa7ab 0x25c;
    Shift 0xa7ac 0xa7ac 0x261; Shift 0xa7ad 0xa7ad 0x26c;
    Shift 0xa7ae 0xa7ae 0x26a; Shift 0xa7b0 0xa7b0 0x29e;
    Shift 0xa7b1 0xa7b1 0x287; Shift 0xa7b2 0xa7b2 0x29d;
    Shift 0xa7b3 0xa7b3 0xab53; Alt 0xa7b4 0xa7c2; Shift 0xa7c4 0xa7c4 0xa794;
    Shift 0xa7c5 0xa7c5 0x282; Shift 0xa7c6 0xa7c6 0x1d8e; Alt 0xa7c7 0xa7c9;
    Shift 0xa7d0 0xa7d0 0xa7d1; Alt 0xa7d6 0xa7d8; Shift 0xa7f5 0xa7f5 0xa7f6;
    Shift 0xff21 0xff3a 0xff41; Shift 0x10400 0x10427 0x10428;
    Shift 0x104b0 0x104d3 0x104d8; Shift 0x10570 0x1057a 0x10597;
    Shift 0x1057c 0x1058a 0x105a3; Shift 0x1058c 0x10592 0x105b3;
    Shift 0x10594 0x10595 0x105bb; Shift 0x10c80 0x10cb2 0x10cc0;
    Shift 0x118a0 0x118bf 0x118c0; Shift 0x16e40 0x16e5f 0x16e60;
    Shift 0x1e900 0x1e921 0x1e922
  ]%N.

(** The look-up in a table in the order of the code points. *)
Fixpoint lowerIn (table : list Casing) (c : N) : list N :=
  match table with
  | [] => [c]
  | Shift lo hi target :: r =>
      if (c <? lo)%N then [c]
      else if (c <=? hi)%N then [(target + (c - lo))%N]
      else lowerIn r c
  | Alt lo hi :: r =>
      if (c <? lo)%N then [c]
      else if (c <=? hi)%N then (if N.even (c - lo) then [(c + 1)%N] else [c])
      else lowerIn r c
  | Full c0 l :: r =>
      if (c <? c0)%N then [c]
      else if (c =? c0)%N then l
      else lowerIn r c
  end.

Fixpoint inRanges (ranges : list (N * N)) (c : N) : bool :=
  match ranges with
  | [] => false
  | (lo, hi) :: r =>
      if (c <? lo)%N then false
      else if (c <=? hi)%N then true
      else inRanges r c
  end.

(** The code points with the property [Case_Ignorable]. *)
Definition CASE_IGNORABLE : list (N * N) :=
  [
    (0x27, 0x27); (0x2e, 0x2e); (0x3a, 0x3a); (0x5e, 0x5e); (0x60, 0x60);
    (0xa8, 0xa8); (0xad, 0xad); (0xaf, 0xaf); (0xb4, 0xb4); (0xb7, 0xb8);
    (0x2b0, 0x36f); (0x374, 0x375); (0x37a, 0x37a); (0x384, 0x385);
    (0x387, 0x387); (0x483, 0x489); (0x559, 0x559); (0x55f, 0x55f);
    (0x591, 0x5bd); (0x5bf, 0x5bf); (0x5c1, 0x5c2); (0x5c4, 0x5c5);
    (0x5c7, 0x5c7); (0x5f4, 0x5f4); (0x600, 0x605); (0x610, 0x61a);
    (0x61c, 0x61c); (0x640, 0x640); (0x64b, 0x65f); (0x670, 0x670);
    (0x6d6, 0x6dd); (0x6df, 0x6e8); (0x6ea, 0x6ed); (0x70f, 0x70f);
    (0x711, 0x711); (0x730, 0x74a); (0x7a6, 0x7b0); (0x7eb, 0x7f5);
    (0x7fa, 0x7fa); (0x7fd, 0x7fd); (0x816, 0x82d); (0x859, 0x85b);
    (0x888, 0x888); (0x890, 0x891); (0x898, 0x89f); (0x8c9, 0x902);
    (0x93a, 0x93a); (0x93c, 0x93c); (0x941, 0x948); (0x94d, 0x94d);
    (0x951, 0x957); (0x962, 0x963); (0x971, 0x971); (0x981, 0x981);
    (0x9bc, 0x9bc); (0x9c1, 0x9c4); (0x9cd, 0x9cd); (0x9e2, 0x9e3);
    (0x9fe, 0x9fe); (0xa01, 0xa02); (0xa3c, 0xa3c); (0xa41, 0xa42);
    (0xa47, 0xa48); (0xa4b, 0xa4d); (0xa51, 0xa51); (0xa70, 0xa71);
    (0xa75, 0xa75); (0xa81, 0xa82); (0xabc, 0xabc); (0xac1, 0xac5);
    (0xac7, 0xac8); (0xacd, 0xacd); (0xae2, 0xae3); (0xafa, 0xaff);
    (0xb01, 0xb01); (0xb3c, 0xb3c); (0xb3f, 0xb3f); (0xb41, 0xb44);
    (0xb4d, 0xb4d); (0xb55, 0xb56); (0xb62, 0xb63); (0xb82, 0xb82);
    (0xbc0, 0xbc0); (0xbcd, 0xbcd); (0xc00, 0xc00); (0xc04, 0xc04);
    (0xc3c, 0xc3c); (0xc3e, 0xc40); (0xc46, 0xc48); (0xc4a, 0xc4d);
    (0xc55, 0xc56); (0xc62, 0xc63); (0xc81, 0xc81); (0xcbc, 0xcbc);
    (0xcbf, 0xcbf); (0xcc6, 0xcc6); (0xccc, 0xccd); (0xce2, 0xce3);
    (0xd00, 0xd01); (0xd3b, 0xd3c); (0xd41, 0xd44); (0xd4d, 0xd4d);
    (0xd62, 0xd63); (0xd81, 0xd81); (0xdca, 0xdca); (0xdd2, 0xdd4);
    (0xdd6, 0xdd6); (0xe31, 0xe31); (0xe34, 0xe3a); (0xe46, 0xe4e);
    (0xeb1, 0xeb1); (0xeb4, 0xebc); (0xec6, 0xec6); (0xec8, 0xecd);
    (0xf18, 0xf19); (0xf35, 0xf35); (0xf37, 0xf37); (0xf39, 0xf39);
    (0xf71, 0xf7e); (0xf80, 0xf84); (0xf86, 0xf87); (0xf8d, 0xf97);
    (0xf99, 0xfbc); (0xfc6, 0xfc6); (0x102d, 0x1030); (0x1032, 0x1037);
    (0x1039, 0x103a); (0x103d, 0x103e); (0x1058, 0x1059); (0x105e, 0x1060);
    (0x1071, 0x1074); (0x1082, 0x1082); (0x1085, 0x1086); (0x108d, 0x108d);
    (0x109d, 0x109d); (0x10fc, 0x10fc); (0x135d, 0x135f); (0x1712, 0x1714);
    (0x1732, 0x1733); (0x1752, 0x1753); (0x1772, 0x1773); (0x17b4, 0x17b5);
    (0x17b7, 0x17bd); (0x17c6, 0x17c6); (0x17c9, 0x17d3); (0x17d7, 0x17d7);
    (0x17dd, 0x17dd); (0x180b, 0x180f); (0x1843, 0x1843); (0x1885, 0x1886);
    (0x18a9, 0x18a9); (0x1920, 0x1922); (0x1927, 0x1928); (0x1932, 0x1932);
    (0x1939, 0x193b); (0x1a17, 0x1a18); (0x1a1b, 0x1a1b); (0x1a56, 0x1a56);
    (0x1a58, 0x1a5e); (0x1a60, 0x1a60); (0x1a62, 0x1a62); (0x1a65, 0x1a6c);
    (0x1a73, 0x1a7c); (0x1a7f, 0x1a7f); (0x1aa7, 0x1aa7); (0x1ab0, 0x1ace);
    (0x1b00, 0x1b03); (0x1b34, 0x1b34); (0x1b36, 0x1b3a); (0x1b3c, 0x1b3c);
    (0x1b42, 0x1b42); (0x1b6b, 0x1b73); (0x1b80, 0x1b81); (0x1ba2, 0x1ba5);
    (0x1ba8, 0x1ba9); (0x1bab, 0x1bad); (0x1be6, 0x1be6); (0x1be8, 0x1be9);
    (0x1bed, 0x1bed); (0x1bef, 0x1bf1); (0x1c2c, 0x1c33); (0x1c36, 0x1c37);
    (0x1c78, 0x1c7d); (0x1cd0, 0x1cd2); (0x1cd4, 0x1ce0); (0x1ce2, 0x1ce8);
    (0x1ced, 0x1ced); (0x1cf4, 0x1cf4); (0x1cf8, 0x1cf9); (0x1d2c, 0x1d6a);
    (0x1d78, 0x1d78); (0x1d9b, 0x1dff); (0x1fbd, 0x1fbd); (0x1fbf, 0x1fc1);
    (0x1fcd, 0x1fcf); (0x1fdd, 0x1fdf); (0x1fed, 0x1fef); (0x1ffd, 0x1ffe);
    (0x200b, 0x200f); (0x2018, 0x2019); (0x2024, 0x2024); (0x2027, 0x2027);
    (0x202a, 0x202e); (0x2060, 0x2064); (0x2066, 0x206f); (0x2071, 0x2071);
    (0x207f, 0x207f); (0x2090, 0x209c); (0x20d0, 0x20f0); (0x2c7c, 0x2c7d);
    (0x2cef, 0x2cf1); (0x2d6f, 0x2d6f); (0x2d7f, 0x2d7f); (0x2de0, 0x2dff);
    (0x2e2f, 0x2e2f); (0x3005, 0x3005); (0x302a, 0x302d); (0x3031, 0x3035);
    (0x303b, 0x303b); (0x3099, 0x309e); (0x30fc, 0x30fe); (0xa015, 0xa015);
    (0xa4f8, 0xa4fd); (0xa60c, 0xa60c); (0xa66f, 0xa672); (0xa674, 0xa67d);
    (0xa67f, 0xa67f); (0xa69c, 0xa69f); (0xa6f0, 0xa6f1); (0xa700, 0xa721);
    (0xa770, 0xa770); (0xa788, 0xa78a); (0xa7f2, 0xa7f4); (0xa7f8, 0xa7f9);
    (0xa802, 0xa802); (0xa806, 0xa806); (0xa80b, 0xa80b); (0xa825, 0xa826);
    (0xa82c, 0xa82c); (0xa8c4, 0xa8c5); (0xa8e0, 0xa8f1); (0xa8ff, 0xa8ff);
    (0xa926, 0xa92d); (0xa947, 0xa951); (0xa980, 0xa982); (0xa9b3, 0xa9b3);
    (0xa9b6, 0xa9b9); (0xa9bc, 0xa9bd); (0xa9cf, 0xa9cf); (0xa9e5, 0xa9e6);
    (0xaa29, 0xaa2e); (0xaa31, 0xaa32); (0xaa35, 0xaa36); (0xaa43, 0xaa43);
    (0xaa4c, 0xaa4c); (0xaa70, 0xaa70); (0xaa7c, 0xaa7c); (0xaab0, 0xaab0);
    (0xaab2, 0xaab4); (0xaab7, 0xaab8); (0xaabe, 0xaabf); (0xaac1, 0xaac1);
    (0xaadd, 0xaadd); (0xaaec, 0xaaed); (0xaaf3, 0xaaf4); (0xaaf6, 0xaaf6);
    (0xab5b, 0xab5f); (0xab69, 0xab6b); (0xabe5, 0xabe5); (0xabe8, 0xabe8);
    (0xabed, 0xabed); (0xfb1e, 0xfb1e); (0xfbb2, 0xfbc2); (0xfe00, 0xfe0f);
    (0xfe13, 0xfe13); (0xfe20, 0xfe2f); (0xfe52, 0xfe52); (0xfe55, 0xfe55);
    (0xfeff, 0xfeff); (0xff07, 0xff07); (0xff0e, 0xff0e); (0xff1a, 0xff1a);
    (0xff3e, 0xff3e); (0xff40, 0xff40); (0xff70, 0xff70); (0xff9e, 0xff9f);
    (0xffe3, 0xffe3); (0xfff9, 0xfffb); (0x101fd, 0x101fd);
    (0x102e0, 0x102e0); (0x10376, 0x1037a); (0x10780, 0x10785);
    (0x10787, 0x107b0); (0x107b2, 0x107ba); (0x10a01, 0x10a03);
    (0x10a05, 0x10a06); (0x10a0c, 0x10a0f); (0x10a38, 0x10a3a);
    (0x10a3f, 0x10a3f); (0x10ae5, 0x10ae6); (0x10d24, 0x10d27);
    (0x10eab, 0x10eac); (0x10f46, 0x10f50); (0x10f82, 0x10f85);
    (0x11001, 0x11001); (0x11038, 0x11046); (0x11070, 0x11070);
    (0x11073, 0x11074); (0x1107f, 0x11081); (0x110b3, 0x110b6);
    (0x110b9, 0x110ba); (0x110bd, 0x110bd); (0x110c2, 0x110c2);
    (0x110cd, 0x110cd); (0x11100, 0x11102); (0x11127, 0x1112b);
    (0x1112d, 0x11134); (0x11173, 0x11173); (0x11180, 0x11181);
    (0x111b6, 0x111be); (0x111c9, 0x111cc); (0x111cf, 0x111cf);
    (0x1122f, 0x11231); (0x11234, 0x11234); (0x11236, 0x11237);
    (0x1123e, 0x1123e); (0x112df, 0x112df); (0x112e3, 0x112ea);
    (0x11300, 0x11301); (0x1133b, 0x1133c); (0x11340, 0x11340);
    (0x11366, 0x1136c); (0x11370, 0x11374); (0x11438, 0x1143f);
    (0x11442, 0x11444); (0x11446, 0x11446); (0x1145e, 0x1145e);
    (0x114b3, 0x114b8); (0x114ba, 0x114ba); (0x114bf, 0x114c0);
    (0x114c2, 0x114c3); (0x115b2, 0x115b5); (0x115bc, 0x115bd);
    (0x115bf, 0x115c0); (0x115dc, 0x115dd); (0x11633, 0x1163a);
    (0x1163d, 0x1163d); (0x1163f, 0x11640); (0x116ab, 0x116ab);
    (0x116ad, 0x116ad); (0x116b0, 0x116b5); (0x116b7, 0x116b7);
    (0x1171d, 0x1171f); (0x11722, 0x11725); (0x11727, 0x1172b);
    (0x1182f, 0x11837); (0x11839, 0x1183a); (0x1193b, 0x1193c);
    (0x1193e, 0x1193e); (0x11943, 0x11943); (0x119d4, 0x119d7);
    (0x119da, 0x119db); (0x119e0, 0x119e0); (0x11a01, 0x11a0a);
    (0x11a33, 0x11a38); (0x11a3b, 0x11a3e); (0x11a47, 0x11a47);
    (0x11a51, 0x11a56); (0x11a59, 0x11a5b); (0x11a8a, 0x11a96);
    (0x11a98, 0x11a99); (0x11c30, 0x11c36); (0x11c38, 0x11c3d);
    (0x11c3f, 0x11c3f); (0x11c92, 0x11ca7); (0x11caa, 0x11cb0);
    (0x11cb2, 0x11cb3); (0x11cb5, 0x11cb6); (0x11d31, 0x11d36);
    (0x11d3a, 0x11d3a); (0x11d3c, 0x11d3d); (0x11d3f, 0x11d45);
    (0x11d47, 0x11d47); (0x11d90, 0x11d91); (0x11d95, 0x11d95);
    (0x11d97, 0x11d97); (0x11ef3, 0x11ef4); (0x13430, 0x13438);
    (0x16af0, 0x16af4); (0x16b30, 0x16b36); (0x16b40, 0x16b43);
    (0x16f4f, 0x16f4f); (0x16f8f, 0x16f9f); (0x16fe0, 0x16fe1);
    (0x16fe3, 0x16fe4); (0x1aff0, 0x1aff3); (0x1aff5, 0x1affb);
    (0x1affd, 0x1affe); (0x1bc9d, 0x1bc9e); (0x1bca0, 0x1bca3);
    (0x1cf00, 0x1cf2d); (0x1cf30, 0x1cf46); (0x1d167, 0x1d169);
    (0x1d173, 0x1d182); (0x1d185, 0x1d18b); (0x1d1aa, 0x1d1ad);
    (0x1d242, 0x1d244); (0x1da00, 0x1da36); (0x1da3b, 0x1da6c);
    (0x1da75, 0x1da75); (0x1da84, 0x1da84); (0x1da9b, 0x1da9f);
    (0x1daa1, 0x1daaf); (0x1e000, 0x1e006); (0x1e008, 0x1e018);
    (0x1e01b, 0x1e021); (0x1e023, 0x1e024); (0x1e026, 0x1e02a);
    (0x1e130, 0x1e13d); (0x1e2ae, 0x1e2ae); (0x1e2ec, 0x1e2ef);
    (0x1e8d0, 0x1e8d6); (0x1e944, 0x1e94b); (0x1f3fb, 0x1f3ff);
    (0xe0001, 0xe0001); (0xe0020, 0xe007f); (0xe0100, 0xe01ef)
  ]%N.

(** The code points with the property [Cased] that are not
    [Case_Ignorable]. *)
Definition CASED : list (N * N) :=
  [
    (0x41, 0x5a); (0x61, 0x7a); (0xaa, 0xaa); (0xb5, 0xb5); (0xba, 0xba);
    (0xc0, 0xd6); (0xd8, 0xf6); (0xf8, 0x1ba); (0x1bc, 0x1bf); (0x1c4, 0x293);
    (0x295, 0x2af); (0x370, 0x373); (0x376, 0x377); (0x37b, 0x37d);
    (0x37f, 0x37f); (0x386, 0x386); (0x388, 0x38a); (0x38c, 0x38c);
    (0x38e, 0x3a1); (0x3a3, 0x3f5); (0x3f7, 0x481); (0x48a, 0x52f);
    (0x531, 0x556); (0x560, 0x588); (0x10a0, 0x10c5); (0x10c7, 0x10c7);
    (0x10cd, 0x10cd); (0x10d0, 0x10fa); (0x10fd, 0x10ff); (0x13a0, 0x13f5);
    (0x13f8, 0x13fd); (0x1c80, 0x1c88); (0x1c90, 0x1cba); (0x1cbd, 0x1cbf);
    (0x1d00, 0x1d2b); (0x1d6b, 0x1d77); (0x1d79, 0x1d9a); (0x1e00, 0x1f15);
    (0x1f18, 0x1f1d); (0x1f20, 0x1f45); (0x1f48, 0x1f4d); (0x1f50, 0x1f57);
    (0x1f59, 0x1f59); (0x1f5b, 0x1f5b); (0x1f5d, 0x1f5d); (0x1f5f, 0x1f7d);
    (0x1f80, 0x1fb4); (0x1fb6, 0x1fbc); (0x1fbe, 0x1fbe); (0x1fc2, 0x1fc4);
    (0x1fc6, 0x1fcc); (0x1fd0, 0x1fd3); (0x1fd6, 0x1fdb); (0x1fe0, 0x1fec);
    (0x1ff2, 0x1ff4); (0x1ff6, 0x1ffc); (0x2102, 0x2102); (0x2107, 0x2107);
    (0x210a, 0x2113); (0x2115, 0x2115); (0x2119, 0x211d); (0x2124, 0x2124);
    (0x2126, 0x2126); (0x2128, 0x2128); (0x212a, 0x212d); (0x212f, 0x2134);
    (0x2139, 0x2139); (0x213c, 0x213f); (0x2145, 0x2149); (0x214e, 0x214e);
    (0x2160, 0x217f); (0x2183, 0x2184); (0x24b6, 0x24e9); (0x2c00, 0x2c7b);
    (0x2c7e, 0x2ce4); (0x2ceb, 0x2cee); (0x2cf2, 0x2cf3); (0x2d00, 0x2d25);
    (0x2d27, 0x2d27); (0x2d2d, 0x2d2d); (0xa640, 0xa66d); (0xa680, 0xa69b);
    (0xa722, 0xa76f); (0xa771, 0xa787); (0xa78b, 0xa78e); (0xa790, 0xa7ca);
    (0xa7d0, 0xa7d1); (0xa7d3, 0xa7d3); (0xa7d5, 0xa7d9); (0xa7f5, 0xa7f6);
    (0xa7fa, 0xa7fa); (0xab30, 0xab5a); (0xab60, 0xab68); (0xab70, 0xabbf);
    (0xfb00, 0xfb06); (0xfb13, 0xfb17); (0xff21, 0xff3a); (0xff41, 0xff5a);
    (0x10400, 0x1044f); (0x104b0, 0x104d3); (0x104d8, 0x104fb);
    (0x10570, 0x1057a); (0x1057c, 0x1058a); (0x1058c, 0x10592);
    (0x10594, 0x10595); (0x10597, 0x105a1); (0x105a3, 0x105b1);
    (0x105b3, 0x105b9); (0x105bb, 0x105bc); (0x10c80, 0x10cb2);
    (0x10cc0, 0x10cf2); (0x118a0, 0x118df); (0x16e40, 0x16e7f);
    (0x1d400, 0x1d454); (0x1d456, 0x1d49c); (0x1d49e, 0x1d49f);
    (0x1d4a2, 0x1d4a2); (0x1d4a5, 0x1d4a6); (0x1d4a9, 0x1d4ac);
    (0x1d4ae, 0x1d4b9); (0x1d4bb, 0x1d4bb); (0x1d4bd, 0x1d4c3);
    (0x1d4c5, 0x1d505); (0x1d507, 0x1d50a); (0x1d50d, 0x1d514);
    (0x1d516, 0x1d51c); (0x1d51e, 0x1d539); (0x1d53b, 0x1d53e);
    (0x1d540, 0x1d544); (0x1d546, 0x1d546); (0x1d54a, 0x1d550);
    (0x1d552, 0x1d6a5); (0x1d6a8, 0x1d6c0); (0x1d6c2, 0x1d6da);
    (0x1d6dc, 0x1d6fa); (0x1d6fc, 0x1d714); (0x1d716, 0x1d734);
    (0x1d736, 0x1d74e); (0x1d750, 0x1d76e); (0x1d770, 0x1d788);
    (0x1d78a, 0x1d7a8); (0x1d7aa, 0x1d7c2); (0x1d7c4, 0x1d7cb);
    (0x1df00, 0x1df09); (0x1df0b, 0x1df1e); (0x1e900, 0x1e943);
    (0x1f130, 0x1f149); (0x1f150, 0x1f169); (0x1f170, 0x1f189)
  ]%N.

(** The first code point of [l] that is not case-ignorable is cased. *)
Fixpoint casedNext (l : list N) : bool :=
  match l with
  | [] => false
  | c :: r => if inRanges CASE_IGNORABLE c then casedNext r else inRanges CASED c
  end.

Definition CAPITAL_SIGMA : N := 0x3a3.

(** [before] holds the code points passed, the nearest first. The capital
    sigma becomes the final sigma when a cased letter precedes it and none
    follows it. *)
Fixpoint lowerFrom (before : list N) (s : list N) : list N :=
  match s with
  | [] => []
  | c :: r =>
      (if (c =? CAPITAL_SIGMA)%N
       then [if casedNext before && negb (casedNext r)
             then 0x3c2%N else 0x3c3%N]
       else lowerIn LOWER c)
        ++ lowerFrom (c :: before) r
  end.

Definition toLowerCase (s : jsstring) : jsstring :=
  List.flat_map codeUnits (lowerFrom [] (codePoints s)).

(** [String.prototype.toUpperCase] on the Basic Latin letters, which are
    the letters of the language codes and of the element names it is
    applied to; the other code units are left as they are. *)
Definition upper_unit (c : N) : N :=
  if ((97 <=? c) && (c <=? 122))%N then (c - 32)%N else c.

Definition toUpperCase (s : jsstring) : jsstring := List.map upper_unit s.

Fixpoint trimStart (s : jsstring) : jsstring :=
  match s with
  | [] => []
  | c :: r => if is_ws c then trimStart r else s
  end.

Definition trimEnd (s : jsstring) : jsstring := rev (trimStart (rev s)).

Definition trim (s : jsstring) : jsstring := trimEnd (trimStart s).

(** [s.replace(/\s+/g, '_')]: every maximal run of white space becomes one
    underscore. [in_run] tells that the previous unit was white space. *)
Fixpoint replace_ws_runs (in_run : bool) (s : jsstring) : jsstring :=
  match s with
  | [] => []
  | c :: r =>
      if is_ws c
      then (if in_run then replace_ws_runs true r
            else CH_UNDERSCORE :: replace_ws_runs true r)
      else c :: replace_ws_runs false r
  end.

(** Truthiness of a string value: every string but the empty one. *)
Definition truthy (s : jsstring) : bool :=
  match s with [] => false | _ => true end.

(** [o || d] for an optional string property. *)
Definition or_else (o : option jsstring) (d : jsstring) : jsstring :=
  match o with
  | Some s => if truthy s then s else d
  | None => d
  end.

(** *** Plain objects used as dictionaries *)

Section Obj.
Context {V : Type}.

Definition obj := list (jsstring * V).

Fixpoint obj_get (k : jsstring) (o : obj) : option V :=
  match o with
  | [] => None
  | (k', v) :: r => if decide (k = k') then Some v else obj_get k r
  end.

(** [o[k] = v]: an own property keeps its place, a new one goes last. *)
Fixpoint obj_set (k : jsstring) (v : V) (o : obj) : obj :=
  match o with
  | [] => [(k, v)]
  | (k', v') :: r =>
      if decide (k = k') then (k, v) :: r else (k', v') :: obj_set k v r
  end.

(** [delete o[k]] *)
Fixpoint obj_delete (k : jsstring) (o : obj) : obj :=
  match o with
  | [] => []
  | (k', v') :: r =>
      if decide (k = k') then obj_delete k r else (k', v') :: obj_delete k r
  end.

Definition obj_keys (o : obj) : list jsstring := List.map fst o.
End Obj.

Arguments obj V : clear implicits.

(** The names every object literal inherits from [Object.prototype]. *)
Definition OBJECT_PROTOTYPE : list jsstring :=
  [ str "constructor"; str "__defineGetter__"; str "__defineSetter__";
    str "hasOwnProperty"; str "__lookupGetter__"; str "__lookupSetter__";
    str "isPrototypeOf"; str "propertyIsEnumerable"; str "toString";
    str "valueOf"; str "__proto__"; str "toLocaleString" ].

(** What [o[k]] finds in an object literal [o]. *)
Inductive Member (V : Type) :=
| Own (v : V)   (* a property of the object itself *)
| Inherited     (* a member of [Object.prototype]: a function, or the
                   prototype itself under [__proto__]; never a string *)
| Missing.      (* [undefined] *)
Arguments Own {V}.
Arguments Inherited {V}.
Arguments Missing {V}.

Definition member {V : Type} (k : jsstring) (o : obj V) : Member V :=
  match obj_get k o with
  | Some v => Own v
  | None => if decide (k ∈ OBJECT_PROTOTYPE) then Inherited else Missing
  end.

End Js.

Import Js.

(** ** Translation cache (ai-translation/services/translationCache.ts) *)

Module Cache.

(** [TranslationRequest], [TranslationResponse] and the configuration of
    types/translation.ts. *)
Record TranslationRequest := mkRequest {
  text : jsstring;
  from : jsstring;
  to : jsstring;
  context : option jsstring;
}.

Record TranslationResponse := mkResponse {
  translatedText : jsstring;
  sourceLanguage : jsstring;
  targetLanguage : jsstring;
}.

Record AITranslationConfig := mkConfig {
  provider : option jsstring;
  apiKey : jsstring;
  model : option jsstring;
  endpoint : option jsstring;
  timeout : option Z;
  cacheExpiration : option Z;
}.

Record CacheEntry := mkEntry {
  entryText : jsstring;     (* translatedText *)
  timestamp : Z;
  expiresAt : Z;
}.

Definition TranslationCache := obj CacheEntry.

(** The manager: the in-memory object and the item it keeps in
    [localStorage] under [CACHE_KEY]. *)
Record Manager := mkManager {
  cache : TranslationCache;
  stored : option TranslationCache;
}.

Definition MAX_CACHE_SIZE : nat := 1000.

Definition DEFAULT_EXPIRATION : Z := 24 * 60 * 60 * 1000.

(** [`${from}-${to}-${text.toLowerCase().trim()}-${context || ''}`
     .replace(/\s+/g, '_')] *)
Definition generateCacheKey (request : TranslationRequest) : jsstring :=
  replace_ws_runs false
    (from request ++ [CH_DASH] ++ to request ++ [CH_DASH]
       ++ trim (toLowerCase (text request)) ++ [CH_DASH]
       ++ or_else (context request) []).

Definition cleanupExpiredEntries (now : Z) (c : TranslationCache)
  : TranslationCache :=
  List.filter (fun kv => negb (expiresAt (snd kv) <? now)) c.

(** [entries.sort(([, a], [, b]) => a.timestamp - b.timestamp)]: the sort of
    the language is stable. *)
Fixpoint insert_by_timestamp (x : jsstring * CacheEntry)
    (l : list (jsstring * CacheEntry)) : list (jsstring * CacheEntry) :=
  match l with
  | [] => [x]
  | y :: r =>
      if timestamp (snd x) <=? timestamp (snd y) then x :: l
      else y :: insert_by_timestamp x r
  end.

Definition sort_by_timestamp (l : list (jsstring * CacheEntry))
  : list (jsstring * CacheEntry) :=
  List.fold_right insert_by_timestamp [] l.

Definition cleanupOldEntries (c : TranslationCache) : TranslationCache :=
  let entries := c in
  if (MAX_CACHE_SIZE <? length entries)%nat then
    let sorted := sort_by_timestamp entries in
    let toDelete :=
      firstn (length entries - MAX_CACHE_SIZE + 100)%nat sorted in
    List.fold_left (fun acc kv => obj_delete (fst kv) acc) toDelete c
  else c.

(** What [localStorage.setItem] does on the two attempts of [saveCache]:
    [true] when the write goes through, [false] when it throws. *)
Record SaveEnv := mkSaveEnv {
  save_ok : bool;
  retry_ok : bool;
}.

Definition saveCache (w : SaveEnv) (m : Manager) : Manager :=
  if save_ok w then mkManager (cache m) (Some (cache m))
  else
    let c := cleanupOldEntries (cache m) in
    if retry_ok w then mkManager c (Some c)
    else mkManager c (stored m).

Record GetEnv := mkGetEnv {
  get_now : Z;
  get_save : SaveEnv;
}.

Definition get (w : GetEnv) (m : Manager) (request : TranslationRequest)
  : Manager * option TranslationResponse :=
  let key := generateCacheKey request in
  match obj_get key (cache m) with
  | None => (m, None)
  | Some cached =>
      if expiresAt cached <? get_now w then
        (saveCache (get_save w) (mkManager (obj_delete key (cache m)) (stored m)),
         None)
      else
        (m, Some (mkResponse (entryText cached) (from request) (to request)))
  end.

(** [config.cacheExpiration || 24 * 60 * 60 * 1000] *)
Definition expiration (config : AITranslationConfig) : Z :=
  match cacheExpiration config with
  | Some e => if e =? 0 then DEFAULT_EXPIRATION else e
  | None => DEFAULT_EXPIRATION
  end.

Record SetEnv := mkSetEnv {
  set_now : Z;
  set_random : bool;        (* Math.random() < 0.1 *)
  set_cleanup_now : Z;      (* Date.now() inside cleanupExpiredEntries *)
  set_save : SaveEnv;
}.

Definition set (config : AITranslationConfig) (w : SetEnv) (m : Manager)
    (request : TranslationRequest) (response : TranslationResponse)
  : Manager :=
  let key := generateCacheKey request in
  let now := set_now w in
  let c1 :=
    obj_set key
      (mkEntry (translatedText response) now (now + expiration config))
      (cache m) in
  let c2 :=
    if set_random w then cleanupExpiredEntries (set_cleanup_now w) c1 else c1 in
  saveCache (set_save w) (mkManager c2 (stored m)).

Definition clear (w : SaveEnv) (m : Manager) : Manager :=
  saveCache w (mkManager [] (stored m)).

Definition delete (w : SaveEnv) (m : Manager) (request : TranslationRequest)
  : Manager * bool :=
  let key := generateCacheKey request in
  match obj_get key (cache m) with
  | Some _ =>
      (saveCache w (mkManager (obj_delete key (cache m)) (stored m)), true)
  | None => (m, false)
  end.

Definition getStats (m : Manager) : nat * list jsstring :=
  (length (obj_keys (cache m)), obj_keys (cache m)).

End Cache.

Import Cache.

(** ** Translator facade (class AITranslator) *)

Module Translator.

(** The arguments substituted into the prompt template of a chat backend. *)
Record Prompt := mkPrompt {
  promptTargetLanguage : jsstring;
  promptSourceLanguage : jsstring;
  promptText : jsstring;
  promptContext : jsstring;
}.

Inductive Payload :=
| ChatCompletions (model : jsstring) (prompt : Prompt)
| Messages (model : jsstring) (prompt : Prompt)
| GoogleTranslate (q source target : jsstring)
| DeepLTranslate (texts : list jsstring) (source_lang target_lang : jsstring).

Record FetchRequest := mkFetch {
  url : jsstring;
  headers : list (jsstring * jsstring);
  body : Payload;
  abortAfter : Z;           (* AbortSignal.timeout(ms) *)
}.

(** What the network answers to one [fetch]. [data] is [None] when
    [response.json()] rejects, and otherwise the string found at the path
    the backend reads, if there is one. *)
Inductive FetchReply :=
| Rejected
| Responded (ok : bool) (status : Z) (statusText : jsstring)
    (data : option (option jsstring)).

Inductive TranslateError :=
| UnsupportedProvider (name : option jsstring)
| ApiError (api : jsstring) (status : Z) (statusText : jsstring)
| NoTranslation (api : jsstring)
| FetchFailed
| TranslationFailed (cause : TranslateError).

Definition Result := (TranslateError + TranslationResponse)%type.

Definition getLanguageName (code : jsstring) : jsstring :=
  let languageNames : obj jsstring :=
    [ (str "en", str "English"); (str "zh", str "Chinese");
      (str "es", str "Spanish"); (str "fr", str "French");
      (str "de", str "German"); (str "ja", str "Japanese");
      (str "ko", str "Korean"); (str "ru", str "Russian");
      (str "ar", str "Arabic") ] in
  or_else (obj_get code languageNames) code.

Definition promptOf (request : TranslationRequest) : Prompt :=
  mkPrompt (getLanguageName (to request)) (getLanguageName (from request))
    (text request) (or_else (context request) []).

(** [this.config.timeout || 10000] *)
Definition timeoutOf (config : AITranslationConfig) : Z :=
  match timeout config with
  | Some t => if t =? 0 then 10000 else t
  | None => 10000
  end.

(** The part the four backends share after the call: the status check, the
    parse of the body and the refusal of an empty translation. [trimmed]
    tells whether the backend trims the string it reads. *)
Definition readReply (api : jsstring) (trimmed : bool)
    (request : TranslationRequest) (reply : FetchReply) : Result :=
  match reply with
  | Rejected => inl FetchFailed
  | Responded ok status statusText data =>
      if negb ok then inl (ApiError api status statusText)
      else
        match data with
        | None => inl FetchFailed
        | Some None => inl (NoTranslation api)
        | Some (Some s) =>
            let translatedText := if trimmed then trim s else s in
            if truthy translatedText
            then inr (mkResponse translatedText (from request) (to request))
            else inl (NoTranslation api)
        end
  end.

Definition translateWithOpenAI (config : AITranslationConfig)
    (request : TranslationRequest) (reply : FetchReply)
  : FetchRequest * Result :=
  (mkFetch (str "https://api.openai.com/v1/chat/completions")
     [ (str "Content-Type", str "application/json");
       (str "Authorization", str "Bearer " ++ apiKey config) ]
     (ChatCompletions (or_else (model config) (str "gpt-3.5-turbo"))
        (promptOf request))
     (timeoutOf config),
   readReply (str "OpenAI") true request reply).

Definition translateWithClaude (config : AITranslationConfig)
    (request : TranslationRequest) (reply : FetchReply)
  : FetchRequest * Result :=
  (mkFetch (str "https://api.anthropic.com/v1/messages")
     [ (str "Content-Type", str "application/json");
       (str "x-api-key", apiKey config);
       (str "anthropic-version", str "2023-06-01") ]
     (Messages (or_else (model config) (str "claude-3-haiku-20240307"))
        (promptOf request))
     (timeoutOf config),
   readReply (str "Claude") true request reply).

Definition translateWithGoogle (config : AITranslationConfig)
    (request : TranslationRequest) (reply : FetchReply)
  : FetchRequest * Result :=
  (mkFetch
     (str "https://translation.googleapis.com/language/translate/v2?key="
        ++ apiKey config)
     [ (str "Content-Type", str "application/json") ]
     (GoogleTranslate (text request) (from request) (to request))
     (timeoutOf config),
   readReply (str "Google Translate") false request reply).

Definition translateWithDeepL (config : AITranslationConfig)
    (request : TranslationRequest) (reply : FetchReply)
  : FetchRequest * Result :=
  (mkFetch
     (or_else (endpoint config) (str "https://api-free.deepl.com/v2/translate"))
     [ (str "Authorization", str "DeepL-Auth-Key " ++ apiKey config);
       (str "Content-Type", str "application/json") ]
     (DeepLTranslate [text request] (toUpperCase (from request))
        (toUpperCase (to request)))
     (timeoutOf config),
   readReply (str "DeepL") false request reply).

(** The [switch] on [this.config.provider]. The first component lists the
    network calls issued. *)
Definition performTranslation (config : AITranslationConfig)
    (request : TranslationRequest) (reply : FetchReply)
  : list FetchRequest * Result :=
  let one (r : FetchRequest * Result) := ([fst r], snd r) in
  if decide (provider config = Some (str "openai")) then
    one (translateWithOpenAI config request reply)
  else if decide (provider config = Some (str "claude")) then
    one (translateWithClaude config request reply)
  else if decide (provider config = Some (str "google")) then
    one (translateWithGoogle config request reply)
  else if decide (provider config = Some (str "deepl")) then
    one (translateWithDeepL config request reply)
  else ([], inl (UnsupportedProvider (provider config))).

(** What the platform hands to one call of [translate]. *)
Record TranslateEnv := mkTranslateEnv {
  t_get : GetEnv;
  t_reply : FetchReply;
  t_config : AITranslationConfig;   (* getAIConfig() read by the cache *)
  t_set : SetEnv;
}.

Record Outcome (A : Type) := mkOutcome {
  manager : Manager;
  calls : list FetchRequest;
  value : A;
}.
Arguments mkOutcome {A}.
Arguments manager {A}.
Arguments calls {A}.
Arguments value {A}.

Definition translate (config : AITranslationConfig) (w : TranslateEnv)
    (m : Manager) (request : TranslationRequest) : Outcome Result :=
  match Cache.get (t_get w) m request with
  | (m1, Some cached) => mkOutcome m1 [] (inr cached)
  | (m1, None) =>
      match performTranslation config request (t_reply w) with
      | (issued, inr response) =>
          mkOutcome (Cache.set (t_config w) (t_set w) m1 request response)
            issued (inr response)
      | (issued, inl error) =>
          mkOutcome m1 issued (inl (TranslationFailed error))
      end
  end.

(** [translateBatch]; [ws i] is the environment of the [i]-th call of
    [translate], counted from [i0]. *)
Fixpoint translateBatch (config : AITranslationConfig)
    (ws : nat -> TranslateEnv) (i0 : nat) (m : Manager)
    (requests : list TranslationRequest)
  : Outcome (list TranslationResponse) :=
  match requests with
  | [] => mkOutcome m [] []
  | request :: rest =>
      let o := translate config (ws i0) m request in
      let result :=
        match value o with
        | inr r => r
        | inl _ =>
            (* the result pushed by the [catch] *)
            mkResponse (text request) (from request) (to request)
        end in
      let o' := translateBatch config ws (S i0) (manager o) rest in
      mkOutcome (manager o') (calls o ++ calls o') (result :: value o')
  end.

(** [checkServiceAvailability] *)
Definition checkServiceAvailability (config : AITranslationConfig)
    (reply : FetchReply) : list FetchRequest * bool :=
  let testRequest := mkRequest (str "Hello") (str "en") (str "zh") None in
  match performTranslation config testRequest reply with
  | (issued, inr _) => (issued, true)
  | (issued, inl _) => (issued, false)
  end.

End Translator.

(** ** Optimized batch generator (class AITranslationGenerator) *)

Module Generator.

Record Item := mkItem {
  key : jsstring;
  text : jsstring;
}.

(** The values the field [translated] takes: a string, or what a look-up
    in an object literal finds under a name of [Object.prototype]. *)
Inductive Value :=
| Text (s : jsstring)
| Builtin (name : jsstring).

Record Translated := mkTranslated {
  tkey : jsstring;
  translated : Value;
}.

(** The character ranges of the [patterns] table, per target language. *)
Definition patterns : obj (list (N * N)) :=
  [ (str "zh", [(0x4e00, 0x9fff)]);
    (str "ja", [(0x3040, 0x309f); (0x30a0, 0x30ff)]);
    (str "ko", [(0xac00, 0xd7af)]);
    (str "ru", [(0x0400, 0x04ff)]);
    (str "ar", [(0x0600, 0x06ff)]);
    (str "th", [(0x0e00, 0x0e7f)]) ]%N.

(** [pattern.test(text)] for a character class. *)
Definition test (ranges : list (N * N)) (s : jsstring) : bool :=
  existsb
    (fun c => existsb (fun r => (fst r <=? c) && (c <=? snd r))%N ranges) s.

(** [pattern ? pattern.test(text) : false] for [patterns[targetLanguage]].
    [None]: the call throws a [TypeError], as an inherited member is
    truthy and has no method [test]. *)
Definition isAlreadyTranslated (s targetLanguage : jsstring) : option bool :=
  match member targetLanguage patterns with
  | Own pattern => Some (test pattern s)
  | Inherited => None
  | Missing => Some false
  end.

Definition fallbackCore : obj jsstring :=
  [ (str "common.welcome", str "Welcome");
    (str "common.login", str "Log In");
    (str "common.logout", str "Logout");
    (str "common.save", str "Save");
    (str "common.delete", str "Delete");
    (str "common.edit", str "Edit");
    (str "nav.home", str "Home");
    (str "nav.settings", str "Settings");
    (str "sidebar.dashboard", str "Dashboard");
    (str "sidebar.items", str "Items");
    (str "sidebar.userSettings", str "User Settings");
    (str "settings.title", str "User Settings");
    (str "auth.loginTitle", str "Sign in to your account");
    (str "auth.email", str "Email");
    (str "auth.password", str "Password") ].

(** [fallbackCore[item.key] || item.text] for every item. *)
Definition getFallbackTranslations (items : list Item) : list Translated :=
  List.map
    (fun item =>
       mkTranslated (key item)
         match member (key item) fallbackCore with
         | Own v => Text (or_else (Some v) (text item))
         | Inherited => Builtin (key item)
         | Missing => Text (text item)
         end)
    items.

(** The body of the one request of a batch. *)
Record BatchRequest := mkBatchRequest {
  texts : list jsstring;
  source_language : jsstring;
  target_language : jsstring;
  batchContext : jsstring;
}.

(** What the network answers to the batch request. [translations] is [None]
    when the body cannot be read as the expected object, and otherwise the
    [translated] field of every element of [data.translations]. *)
Inductive BatchReply :=
| BatchRejected
| BatchResponded (ok : bool) (translations : option (list (option jsstring))).

(** [data.translations.forEach((item, index) =>
       translationMap.set(toTranslate[index].text, item.translated))];
    [None] when [toTranslate[index]] is undefined. *)
Fixpoint fillMap (toTranslate : list Item)
    (translations : list (option jsstring))
    (translationMap : obj (option jsstring))
  : option (obj (option jsstring)) :=
  match translations, toTranslate with
  | [], _ => Some translationMap
  | _ :: _, [] => None
  | t :: ts, item :: rest =>
      fillMap rest ts (obj_set (text item) t translationMap)
  end.

(** [items.filter(item => !this.isAlreadyTranslated(item.text,
    targetLanguage))]; [None] when the test throws. *)
Fixpoint notTranslated (targetLanguage : jsstring) (items : list Item)
  : option (list Item) :=
  match items with
  | [] => Some []
  | item :: rest =>
      match isAlreadyTranslated (text item) targetLanguage with
      | None => None
      | Some already =>
          match notTranslated targetLanguage rest with
          | None => None
          | Some l => Some (if already then l else item :: l)
          end
      end
  end.

Definition translateBatchOptimized (targetLanguage : jsstring)
    (items : list Item) (reply : BatchReply)
  : list BatchRequest * list Translated :=
  match notTranslated targetLanguage items with
  | None => ([], getFallbackTranslations items)
  | Some [] =>
      ([], List.map (fun item => mkTranslated (key item) (Text (text item))) items)
  | Some ((_ :: _) as toTranslate) =>
      let request :=
        mkBatchRequest (List.map text toTranslate) (str "auto") targetLanguage
          (str "web interface UI text translation") in
      let degraded := ([request], getFallbackTranslations items) in
      match reply with
      | BatchRejected => degraded
      | BatchResponded false _ => degraded
      | BatchResponded true None => degraded
      | BatchResponded true (Some translations) =>
          match fillMap toTranslate translations [] with
          | None => degraded
          | Some translationMap =>
              ([request],
               List.map
                 (fun item =>
                    mkTranslated (key item)
                      (Text
                         (or_else (mjoin (obj_get (text item) translationMap))
                            (text item))))
                 items)
          end
      end
  end.

(** The entries of [getCoreTranslations]. *)
Definition getCoreTranslations : obj jsstring :=
  [ (str "common.welcome", str "Welcome");
    (str "common.login", str "Log In");
    (str "common.logout", str "Logout");
    (str "common.save", str "Save");
    (str "common.delete", str "Delete");
    (str "common.edit", str "Edit");
    (str "common.cancel", str "Cancel");
    (str "common.submit", str "Submit");
    (str "common.search", str "Search");
    (str "nav.home", str "Home");
    (str "nav.settings", str "Settings");
    (str "sidebar.dashboard", str "Dashboard");
    (str "sidebar.items", str "Items");
    (str "sidebar.userSettings", str "User Settings");
    (str "sidebar.admin", str "Admin");
    (str "settings.title", str "User Settings");
    (str "auth.loginTitle", str "Sign in to your account");
    (str "auth.email", str "Email");
    (str "auth.password", str "Password");
    (str "auth.fullName", str "Full Name");
    (str "dashboard.greeting", str "Hi, {{name}}");
    (str "dashboard.welcomeBack", str "Welcome back, nice to see you again!");
    (str "items.title", str "Items Management");
    (str "users.title", str "Users Management") ].

(** The loop of [generateTranslations] over the entries, thirty at a time.
    [replies b] answers the request of the batch of number [b]; [fuel]
    bounds the number of batches. *)
Fixpoint translateEntries (fuel : nat) (targetLanguage : jsstring)
    (entries : list (jsstring * jsstring)) (replies : nat -> BatchReply)
    (b : nat) (result : obj Value) : list BatchRequest * obj Value :=
  match fuel, entries with
  | O, _ => ([], result)
  | _, [] => ([], result)
  | S f, _ :: _ =>
      let batch := firstn 30 entries in
      let out :=
        translateBatchOptimized targetLanguage
          (List.map (fun kv => mkItem (fst kv) (snd kv)) batch) (replies b) in
      let result1 :=
        List.fold_left (fun r t => obj_set (tkey t) (translated t) r)
          (snd out) result in
      let rest :=
        translateEntries f targetLanguage (skipn 30 entries) replies (S b)
          result1 in
      (fst out ++ fst rest, snd rest)
  end.

(** [generateTranslations]; the state is the map [this.cache]. *)
Definition generateTranslations (targetLanguage : jsstring)
    (replies : nat -> BatchReply) (generated : obj (obj Value))
  : obj (obj Value) * list BatchRequest * obj Value :=
  let cacheKey := str "core-" ++ targetLanguage in
  match obj_get cacheKey generated with
  | Some cached => (generated, [], cached)
  | None =>
      let entries := getCoreTranslations in
      let out :=
        translateEntries (length entries) targetLanguage entries replies 0 [] in
      (obj_set cacheKey (snd out) generated, fst out, snd out)
  end.

(** [getSupportedLanguages] *)
Record Language := mkLanguage {
  code : jsstring;
  name : jsstring;
  nativeName : jsstring;
}.

Definition getSupportedLanguages : list Language :=
  [ mkLanguage (str "zh") (str "Chinese") [0x4e2d; 0x6587]%N;
    mkLanguage (str "ja") (str "Japanese") [0x65e5; 0x672c; 0x8a9e]%N;
    mkLanguage (str "ko") (str "Korean") [0xd55c; 0xad6d; 0xc5b4]%N;
    mkLanguage (str "fr") (str "French")
      [0x46; 0x72; 0x61; 0x6e; 0xe7; 0x61; 0x69; 0x73]%N;
    mkLanguage (str "de") (str "German") (str "Deutsch");
    mkLanguage (str "es") (str "Spanish")
      [0x45; 0x73; 0x70; 0x61; 0xf1; 0x6f; 0x6c]%N;
    mkLanguage (str "ru") (str "Russian")
      [0x420; 0x443; 0x441; 0x441; 0x43a; 0x438; 0x439]%N;
    mkLanguage (str "it") (str "Italian") (str "Italiano");
    mkLanguage (str "pt") (str "Portuguese")
      [0x50; 0x6f; 0x72; 0x74; 0x75; 0x67; 0x75; 0xea; 0x73]%N;
    mkLanguage (str "ar") (str "Arabic")
      [0x627; 0x644; 0x639; 0x631; 0x628; 0x64a; 0x629]%N ].

End Generator.

(** ** The document *)

Module Dom.

(** A child of an element: a text node with its data, or an element, by
    reference. Elements live in a store, so that the references held by the
    services and the document see the same element. *)
Inductive Child :=
| CText (data : jsstring)
| CElem (ref : nat).

Record Element := mkElement {
  html : bool;                      (* in the HTML namespace *)
  localName : jsstring;
  attributes : obj jsstring;
  childNodes : list Child;
}.

Record Document := mkDocument {
  nodes : gmap nat Element;
  documentElement : nat;
  body : nat;
}.

(** The attribute behind [dataset.originalText], which both the page
    service and the language switcher write. *)
Definition DATA_ORIGINAL_TEXT : jsstring := str "data-original-text".

Definition tagName (e : Element) : jsstring :=
  if html e then toUpperCase (localName e) else localName e.

Definition getAttribute (name : jsstring) (e : Element) : option jsstring :=
  obj_get name (attributes e).

Definition setAttribute (name value : jsstring) (e : Element) : Element :=
  mkElement (html e) (localName e) (obj_set name value (attributes e))
    (childNodes e).

Definition removeAttribute (name : jsstring) (e : Element) : Element :=
  mkElement (html e) (localName e) (obj_delete name (attributes e))
    (childNodes e).

Definition setChildNodes (cs : list Child) (e : Element) : Element :=
  mkElement (html e) (localName e) (attributes e) cs.

(** The data of the text nodes that are children of the element: what the
    tree walker of [getElementText] and [setElementText] accepts. *)
Fixpoint directTextNodes (cs : list Child) : list jsstring :=
  match cs with
  | [] => []
  | CText s :: r => s :: directTextNodes r
  | CElem _ :: r => directTextNodes r
  end.

(** The getter of [textContent]. The depth visited is bounded by [fuel]. *)
Fixpoint textContent_upto (fuel : nat) (ns : gmap nat Element) (id : nat)
  : jsstring :=
  match fuel with
  | O => []
  | S f =>
      match ns !! id with
      | None => []
      | Some e =>
          List.flat_map
            (fun c =>
               match c with
               | CText s => s
               | CElem j => textContent_upto f ns j
               end)
            (childNodes e)
      end
  end.

Definition textContent (ns : gmap nat Element) (id : nat) : jsstring :=
  textContent_upto (S (size ns)) ns id.

(** The setter of [textContent]. *)
Definition setTextContent (s : jsstring) (e : Element) : Element :=
  setChildNodes (if truthy s then [CText s] else []) e.

(** The element and its descendant elements in document order, each with
    the chain of its ancestors, nearest first. *)
Fixpoint subtree (fuel : nat) (ns : gmap nat Element) (ancestors : list nat)
    (id : nat) : list (nat * list nat) :=
  match fuel with
  | O => []
  | S f =>
      match ns !! id with
      | None => []
      | Some e =>
          (id, ancestors)
            :: List.flat_map
                 (fun c =>
                    match c with
                    | CText _ => []
                    | CElem j => subtree f ns (id :: ancestors) j
                    end)
                 (childNodes e)
      end
  end.

Definition descendants (ns : gmap nat Element) (id : nat) : list nat :=
  List.map fst (List.tl (subtree (S (size ns)) ns [] id)).

(** *** The selectors the code uses *)

Inductive Simple :=
| Type_ (name : jsstring)             (* button *)
| Class (name : jsstring)             (* .chakra-button *)
| HasAttr (name : jsstring)           (* [data-translate] *)
| AttrIs (name value : jsstring)      (* [role=menuitem], value quoted *)
| NotHas (name : jsstring).           (* :not(:has(svg)) *)

Inductive Complex :=
| Compound (c : list Simple)
| Descendant (ancestor : list Simple) (c : list Simple).   (* nav a *)

(** A selector list, as between commas. *)
Definition Selector := list Complex.

Definition is_ascii_ws (c : N) : bool :=
  ((c =? 9) || (c =? 10) || (c =? 12) || (c =? 13) || (c =? 32))%N.

(** The tokens of a [class] attribute; [cur] is the token being read,
    reversed. *)
Fixpoint tokens (cur : jsstring) (s : jsstring) : list jsstring :=
  match s with
  | [] => if truthy cur then [rev cur] else []
  | c :: r =>
      if is_ascii_ws c
      then (if truthy cur then rev cur :: tokens [] r else tokens [] r)
      else tokens (c :: cur) r
  end.

Definition hasLocalName (ns : gmap nat Element) (name : jsstring) (id : nat)
  : bool :=
  match ns !! id with
  | Some e => bool_decide (localName e = name)
  | None => false
  end.

Definition matchesSimple (ns : gmap nat Element) (id : nat) (s : Simple)
  : bool :=
  match ns !! id with
  | None => false
  | Some e =>
      match s with
      | Type_ name => bool_decide (localName e = name)
      | Class name =>
          match getAttribute (str "class") e with
          | Some v => bool_decide (name ∈ tokens [] v)
          | None => false
          end
      | HasAttr name => bool_decide (is_Some (getAttribute name e))
      | AttrIs name value => bool_decide (getAttribute name e = Some value)
      | NotHas name => negb (existsb (hasLocalName ns name) (descendants ns id))
      end
  end.

Definition matchesCompound (ns : gmap nat Element) (c : list Simple) (id : nat)
  : bool :=
  forallb (matchesSimple ns id) c.

Definition matchesComplex (ns : gmap nat Element) (x : nat * list nat)
    (c : Complex) : bool :=
  match c with
  | Compound c => matchesCompound ns c (fst x)
  | Descendant a c =>
      matchesCompound ns c (fst x) && existsb (matchesCompound ns a) (snd x)
  end.

(** [document.querySelectorAll(selector)] *)
Definition querySelectorAll (d : Document) (sel : Selector) : list nat :=
  List.map fst
    (List.filter (fun x => existsb (matchesComplex (nodes d) x) sel)
       (subtree (S (size (nodes d))) (nodes d) [] (documentElement d))).

(** [element.querySelector(name)] for a type selector: is there a match? *)
Definition hasDescendant (ns : gmap nat Element) (id : nat) (name : jsstring)
  : bool :=
  existsb (hasLocalName ns name) (descendants ns id).

Definition getElementById (d : Document) (id : jsstring) : option nat :=
  List.head (querySelectorAll d [Compound [AttrIs (str "id") id]]).

End Dom.

Import Dom.

(** ** Page translation service (services/pageTranslationService.ts) *)

Module Page.

Record PageElement := mkPageElement {
  element : nat;
  originalText : jsstring;
  translatedText : option jsstring;
  selector : jsstring;
}.

Record Service := mkService {
  elements : obj PageElement;       (* a Map, in insertion order *)
  cache : obj jsstring;
  isTranslated : bool;
  targetLanguage : jsstring;
}.

Definition DATA_TRANSLATED : jsstring := str "data-translated".

(** The selectors of [scanPage], each with the text it is written with. *)
Definition selectors : list (jsstring * Selector) :=
  [ (str "button:not(:has(svg))",
     [Compound [Type_ (str "button"); NotHas (str "svg")]]);
    (str ".chakra-menu__menuitem",
     [Compound [Class (str "chakra-menu__menuitem")]]);
    (str "[role=" ++ [34%N] ++ str "menuitem" ++ [34%N] ++ str "]",
     [Compound [AttrIs (str "role") (str "menuitem")]]);
    (str ".chakra-button", [Compound [Class (str "chakra-button")]]);
    (str "a[role=" ++ [34%N] ++ str "menuitem" ++ [34%N] ++ str "]",
     [Compound [Type_ (str "a"); AttrIs (str "role") (str "menuitem")]]);
    (str ".sidebar-item-text", [Compound [Class (str "sidebar-item-text")]]);
    (str "nav a", [Descendant [Type_ (str "nav")] [Type_ (str "a")]]);
    (str "h1, h2, h3, h4, h5, h6",
     [Compound [Type_ (str "h1")]; Compound [Type_ (str "h2")];
      Compound [Type_ (str "h3")]; Compound [Type_ (str "h4")];
      Compound [Type_ (str "h5")]; Compound [Type_ (str "h6")]]);
    (str ".form-label", [Compound [Class (str "form-label")]]);
    (str ".input-label", [Compound [Class (str "input-label")]]);
    (str "[data-translate]", [Compound [HasAttr (str "data-translate")]]) ].

Definition getElementText (ns : gmap nat Element) (id : nat) : jsstring :=
  match ns !! id with
  | None => []
  | Some e =>
      let text := List.concat (directTextNodes (childNodes e)) in
      let text := if truthy (trim text) then text else textContent ns id in
      trim text
  end.

(** The characters of the class tested by [shouldSkipElement]: the digits
    and the punctuation signs listed there; 34 is the double quote. *)
Definition special : jsstring :=
  str "0123456789@#$%^&*()_+-=[]{};':\|,.<>/?" ++ [34%N].

Definition shouldSkipElement (ns : gmap nat Element) (id : nat) : bool :=
  match ns !! id with
  | None => false
  | Some e =>
      if bool_decide (tagName e = str "svg") || hasDescendant ns id (str "svg")
      then true
      else if bool_decide (tagName e = str "input")
              || bool_decide (tagName e = str "textarea")
      then true
      else
        let text := getElementText ns id in
        if existsb (fun c => bool_decide (c ∈ special)) text
           && (length text <? 10)%nat
        then true
        else if bool_decide (getAttribute DATA_TRANSLATED e = Some (str "true"))
        then true
        else false
  end.

Definition decimal (n : nat) : jsstring :=
  str (NilZero.string_of_uint (Nat.to_uint n)).

(** [`${selector}-${index}-${text.substring(0, 20)}`] *)
Definition uniqueKey (sel : jsstring) (index : nat) (text : jsstring)
  : jsstring :=
  sel ++ [CH_DASH] ++ decimal index ++ [CH_DASH] ++ firstn 20 text.

(** The body of the inner [forEach] of [scanPage]. *)
Definition scanElement (ns : gmap nat Element) (sel : jsstring)
    (found : obj PageElement) (x : nat * nat) : obj PageElement :=
  let '(index, id) := x in
  let text := getElementText ns id in
  if truthy text && truthy (trim text) && negb (shouldSkipElement ns id)
  then obj_set (uniqueKey sel index text) (mkPageElement id text None sel) found
  else found.

Definition indexed {A} (l : list A) : list (nat * A) :=
  List.combine (List.seq 0 (length l)) l.

Definition scanPage (d : Document) (s : Service) : Service :=
  let cleared : obj PageElement := [] in
  let found :=
    List.fold_left
      (fun acc sel =>
         List.fold_left (scanElement (nodes d) (fst sel)) 
           (indexed (querySelectorAll d (snd sel))) acc)
      selectors cleared in
  mkService found (cache s) (isTranslated s) (targetLanguage s).

(** [textNodes[0].textContent = text] *)
Fixpoint replaceFirstText (text : jsstring) (cs : list Child)
  : option (list Child) :=
  match cs with
  | [] => None
  | CText _ :: r => Some (CText text :: r)
  | CElem j :: r =>
      match replaceFirstText text r with
      | Some r' => Some (CElem j :: r')
      | None => None
      end
  end.

Definition setElementText (text : jsstring) (e : Element) : Element :=
  match replaceFirstText text (childNodes e) with
  | Some cs => setChildNodes cs e
  | None => setTextContent text e
  end.

Definition applyToElement (original translated : jsstring) (e : Element)
  : Element :=
  let e1 :=
    if truthy (or_else (getAttribute DATA_ORIGINAL_TEXT e) [])
    then e
    else setAttribute DATA_ORIGINAL_TEXT original e in
  setAttribute DATA_TRANSLATED (str "true") (setElementText translated e1).

Definition applyTranslation (pageElement : PageElement)
    (ns : gmap nat Element) : gmap nat Element :=
  match translatedText pageElement with
  | Some t =>
      if truthy t
      then alter (applyToElement (originalText pageElement) t)
             (element pageElement) ns
      else ns
  | None => ns
  end.

(** The body of the [forEach] of [restoreAll], on the element. *)
Definition restoreElement (e : Element) : Element :=
  match getAttribute DATA_ORIGINAL_TEXT e with
  | Some original =>
      if truthy original
      then removeAttribute DATA_TRANSLATED (setElementText original e)
      else e
  | None => e
  end.

Definition restoreAll (s : Service) (ns : gmap nat Element)
  : Service * gmap nat Element :=
  (mkService (elements s) (cache s) false (targetLanguage s),
   List.fold_left
     (fun acc kv => alter restoreElement (element (snd kv)) acc)
     (elements s) ns).

(** *** The translation of the scanned elements *)

(** What [translationService.translate] is called with. *)
Record TranslateCall := mkTranslateCall {
  callText : jsstring;
  source_language : jsstring;
  target_language : jsstring;
  callContext : jsstring;
}.

(** How a call ends: the promise rejects, or it resolves to a response, of
    which [translated_text] is read. *)
Inductive TranslateReply :=
| TranslateRejected
| TranslateResolved (translated_text : jsstring).

(** [`${originalText}-${this.targetLanguage}`] *)
Definition cacheKey (language : jsstring) (pageElement : PageElement)
  : jsstring :=
  originalText pageElement ++ [CH_DASH] ++ language.

(** [this.cache[cacheKey]] when it is truthy. *)
Definition cached (c : obj jsstring) (language : jsstring)
    (pageElement : PageElement) : option jsstring :=
  match obj_get (cacheKey language pageElement) c with
  | Some t => if truthy t then Some t else None
  | None => None
  end.

Definition callFor (language : jsstring) (pageElement : PageElement)
  : TranslateCall :=
  mkTranslateCall (originalText pageElement) (str "auto") language
    (str "web interface, buttons, menus, navigation").

(** [pageElement.translatedText = t]: the object is the one the map holds. *)
Definition withTranslated (t : jsstring) (pageElement : PageElement)
  : PageElement :=
  mkPageElement (element pageElement) (originalText pageElement) (Some t)
    (selector pageElement).

(** The promises of one batch. Each starts when [map] reaches its element:
    it reads the cache as the batch found it and, on a miss, places the
    call of number [n]. The result holds the elements with the text their
    promise leaves on them, the calls in the order they are placed, and for
    each call the cache key it writes under and its reply. *)
Fixpoint startAll (language : jsstring) (c : obj jsstring)
    (replies : nat -> TranslateReply) (n : nat)
    (batch : list (jsstring * PageElement))
  : list (jsstring * PageElement) * list TranslateCall
    * list (jsstring * TranslateReply) :=
  match batch with
  | [] => ([], [], [])
  | (k, pageElement) :: r =>
      match cached c language pageElement with
      | Some t =>
          let rest := startAll language c replies n r in
          ((k, withTranslated t pageElement) :: fst (fst rest),
           snd (fst rest), snd rest)
      | None =>
          let rest := startAll language c replies (S n) r in
          let t :=
            match replies n with
            | TranslateResolved translated_text => translated_text
            | TranslateRejected => originalText pageElement
            end in
          ((k, withTranslated t pageElement) :: fst (fst rest),
           callFor language pageElement :: snd (fst rest),
           (cacheKey language pageElement, replies n) :: snd rest)
      end
  end.

(** The end of the call of number [i] of the batch: a response is cached. *)
Definition arrive (pending : list (jsstring * TranslateReply))
    (c : obj jsstring) (i : nat) : obj jsstring :=
  match pending !! i with
  | Some (k, TranslateResolved translated_text) => obj_set k translated_text c
  | _ => c
  end.

Record Run := mkRun {
  runElements : list (jsstring * PageElement);
  runCalls : list TranslateCall;
  runCache : obj jsstring;
  runNodes : gmap nat Element;
}.

(** [translateBatch]. The calls of the batch end in the order [order],
    which numbers them from 0 within the batch; the translations are
    applied when all have ended. *)
Definition translateBatch (language : jsstring)
    (replies : nat -> TranslateReply) (order : list nat) (n : nat)
    (batch : list (jsstring * PageElement)) (c : obj jsstring)
    (ns : gmap nat Element) : Run :=
  let started := startAll language c replies n batch in
  mkRun (fst (fst started)) (snd (fst started))
    (List.fold_left (arrive (snd started)) order c)
    (List.fold_left (fun acc kv => applyTranslation (snd kv) acc)
       (fst (fst started)) ns).

(** The loop of [translateAll], five elements at a time. [b] is the
    number of the batch and [n] the number of calls placed before it;
    [arrival b] is the order in which the calls of batch [b] end. *)
Fixpoint translateBatches (fuel : nat) (language : jsstring)
    (replies : nat -> TranslateReply) (arrival : nat -> list nat)
    (b n : nat) (entries : list (jsstring * PageElement)) (c : obj jsstring)
    (ns : gmap nat Element) : Run :=
  match fuel, entries with
  | O, _ => mkRun entries [] c ns
  | _, [] => mkRun [] [] c ns
  | S f, _ :: _ =>
      let out :=
        translateBatch language replies (arrival b) n (firstn 5 entries) c ns in
      let rest :=
        translateBatches f language replies arrival (S b)
          (n + length (runCalls out)) (skipn 5 entries) (runCache out)
          (runNodes out) in
      mkRun (runElements out ++ runElements rest)
        (runCalls out ++ runCalls rest) (runCache rest) (runNodes rest)
  end.

(** [translateAll]: the service, the document and the calls placed. No
    step of the loop throws, so the flag is raised at its end. *)
Definition translateAll (replies : nat -> TranslateReply)
    (arrival : nat -> list nat) (s : Service) (ns : gmap nat Element)
  : Service * gmap nat Element * list TranslateCall :=
  if isTranslated s
  then (restoreAll s ns, [])
  else
    let out :=
      translateBatches (length (elements s)) (targetLanguage s) replies
        arrival 0 0 (elements s) (cache s) ns in
    (mkService (runElements out) (runCache out) true (targetLanguage s),
     runNodes out, runCalls out).

End Page.

(** ** Reload hook (hooks/useAITranslation.ts) *)

Module Hook.

(** The window: the document and the item [ai_language] of [localStorage]. *)
Record Window := mkWindow {
  document : Document;
  ai_language : option jsstring;
}.

Definition DATA_AI_TRANSLATED : jsstring := str "data-ai-translated".
Definition RESTORE_BUTTON_ID : jsstring := str "ai-restore-button".

Definition isChild (id : nat) (c : Child) : bool :=
  match c with
  | CElem j => bool_decide (j = id)
  | CText _ => false
  end.

(** [node.parentNode] *)
Definition parentNode (ns : gmap nat Element) (id : nat) : option nat :=
  fst <$> List.find (fun kv => existsb (isChild id) (childNodes (snd kv)))
            (map_to_list ns).

(** [parent.removeChild(node)] *)
Definition removeChild (id : nat) (parent : Element) : Element :=
  setChildNodes (List.filter (fun c => negb (isChild id c)) (childNodes parent))
    parent.

Definition appendChild (id : nat) (parent : Element) : Element :=
  setChildNodes (childNodes parent ++ [CElem id]) parent.

(** The removal of the restore button, as both functions of the hook do it:
    out of its parent when it has one, then hidden. Once detached the button
    is no longer contained in the body, so the second attempt does nothing. *)
Definition removeButton (button : nat) (ns : gmap nat Element)
  : gmap nat Element :=
  let ns1 :=
    match parentNode ns button with
    | Some p => alter (removeChild button) p ns
    | None => ns
    end in
  alter
    (fun e =>
       setAttribute (str "style")
         (or_else (getAttribute (str "style") e) [] ++ str " display: none;") e)
    button ns1.

(** The button [addRestoreButton] creates; the style is kept as the list of
    its declarations. *)
Definition restoreButton : Element :=
  mkElement true (str "button")
    [ (str "id", RESTORE_BUTTON_ID);
      (str "style",
       str "position: fixed; top: 80px; right: 20px; background: #e53e3e; color: white; border: none; padding: 10px 16px; border-radius: 8px; cursor: pointer; z-index: 1000; font-size: 14px; font-weight: 500; box-shadow: 0 4px 6px rgba(0, 0, 0, 0.1); transition: all 0.2s;") ]
    [ CText ([0x21a9; 0xfe0f; 32; 0x6062; 0x590d; 0x539f; 0x6587]%N) ].

Definition withNodes (ns : gmap nat Element) (d : Document) : Document :=
  mkDocument ns (documentElement d) (body d).

Definition addRestoreButton (d : Document) : Document :=
  match getElementById d RESTORE_BUTTON_ID with
  | Some existingButton => withNodes (removeButton existingButton (nodes d)) d
  | None =>
      let button := fresh (dom (nodes d)) in
      withNodes
        (alter (appendChild button) (body d)
           (<[button := restoreButton]> (nodes d)))
        d
  end.

Definition restoreAITranslationState (w : Window) : Window :=
  let translatedElements :=
    querySelectorAll (document w)
      [Compound [AttrIs DATA_AI_TRANSLATED (str "true")]] in
  if (length translatedElements =? 0)%nat
  then mkWindow (document w) None
  else mkWindow (addRestoreButton (document w)) (ai_language w).

(** The effect run at mount: the item is read, and when it holds a
    language [restoreAITranslationState] runs one second later. [w] is the
    window at that time. *)
Definition useAITranslation (w : Window) : Window :=
  let aiLanguage := ai_language w in
  if truthy (or_else aiLanguage [])
  then restoreAITranslationState w
  else w.

(** The body of the [forEach] of [restoreOriginalText]. *)
Definition restoreOne (e : Element) : Element :=
  match getAttribute DATA_ORIGINAL_TEXT e with
  | Some originalText =>
      if truthy originalText
      then removeAttribute DATA_AI_TRANSLATED
             (removeAttribute DATA_ORIGINAL_TEXT
                (setTextContent originalText e))
      else e
  | None => e
  end.

(** The [forEach] of [restoreOriginalText] over the elements that carry a
    recorded original text. *)
Definition restoreTexts (d : Document) : gmap nat Element :=
  let translatedElements :=
    querySelectorAll d [Compound [HasAttr DATA_ORIGINAL_TEXT]] in
  List.fold_left (fun acc id => alter restoreOne id acc) translatedElements
    (nodes d).

Definition restoreOriginalText (w : Window) : Window :=
  let d := document w in
  let ns1 := restoreTexts d in
  let d1 := withNodes ns1 d in
  let d2 :=
    match getElementById d1 RESTORE_BUTTON_ID with
    | Some button => withNodes (removeButton button ns1) d1
    | None => d1
    end in
  mkWindow d2 None.

End Hook.

(** ** The language switcher *)

Module Switcher.

(** The end of the promise of one element in [handleAITranslation], when
    the call has resolved; [text] is the trimmed text content the element
    had when it was collected. *)
Definition applyOne (text translated_text : jsstring) (e : Element) : Element :=
  let e1 :=
    if truthy (or_else (getAttribute DATA_ORIGINAL_TEXT e) [])
    then e
    else setAttribute DATA_ORIGINAL_TEXT text e in
  setAttribute Hook.DATA_AI_TRANSLATED (str "true")
    (setTextContent translated_text e1).

End Switcher.

(** ** Dynamic translation hook (hooks/useDynamicTranslation.ts) *)

Module Dynamic.
Import Generator.

(** What the hook uses of i18next: the current language, and per language
    the resources of the namespace [translation]. *)
Record I18n := mkI18n {
  language : jsstring;
  resources : obj (obj Value);
}.

(** [i18n.addResourceBundle(lng, 'translation', bundle, true, true)]: the
    entries of the bundle are added to the resources of the language, over
    those under the same keys. *)
Definition addResourceBundle (lng : jsstring) (bundle : obj Value) (i : I18n)
  : I18n :=
  let pack :=
    match obj_get lng (resources i) with
    | Some p => p
    | None => []
    end in
  mkI18n (language i)
    (obj_set lng
       (List.fold_left (fun p kv => obj_set (fst kv) (snd kv) p) bundle pack)
       (resources i)).

Definition changeLanguage (lng : jsstring) (i : I18n) : I18n :=
  mkI18n lng (resources i).

(** The application as the hook sees it. *)
Record App := mkApp {
  i18n : I18n;
  ai_language : option jsstring;             (* the item of [localStorage] *)
  generated : obj (obj Value);               (* the map of the generator *)
  dynamicTranslations : obj (obj Value);     (* the state of the hook *)
}.

Definition isAILanguage (languageCode : jsstring) : bool :=
  existsb (fun lang => bool_decide (code lang = languageCode))
    getSupportedLanguages.

(** The end of a call of [loadAITranslations]: the requests it has
    issued, its result, and whether it has set the state of the hook. *)
Record Loaded := mkLoaded {
  app : App;
  requests : list BatchRequest;
  loaded : bool;
  stateSet : bool;
}.

(** [loadAITranslations] as the render with the state [closed] made it:
    the test reads [closed], the update is made on the state of the
    moment. The codes of the supported languages name no member of
    [Object.prototype], so the look-up is one among the own properties. *)
Definition loadAITranslations (closed : obj (obj Value))
    (targetLanguage : jsstring) (replies : nat -> BatchReply) (a : App)
  : Loaded :=
  if negb (isAILanguage targetLanguage) then mkLoaded a [] false false
  else
    match obj_get targetLanguage closed with
    | Some _ => mkLoaded a [] true false
    | None =>
        let '(generated1, issued, translations) :=
          generateTranslations targetLanguage replies (generated a) in
        if (0 <? length (obj_keys translations))%nat
        then
          mkLoaded
            (mkApp (i18n a) (ai_language a) generated1
               (obj_set targetLanguage translations (dynamicTranslations a)))
            issued true true
        else
          mkLoaded
            (mkApp (i18n a) (ai_language a) generated1 (dynamicTranslations a))
            issued false false
    end.

(** The effect that restores the language, as the render with the state
    [closed] made it, run to the end of its promise. *)
Definition restoreLanguage (closed : obj (obj Value))
    (replies : nat -> BatchReply) (a : App) : Loaded :=
  match ai_language a with
  | Some aiLanguage =>
      if truthy aiLanguage && isAILanguage aiLanguage
      then
        let out := loadAITranslations closed aiLanguage replies a in
        match (if loaded out then obj_get aiLanguage closed else None) with
        | Some translations =>
            let a1 := app out in
            mkLoaded
              (mkApp
                 (changeLanguage aiLanguage
                    (addResourceBundle aiLanguage translations (i18n a1)))
                 (ai_language a1) (generated a1) (dynamicTranslations a1))
              (requests out) (loaded out) (stateSet out)
        | None => out
        end
      else mkLoaded a [] false false
  | None => mkLoaded a [] false false
  end.

(** The renders of the component from one that has the state [closed]:
    the effect runs, and when it has set the state, whose value is among
    its dependencies, the component renders again and the effect runs
    again. The other state of the hook, [isTranslating], is none of the
    dependencies. [replies r] answers the requests of the run of number
    [r]; [fuel] bounds the number of runs. *)
Fixpoint renders (fuel : nat) (closed : obj (obj Value))
    (replies : nat -> nat -> BatchReply) (r : nat) (a : App)
  : App * list BatchRequest :=
  match fuel with
  | O => (a, [])
  | S f =>
      let out := restoreLanguage closed (replies r) a in
      if stateSet out
      then
        let rest :=
          renders f (dynamicTranslations (app out)) replies (S r) (app out) in
        (fst rest, requests out ++ snd rest)
      else (app out, requests out)
  end.

(** The mount of the component: the state of the hook starts empty. The
    effect runs once per render that changes its dependencies, as in a
    production build. *)
Definition mount (fuel : nat) (replies : nat -> nat -> BatchReply) (a : App)
  : App * list BatchRequest :=
  renders fuel [] replies 0
    (mkApp (i18n a) (ai_language a) (generated a) []).

End Dynamic.

(** * Vocabulary of the properties *)

Module LowerSpec.






End LowerSpec.

Module CacheSpec.

(** The entry [set] writes. *)
Definition written (config : AITranslationConfig) (w : SetEnv)
    (response : TranslationResponse) : CacheEntry :=
  mkEntry (translatedText response) (set_now w)
    (set_now w + expiration config).

(** The write is kept: the first attempt to persist goes through, or the
    object held fewer entries than the bound before the write. *)
Definition kept (w : SetEnv) (m : Manager) : Prop :=
  save_ok (set_save w) = true \/ (length (cache m) < MAX_CACHE_SIZE)%nat.





(** *** Sample inputs *)

Definition openaiConfig : AITranslationConfig :=
  mkConfig (Some (str "openai")) (str "sk-test") None None None None.

Definition persisted : SaveEnv := mkSaveEnv true true.

Definition emptyManager : Manager := mkManager [] None.

(** A write at time [now], without the random cleanup, that is persisted. *)
Definition plainSet (now : Z) : SetEnv := mkSetEnv now false now persisted.

Definition saveRequest : TranslationRequest :=
  mkRequest (str "Save") (str "en") (str "zh") None.

Definition saveResponse : TranslationResponse :=
  mkResponse [0x4fdd; 0x5b58]%N (str "en") (str "zh").

(** The [i]-th of a thousand entries under distinct keys. *)
Definition filler (i : nat) : jsstring * CacheEntry :=
  (generateCacheKey
     (mkRequest [(0x4e00 + N.of_nat i)%N] (str "zh") (str "en") None),
   mkEntry (str "x") (Z.of_nat i) (Z.of_nat i + DEFAULT_EXPIRATION)).

Definition fullCache : TranslationCache :=
  List.map filler (List.seq 0 MAX_CACHE_SIZE).

(** Two texts that differ in a run of white space against an underscore:
    a capital sigma after a letter, then the white space U+FEFF, which
    the case conversion passes over, or an underscore, which ends the
    word. *)
Definition sigmaRun : jsstring := [0x41; 0x3a3; 0xfeff; 0x42]%N.

Definition sigmaUnderscore : jsstring := [0x41; 0x3a3; 0x5f; 0x42]%N.

(** A request in the language [auto] and a response that names the
    language found. *)
Definition autoRequest : TranslationRequest :=
  mkRequest (str "Save") (str "auto") (str "zh") None.

End CacheSpec.

Module TranslatorSpec.
Import Translator CacheSpec.

(** The names of the four backends. *)
Definition SUPPORTED_PROVIDERS : list jsstring :=
  [str "openai"; str "claude"; str "google"; str "deepl"].

(** Every entry of the cache holds a translation that is not empty: what
    [translate] writes, as every backend refuses an empty translation. *)
Definition entries_nonempty (m : Manager) : Prop :=
  Forall (fun kv => entryText (snd kv) <> []) (cache m).

(** The cache when [translateBatch] reaches the item of index [i]. *)
Definition stateBefore (config : AITranslationConfig)
    (ws : nat -> TranslateEnv) (i0 : nat) (m : Manager)
    (requests : list TranslationRequest) (i : nat) : Manager :=
  manager (translateBatch config ws i0 m (firstn i requests)).

(** *** Sample inputs *)

Definition okReply (s : jsstring) : FetchReply :=
  Responded true 200 (str "OK") (Some (Some s)).

Definition serverError : FetchReply :=
  Responded false 500 (str "Internal Server Error") None.

Definition envWith (reply : FetchReply) : TranslateEnv :=
  mkTranslateEnv (mkGetEnv 100 persisted) reply openaiConfig (plainSet 100).

(** A store with an entry that holds no text, as [set] writes it for a
    response with an empty [translatedText]. *)
Definition emptyEntry : Manager :=
  Cache.set openaiConfig (plainSet 100) emptyManager saveRequest
    (mkResponse [] (str "en") (str "zh")).

(** A batch of three items; the call for the second one fails. *)
Definition threeRequests : list TranslationRequest :=
  [ mkRequest (str "Save") (str "en") (str "zh") None;
    mkRequest (str "Delete") (str "en") (str "zh") None;
    mkRequest (str "Edit") (str "en") (str "zh") None ].

Definition threeEnvs (i : nat) : TranslateEnv :=
  match i with
  | 0%nat => envWith (okReply [0x4fdd; 0x5b58]%N)
  | 1%nat => envWith serverError
  | _ => envWith (okReply [0x7f16; 0x8f91]%N)
  end.

Definition noProvider : AITranslationConfig :=
  mkConfig None (str "sk-test") None None None None.

End TranslatorSpec.

Module GeneratorSpec.
Import Generator.

(** The item is taken to be in the target language already. *)
Definition classified (targetLanguage : jsstring) (item : Item) : Prop :=
  isAlreadyTranslated (text item) targetLanguage = Some true.

(** The items that are tested and not taken to be in the target language:
    those [translateBatchOptimized] sends. *)
Definition toTranslate (targetLanguage : jsstring) (items : list Item)
  : list Item :=
  List.filter
    (fun item =>
       match isAlreadyTranslated (text item) targetLanguage with
       | Some already => negb already
       | None => false
       end)
    items.




(** *** Sample inputs *)

Definition zh : jsstring := str "zh".

Definition helloItem : Item := mkItem (str "greeting") (str "Hello").

(** An item in Chinese under a key that names a member of
    [Object.prototype]. *)
Definition builtinItem : Item := mkItem (str "toString") [0x4f60; 0x597d]%N.

End GeneratorSpec.

Module PageSpec.
Import Page.

(** An element that is not translated: it carries no marker, and when an
    original text is recorded on it, that text is what its first text node
    shows. *)
Definition untranslated (e : Element) : Prop :=
  getAttribute DATA_TRANSLATED e = None
  /\ forall original,
       getAttribute DATA_ORIGINAL_TEXT e = Some original ->
       truthy original = true ->
       List.head (directTextNodes (childNodes e)) = Some original.

(** The elements the service holds, by reference. *)
Definition tracked (s : Service) : list nat :=
  List.map (fun kv => element (snd kv)) (elements s).

(** Nothing is translated: the flag of the service is down and no element
    of the document carries the marker. *)
Definition nothingTranslated (s : Service) (ns : gmap nat Element) : Prop :=
  isTranslated s = false
  /\ map_Forall (fun _ e => getAttribute DATA_TRANSLATED e = None) ns.

(** *** Sample inputs *)

Definition el (name : string) (attrs : obj jsstring) (children : list Child)
  : Element :=
  mkElement true (str name) attrs children.

(** A heading with two text nodes around an element, and a button. *)
Definition sampleNodes : gmap nat Element :=
  list_to_map
    [ (0%nat, el "html" [] [CElem 1]);
      (1%nat, el "body" [] [CElem 2; CElem 4]);
      (2%nat, el "h1" [] [CText (str "Hello "); CElem 3; CText (str "World")]);
      (3%nat, el "b" [] [CText (str "!")]);
      (4%nat, el "button" [(str "class", str "chakra-button primary")]
                [CText (str "Save changes")]) ].

Definition sampleDocument : Document := mkDocument sampleNodes 0 1.

Definition newService : Service := mkService [] [] false (str "zh").

Definition HEADINGS : jsstring := str "h1, h2, h3, h4, h5, h6".

(** The heading as [scanPage] records it, with a translation resolved. *)
Definition heading : PageElement :=
  mkPageElement 2 (str "Hello World") (Some [0x4f60; 0x597d]%N) HEADINGS.

Definition button : PageElement :=
  mkPageElement 4 (str "Save changes") (Some [0x4fdd; 0x5b58]%N)
    (str "button:not(:has(svg))").

(** The service and the sample document after the button has been
    translated and restored. *)
Definition afterRestore : Service * gmap nat Element :=
  restoreAll (scanPage sampleDocument newService)
    (applyTranslation button sampleNodes).

(** The same document once the application has written another text on
    the button. *)
Definition rerendered : gmap nat Element :=
  alter (setChildNodes [CText (str "Saving, please wait")]) 4%nat
    (snd afterRestore).

End PageSpec.

Module HookSpec.
Import Hook PageSpec.

(** The states of the pipeline a window can be found in. *)
Inductive PipelineState :=
| Idle
| Translated (targetLanguage : jsstring).

Definition translatedElements (d : Document) : list nat :=
  querySelectorAll d [Compound [AttrIs DATA_AI_TRANSLATED (str "true")]].

(** The state is [Translated] when a language is persisted and the
    document shows elements translated by the pipeline. *)
Definition pipelineState (w : Window) : PipelineState :=
  match ai_language w with
  | Some lang =>
      if truthy lang && negb (length (translatedElements (document w)) =? 0)%nat
      then Translated lang
      else Idle
  | None => Idle
  end.

(** A document as it is after a load: no element of it is marked. *)
Definition freshlyLoaded (d : Document) : Prop := translatedElements d = [].

(** The selector of [restoreOriginalText]. *)
Definition ORIGINALS : Selector := [Compound [HasAttr DATA_ORIGINAL_TEXT]].

(** The sample document right after a reload, Japanese being persisted. *)
Definition reloaded : Window := mkWindow sampleDocument (Some (str "ja")).

End HookSpec.

Module DynamicSpec.
Import Generator Dynamic HookSpec.

(** The application right after a page load. The items of [localStorage]
    are those the last visit has left; i18next starts in the language of
    the item [language], or in English, with the resources that come with
    the application; the generator has generated nothing and the state of
    the hook is empty. *)
Definition pageLoad (language_item ai_item : option jsstring)
    (bundled : obj (obj Value)) : App :=
  mkApp (mkI18n (or_else language_item (str "en")) bundled) ai_item [] [].




(** *** Sample inputs *)

(** The resources that come with the application, for English. *)
Definition bundled : obj (obj Value) :=
  [ (str "en", [ (str "common.save", Text (str "Save")) ]) ].

(** The answer to the request for the core texts: one text for all. *)
Definition japanese (b : nat) : BatchReply :=
  BatchResponded true
    (Some (List.map (fun _ => Some [0x4fdd; 0x5b58]%N) getCoreTranslations)).

End DynamicSpec.

(** ** Vocabulary of the further properties *)

Module CacheMoreSpec.
Import CacheSpec.

(** The object has no two properties of the same name. *)
Definition distinctKeys {V} (o : obj V) : Prop := NoDup (obj_keys o).

(** [a] is not newer than [b]. *)
Definition older (a b : jsstring * CacheEntry) : Prop :=
  timestamp (snd a) <= timestamp (snd b).

(** One entry more than the bound. *)
Definition overfullCache : TranslationCache :=
  List.map filler (List.seq 0 (S MAX_CACHE_SIZE)).

(** Two entries, the first of which expires at 150. *)
Definition twoEntries : TranslationCache :=
  [ (generateCacheKey saveRequest, mkEntry [0x4fdd; 0x5b58]%N 50 150);
    (generateCacheKey autoRequest, mkEntry [0x4fdd; 0x5b58]%N 60 5000) ].

End CacheMoreSpec.

Module TranslatorMoreSpec.
Import Translator TranslatorSpec.

(** The provider name is none of the four. *)
Definition unsupported (config : AITranslationConfig) : Prop :=
  forall name, provider config = Some name -> ~ In name SUPPORTED_PROVIDERS.

Definition googleConfig : AITranslationConfig :=
  mkConfig (Some (str "google")) (str "key") None None None None.

End TranslatorMoreSpec.

Module GeneratorMoreSpec.
Import Generator GeneratorSpec.

(** The text is written with code units below U+0400 only: Basic Latin,
    Latin-1 and the Latin extensions. *)
Definition latin (s : jsstring) : Prop := Forall (fun c => (c < 0x400)%N) s.




End GeneratorMoreSpec.

Module PageMoreSpec.
Import Page PageSpec.

(** The child elements of an element, in order. *)
Fixpoint childElements (cs : list Child) : list nat :=
  match cs with
  | [] => []
  | CText _ :: r => childElements r
  | CElem j :: r => j :: childElements r
  end.

(** The entry is one [scanPage] makes of the document: the element is the
    match of number [index] of one of the selectors, it shows a text and
    is not to be skipped; key, text and selector are recorded from them. *)
Definition recorded (d : Document) (kv : jsstring * PageElement) : Prop :=
  exists sel index,
    let id := element (snd kv) in
    let text := getElementText (nodes d) id in
    In sel selectors
    /\ querySelectorAll d (snd sel) !! index = Some id
    /\ kv = (uniqueKey (fst sel) index text,
             mkPageElement id text None (fst sel))
    /\ truthy text = true
    /\ shouldSkipElement (nodes d) id = false.

(** [a] is a prefix of [b]. *)
Fixpoint prefixb (a b : jsstring) : bool :=
  match a, b with
  | [], _ => true
  | _ :: _, [] => false
  | c :: a', d :: b' => (c =? d)%N && prefixb a' b'
  end.

(** The element carries the marker of a translated element. *)
Definition marked (e : Element) : bool :=
  bool_decide (getAttribute DATA_TRANSLATED e = Some (str "true")).

(** The third test of [shouldSkipElement]: a short text with a digit or a
    punctuation sign. *)
Definition shortSpecialText (ns : gmap nat Element) (id : nat) : bool :=
  let text := getElementText ns id in
  existsb (fun c => bool_decide (c ∈ special)) text && (length text <? 10)%nat.

(** A form with a text area that holds a default text. *)
Definition formNodes : gmap nat Element :=
  list_to_map
    [ (0%nat, el "html" [] [CElem 1]);
      (1%nat, el "body" [] [CElem 2]);
      (2%nat, el "textarea" [(str "class", str "form-label")]
                [CText (str "Describe the item")]) ].

(** The sample document with the translation of the button applied. *)
Definition translatedDocument : Document :=
  mkDocument (applyTranslation button sampleNodes) 0 1.

(** *** The vocabulary of [translateAll] *)

(** The entry is the one the map held, with a text on it. *)
Definition resolved (kv kv' : jsstring * PageElement) : Prop :=
  fst kv' = fst kv /\ exists t, snd kv' = withTranslated t (snd kv).

(** No call gets a response. *)
Definition backendDown (replies : nat -> TranslateReply) : Prop :=
  forall n, replies n = TranslateRejected.

(** The text the entry gets when no call gets a response. *)
Definition degraded (c : obj jsstring) (language : jsstring)
    (kv : jsstring * PageElement) : jsstring * PageElement :=
  (fst kv,
   withTranslated
     (match cached c language (snd kv) with
      | Some t => t
      | None => originalText (snd kv)
      end)
     (snd kv)).

(** The service after a scan of the sample document, two of its texts
    being cached. *)
Definition scanned : Service := scanPage sampleDocument newService.

Definition warmCache : obj jsstring :=
  [ (str "Save changes-zh", [0x4fdd; 0x5b58]%N) ].

Definition warmService : Service :=
  mkService (elements scanned) warmCache false (str "zh").

(** The first entry of the scan: the button. *)
Definition buttonEntry : jsstring * PageElement :=
  (uniqueKey (str "button:not(:has(svg))") 0 (str "Save changes"),
   mkPageElement 4 (str "Save changes") None (str "button:not(:has(svg))")).

Definition allRejected (n : nat) : TranslateReply := TranslateRejected.

(** Every call gets the same response. *)
Definition allSaved (n : nat) : TranslateReply :=
  TranslateResolved [0x4fdd; 0x5b58]%N.

Definition inOrder (b : nat) : list nat := [0; 1; 2; 3; 4]%nat.

End PageMoreSpec.

Module HookMoreSpec.
Import Hook Switcher PageSpec HookSpec.

(** The element as the restoration of the hook and of the switcher leaves
    it: the original text as its only child, and neither the record nor
    the marker. *)
Definition restoredTo (original : jsstring) (e e' : Element) : Prop :=
  childNodes e' = [CText original]
  /\ getAttribute DATA_ORIGINAL_TEXT e' = None
  /\ getAttribute DATA_AI_TRANSLATED e' = None
  /\ forall name,
       name <> DATA_ORIGINAL_TEXT -> name <> DATA_AI_TRANSLATED ->
       getAttribute name e' = getAttribute name e.

(** The element has the text nodes it had, its name and, but for [style],
    its attributes. *)
Definition sameTexts (e e' : Element) : Prop :=
  directTextNodes (childNodes e') = directTextNodes (childNodes e)
  /\ localName e' = localName e
  /\ forall name,
       name <> str "style" -> getAttribute name e' = getAttribute name e.

(** The sample document after the switcher has translated its heading. *)
Definition switchedNodes : gmap nat Element :=
  alter (applyOne (str "Hello !World") [0x4f60; 0x597d]%N) 2%nat sampleNodes.

Definition switchedDocument : Document := mkDocument switchedNodes 0 1.

End HookMoreSpec.
(** * Properties *)

(** ** Strings *)

Module JsFacts.

(** The units from 33 to 159 are not white space. *)
Lemma is_ws_graphic c : (33 <= c <= 159)%N -> is_ws c = false.
Proof.
  intros [H1 H2]. unfold is_ws.
  replace (c <=? 13)%N with false by (symmetry; apply N.leb_gt; lia).
  replace (8192 <=? c)%N with false by (symmetry; apply N.leb_gt; lia).
  repeat match goal with
         | |- context [(c =? ?b)%N] =>
             replace (c =? b)%N with false by (symmetry; apply N.eqb_neq; lia)
         end.
  now rewrite andb_false_r.
Qed.

(** A line of the table of lower-case mappings that lies outside of
    [a .. b]. *)
Lemma lowerIn_unmapped table a b c :
  forallb (fun e =>
             match e with
             | Shift lo hi _ | Alt lo hi => (hi <? a) || (b <? lo)
             | Full c0 _ => (c0 <? a) || (b <? c0)
             end%N) table = true ->
  (a <= c <= b)%N -> lowerIn table c = [c].
Proof.
  intros Htable [Ha Hb].
  induction table as [| e table IH]; [reflexivity |].
  cbn [forallb] in Htable. apply andb_true_iff in Htable as [He Htable].
  specialize (IH Htable).
  destruct e as [lo hi target | lo hi | c0 l]; cbn [lowerIn];
    apply orb_true_iff in He; rewrite !N.ltb_lt in He.
  - destruct (N.ltb_spec c lo); [reflexivity |].
    destruct (N.leb_spec c hi); [lia | exact IH].
  - destruct (N.ltb_spec c lo); [reflexivity |].
    destruct (N.leb_spec c hi); [lia | exact IH].
  - destruct (N.ltb_spec c c0); [reflexivity |].
    destruct (N.eqb_spec c c0); [lia | exact IH].
Qed.

Lemma LOWER_skips_ideographs :
  forallb (fun e =>
             match e with
             | Shift lo hi _ | Alt lo hi => (hi <? 0x4e00) || (0x5800 <? lo)
             | Full c0 _ => (c0 <? 0x4e00) || (0x5800 <? c0)
             end%N) LOWER = true.
Proof. vm_compute. reflexivity. Qed.

(** The lower case of letters outside of Basic Latin, of U+0130, of a
    letter of a supplementary plane, and of the capital sigma at the end
    of a word and inside of it. *)
Example toLowerCase_samples :
  toLowerCase [0xc9; 0x43; 0x4f; 0x4c; 0x45]%N = [0xe9; 0x63; 0x6f; 0x6c; 0x65]%N
  /\ toLowerCase [0x130]%N = [0x69; 0x307]%N
  /\ toLowerCase [0xd801; 0xdc00]%N = [0xd801; 0xdc28]%N
  /\ toLowerCase [0x39f; 0x394; 0x39f; 0x3a3]%N = [0x3bf; 0x3b4; 0x3bf; 0x3c2]%N
  /\ toLowerCase [0x3a3; 0x39f; 0x3a3]%N = [0x3c3; 0x3bf; 0x3c2]%N
  /\ toLowerCase CacheSpec.sigmaRun = [0x61; 0x3c3; 0xfeff; 0x62]%N
  /\ toLowerCase CacheSpec.sigmaUnderscore = [0x61; 0x3c2; 0x5f; 0x62]%N.
Proof. vm_compute. repeat split; reflexivity. Qed.

(** The ideographs from U+4E00 to U+5800 have no case. *)
Lemma toLowerCase_ideograph c :
  (0x4e00 <= c <= 0x5800)%N -> toLowerCase [c] = [c].
Proof.
  intros Hc. unfold toLowerCase. cbn [codePoints lowerFrom].
  replace (c =? CAPITAL_SIGMA)%N with false
    by (symmetry; apply N.eqb_neq; unfold CAPITAL_SIGMA; lia).
  rewrite (lowerIn_unmapped LOWER 0x4e00 0x5800 c LOWER_skips_ideographs Hc).
  cbn [app List.flat_map]. unfold codeUnits.
  replace (c <? 0x10000)%N with true by (symmetry; apply N.ltb_lt; lia).
  reflexivity.
Qed.

(** [trimStart] over a concatenation. *)
Lemma trimStart_app s t :
  trimStart (s ++ t) = if forallb is_ws s then trimStart t else trimStart s ++ t.
Proof.
  induction s as [| c s IH]; simpl; [reflexivity |].
  destruct (is_ws c); simpl; [exact IH | reflexivity].
Qed.


Lemma trimStart_all_ws s : forallb is_ws s = true -> trimStart s = [].
Proof.
  induction s as [| c s IH]; simpl; [reflexivity |].
  destruct (is_ws c); simpl; [exact IH | discriminate].
Qed.

Lemma forallb_ws_rev s : forallb is_ws (rev s) = forallb is_ws s.
Proof.
  induction s as [| c s IH]; simpl; [reflexivity |].
  rewrite forallb_app, IH. simpl. rewrite andb_true_r. apply andb_comm.
Qed.

Lemma trimEnd_app s t :
  trimEnd (s ++ t) = if forallb is_ws t then trimEnd s else s ++ trimEnd t.
Proof.
  unfold trimEnd. rewrite rev_app_distr, trimStart_app, forallb_ws_rev.
  destruct (forallb is_ws t); [reflexivity |].
  now rewrite rev_app_distr, rev_involutive.
Qed.

Lemma trimEnd_all_ws s : forallb is_ws s = true -> trimEnd s = [].
Proof.
  intros H. unfold trimEnd. rewrite trimStart_all_ws; [reflexivity |].
  now rewrite forallb_ws_rev.
Qed.

Lemma trimEnd_cons c s : is_ws c = false -> trimEnd (c :: s) = c :: trimEnd s.
Proof.
  intros Hc. change (c :: s) with ([c] ++ s). rewrite trimEnd_app.
  destruct (forallb is_ws s) eqn:E.
  - rewrite (trimEnd_all_ws s E). unfold trimEnd. simpl. now rewrite Hc.
  - reflexivity.
Qed.

(** A trimmed string starts with no white space. *)
Lemma trimStart_fixed s :
  match s with c :: _ => is_ws c = false | [] => True end -> trimStart s = s.
Proof. destruct s as [| c s]; simpl; [reflexivity |]. now intros ->. Qed.

Lemma trimStart_head s :
  match trimStart s with c :: _ => is_ws c = false | [] => True end.
Proof.
  induction s as [| c s IH]; simpl; [exact I |].
  destruct (is_ws c) eqn:E; [exact IH | exact E].
Qed.

Lemma trimStart_idem s : trimStart (trimStart s) = trimStart s.
Proof. apply trimStart_fixed, trimStart_head. Qed.

Lemma trimEnd_idem s : trimEnd (trimEnd s) = trimEnd s.
Proof.
  unfold trimEnd. now rewrite rev_involutive, trimStart_idem.
Qed.

Lemma trimEnd_head s :
  match s with c :: _ => is_ws c = false | [] => True end ->
  match trimEnd s with c :: _ => is_ws c = false | [] => True end.
Proof.
  destruct s as [| c s]; [intros _; exact I |].
  intros Hc. now rewrite trimEnd_cons.
Qed.

Lemma trim_idem s : trim (trim s) = trim s.
Proof.
  unfold trim.
  rewrite (trimStart_fixed (trimEnd (trimStart s))).
  - apply trimEnd_idem.
  - apply trimEnd_head, trimStart_head.
Qed.



(** [replace_ws_runs] stops at a unit that is not white space. *)
Lemma replace_ws_runs_split b s c t :
  is_ws c = false ->
  replace_ws_runs b (s ++ c :: t)
  = replace_ws_runs b s ++ c :: replace_ws_runs false t.
Proof.
  intros Hc. revert b.
  induction s as [| d s IH]; intros b; simpl.
  - now rewrite Hc.
  - destruct (is_ws d); [destruct b |]; simpl; now rewrite IH.
Qed.


End JsFacts.

(** ** The lower case around white space *)

Module LowerFacts.
Import JsFacts LowerSpec.









(** *** Code points *)








(** *** The letters around a sigma *)





(** *** The lower case of code points *)
















(** *** The lower case of a text around white space *)




End LowerFacts.

(** ** Objects *)

Module ObjFacts.

Section WithValues.
Context {V : Type}.
Implicit Types (o : obj V) (k j : jsstring) (v : V).

Lemma obj_get_set_eq k v o : obj_get k (obj_set k v o) = Some v.
Proof.
  induction o as [| [k' v'] o IH]; simpl.
  - now rewrite decide_True.
  - destruct (decide (k = k')) as [-> | Hne]; simpl.
    + now rewrite decide_True.
    + now rewrite decide_False.
Qed.

Lemma obj_get_set_ne k j v o :
  j <> k -> obj_get j (obj_set k v o) = obj_get j o.
Proof.
  intros Hne. induction o as [| [k' v'] o IH]; simpl.
  - now rewrite decide_False.
  - destruct (decide (k = k')) as [<- | Hk]; simpl.
    + now rewrite !decide_False.
    + now rewrite IH.
Qed.

Lemma obj_get_delete_eq k o : obj_get k (obj_delete k o) = None.
Proof.
  induction o as [| [k' v'] o IH]; simpl; [reflexivity |].
  destruct (decide (k = k')) as [-> | Hne]; simpl; [exact IH |].
  now rewrite decide_False.
Qed.

Lemma obj_get_delete_None k j o :
  obj_get k o = None -> obj_get k (obj_delete j o) = None.
Proof.
  induction o as [| [k' v'] o IH]; simpl; [reflexivity |].
  destruct (decide (k = k')) as [-> | Hne]; [discriminate |].
  intros H. destruct (decide (j = k')); simpl; [now apply IH |].
  rewrite decide_False by assumption. now apply IH.
Qed.

Lemma obj_delete_absent k o : obj_get k o = None -> obj_delete k o = o.
Proof.
  induction o as [| [k' v'] o IH]; simpl; [reflexivity |].
  destruct (decide (k = k')); [discriminate |].
  intros H. now rewrite IH.
Qed.

Lemma obj_delete_idem k o : obj_delete k (obj_delete k o) = obj_delete k o.
Proof. apply obj_delete_absent, obj_get_delete_eq. Qed.

Lemma length_obj_set_new k v o :
  obj_get k o = None -> length (obj_set k v o) = S (length o).
Proof.
  induction o as [| [k' v'] o IH]; simpl; [reflexivity |].
  destruct (decide (k = k')); [discriminate |].
  intros H. simpl. now rewrite IH.
Qed.

Lemma length_obj_set_le k v o : (length (obj_set k v o) <= S (length o))%nat.
Proof.
  induction o as [| [k' v'] o IH]; simpl; [lia |].
  destruct (decide (k = k')); simpl; lia.
Qed.

Lemma obj_get_filter_keep (P : jsstring * V -> bool) k v o :
  obj_get k o = Some v -> P (k, v) = true ->
  obj_get k (List.filter P o) = Some v.
Proof.
  intros Hget HP. induction o as [| [k' v'] o IH]; simpl in *; [discriminate |].
  destruct (decide (k = k')) as [<- | Hne].
  - injection Hget as ->. rewrite HP. simpl. now rewrite decide_True.
  - destruct (P (k', v')); simpl; [rewrite decide_False by assumption |];
      now apply IH.
Qed.

Lemma obj_get_filter_None (P : jsstring * V -> bool) k o :
  obj_get k o = None -> obj_get k (List.filter P o) = None.
Proof.
  induction o as [| [k' v'] o IH]; simpl; [reflexivity |].
  destruct (decide (k = k')) as [<- | Hne]; [discriminate |].
  intros H. destruct (P (k', v')); simpl; [rewrite decide_False by assumption |];
    now apply IH.
Qed.

Lemma obj_get_deletes_None k (l : list (jsstring * V)) o :
  obj_get k o = None ->
  obj_get k (List.fold_left (fun acc kv => obj_delete (fst kv) acc) l o) = None.
Proof.
  revert o. induction l as [| x l IH]; simpl; intros o H; [exact H |].
  apply IH. now apply obj_get_delete_None.
Qed.

(** A value read from an object is one of its properties. *)
Lemma obj_get_In k v o : obj_get k o = Some v -> In (k, v) o.
Proof.
  induction o as [| [k' v'] o IH]; simpl; [discriminate |].
  destruct (decide (k = k')) as [-> | Hne].
  - intros [= ->]. now left.
  - intros H. right. now apply IH.
Qed.
End WithValues.

(** A property of all the own properties survives the updates. *)
Section Invariant.
Context {V : Type} (P : jsstring * V -> Prop).

Lemma Forall_obj_delete k (o : obj V) : Forall P o -> Forall P (obj_delete k o).
Proof.
  induction 1 as [| [k' v'] o Hx _ IH]; simpl; [constructor |].
  destruct (decide (k = k')); [exact IH | now constructor].
Qed.

Lemma Forall_obj_set k v (o : obj V) :
  P (k, v) -> Forall P o -> Forall P (obj_set k v o).
Proof.
  intros Hkv. induction 1 as [| [k' v'] o Hx Ho IH]; simpl.
  - now repeat constructor.
  - destruct (decide (k = k')); now constructor.
Qed.

Lemma Forall_obj_deletes (l : list (jsstring * V)) (o : obj V) :
  Forall P o ->
  Forall P (List.fold_left (fun acc kv => obj_delete (fst kv) acc) l o).
Proof.
  revert o. induction l as [| x l IH]; simpl; intros o H; [exact H |].
  apply IH. now apply Forall_obj_delete.
Qed.

Lemma Forall_list_filter (f : jsstring * V -> bool) (o : obj V) :
  Forall P o -> Forall P (List.filter f o).
Proof.
  induction 1 as [| x o Hx _ IH]; simpl; [constructor |].
  destruct (f x); [now constructor | exact IH].
Qed.
End Invariant.

End ObjFacts.

(** ** Translation cache *)

Module CacheFacts.
Import JsFacts LowerSpec LowerFacts ObjFacts CacheSpec.

Lemma cleanupOldEntries_small c :
  (length c <= MAX_CACHE_SIZE)%nat -> cleanupOldEntries c = c.
Proof.
  intros H. unfold cleanupOldEntries.
  destruct (Nat.ltb_spec MAX_CACHE_SIZE (length c)); [lia | reflexivity].
Qed.

Lemma cleanupOldEntries_None k c :
  obj_get k c = None -> obj_get k (cleanupOldEntries c) = None.
Proof.
  intros H. unfold cleanupOldEntries.
  destruct (MAX_CACHE_SIZE <? length c)%nat; [| exact H].
  now apply obj_get_deletes_None.
Qed.

Lemma saveCache_None w m k :
  obj_get k (cache m) = None -> obj_get k (cache (saveCache w m)) = None.
Proof.
  intros H. unfold saveCache.
  destruct (save_ok w); simpl; [exact H |].
  destruct (retry_ok w); simpl; now apply cleanupOldEntries_None.
Qed.

(** [saveCache] leaves the entries alone when the first write goes
    through or the object is within the bound. *)
Lemma saveCache_cache w m :
  save_ok w = true \/ (length (cache m) <= MAX_CACHE_SIZE)%nat ->
  cache (saveCache w m) = cache m.
Proof.
  intros H. unfold saveCache.
  destruct (save_ok w) eqn:E; simpl; [reflexivity |].
  destruct H as [H | H]; [discriminate |].
  destruct (retry_ok w); simpl; now apply cleanupOldEntries_small.
Qed.

Lemma set_lookup config w m request response :
  kept w m ->
  set_cleanup_now w <= set_now w + expiration config ->
  obj_get (generateCacheKey request) (cache (set config w m request response))
  = Some (written config w response).
Proof.
  intros Hkept Htime. unfold set.
  set (key := generateCacheKey request).
  set (c1 := obj_set key _ (cache m)).
  assert (L1 : (length c1 <= S (length (cache m)))%nat)
    by apply length_obj_set_le.
  assert (G1 : obj_get key c1 = Some (written config w response))
    by apply obj_get_set_eq.
  set (c2 := if set_random w
             then cleanupExpiredEntries (set_cleanup_now w) c1 else c1).
  assert (L2 : (length c2 <= length c1)%nat).
  { subst c2. destruct (set_random w); [| lia].
    unfold cleanupExpiredEntries. apply List.filter_length_le. }
  assert (G2 : obj_get key c2 = Some (written config w response)).
  { subst c2. destruct (set_random w); [| exact G1].
    unfold cleanupExpiredEntries. apply obj_get_filter_keep; [exact G1 |].
    simpl. apply negb_true_iff, Z.ltb_ge. exact Htime. }
  rewrite saveCache_cache; [exact G2 |]. simpl.
  destruct Hkept as [H | H]; [now left | right; lia].
Qed.

Lemma get_hit w m request e :
  obj_get (generateCacheKey request) (cache m) = Some e ->
  get_now w <= expiresAt e ->
  get w m request
  = (m, Some (mkResponse (entryText e) (from request) (to request))).
Proof.
  intros Hget Htime. unfold get. rewrite Hget.
  destruct (Z.ltb_spec (expiresAt e) (get_now w)); [lia | reflexivity].
Qed.

Lemma get_expired w m request e :
  obj_get (generateCacheKey request) (cache m) = Some e ->
  expiresAt e < get_now w ->
  snd (get w m request) = None
  /\ obj_get (generateCacheKey request) (cache (fst (get w m request))) = None.
Proof.
  intros Hget Htime. unfold get. rewrite Hget.
  destruct (Z.ltb_spec (expiresAt e) (get_now w)); [| lia].
  simpl. split; [reflexivity |].
  apply saveCache_None. simpl. apply obj_get_delete_eq.
Qed.

Lemma get_miss w m request :
  obj_get (generateCacheKey request) (cache m) = None ->
  get w m request = (m, None).
Proof. intros H. unfold get. now rewrite H. Qed.

(** *** The key *)







(** A write under a new key that is persisted at once adds one entry,
    whatever the number of entries: [set] does not look at the bound. *)
Lemma set_new_key_grows config w m request response :
  obj_get (generateCacheKey request) (cache m) = None ->
  set_random w = false -> save_ok (set_save w) = true ->
  length (cache (set config w m request response)) = S (length (cache m)).
Proof.
  intros Hnew Hrnd Hok. unfold set. rewrite Hrnd.
  rewrite saveCache_cache by now left.
  simpl. now apply length_obj_set_new.
Qed.

(** C2, on the code: a store that holds [MAX_CACHE_SIZE] = 1000 entries
    and receives one more [set] under a new key, persisted at the first
    attempt, holds 1001 entries afterwards, the new one among them: [set]
    reaches the eviction of the oldest entries only when the write to
    [localStorage] throws, and then 900 entries are left. *)
Theorem C2_set_on_full_cache_exceeds_bound :
  length fullCache = MAX_CACHE_SIZE
  /\ obj_get (generateCacheKey saveRequest) fullCache = None
  /\ (let m1 := set openaiConfig (plainSet 5000)
                  (mkManager fullCache (Some fullCache)) saveRequest saveResponse in
      length (cache m1) = S MAX_CACHE_SIZE
      /\ obj_get (generateCacheKey saveRequest) (cache m1)
         = Some (written openaiConfig (plainSet 5000) saveResponse))
  /\ (let m2 := set openaiConfig (mkSetEnv 5000 false 5000 (mkSaveEnv false true))
                  (mkManager fullCache (Some fullCache)) saveRequest saveResponse in
      length (cache m2) = 900%nat
      /\ obj_get (generateCacheKey saveRequest) (cache m2)
         = Some (written openaiConfig (plainSet 5000) saveResponse)).
Proof. vm_compute. repeat split; reflexivity. Qed.

(** C4, as the code has it: after [set(request, response)] that is kept
    (persisted at the first attempt, or into a store below the bound) and
    not yet expired when [set] runs its own cleanup, [get(request)] returns,
    until [expiresAt] passes, the stored [translatedText] with the languages
    of the request, and leaves the store as it is; once [expiresAt] has
    passed, [get] returns nothing and the key is no longer in the store. *)
Theorem C4_cache_round_trip config ws wg m request response :
  kept ws m ->
  set_cleanup_now ws <= set_now ws + expiration config ->
  let m1 := set config ws m request response in
  (get_now wg <= set_now ws + expiration config ->
   get wg m1 request
   = (m1, Some (mkResponse (translatedText response) (from request) (to request))))
  /\ (set_now ws + expiration config < get_now wg ->
      snd (get wg m1 request) = None
      /\ obj_get (generateCacheKey request) (cache (fst (get wg m1 request)))
         = None).
Proof.
  intros Hkept Htime m1.
  pose proof (set_lookup config ws m request response Hkept Htime) as Hlook.
  fold m1 in Hlook. split; intros Hnow.
  - now rewrite (get_hit wg m1 request _ Hlook).
  - now apply (get_expired wg m1 request _ Hlook).
Qed.

Lemma C4_cache_round_trip_witness :
  get (mkGetEnv 200 persisted)
    (set openaiConfig (plainSet 100) emptyManager saveRequest saveResponse)
    saveRequest
  = (set openaiConfig (plainSet 100) emptyManager saveRequest saveResponse,
     Some saveResponse)
  /\ snd (get (mkGetEnv (100 + DEFAULT_EXPIRATION + 1) persisted)
            (set openaiConfig (plainSet 100) emptyManager saveRequest saveResponse)
            saveRequest) = None.
Proof.
  assert (K : kept (plainSet 100) emptyManager) by (left; reflexivity).
  assert (T : set_cleanup_now (plainSet 100)
              <= set_now (plainSet 100) + expiration openaiConfig)
    by (vm_compute; discriminate).
  split.
  - apply (C4_cache_round_trip openaiConfig (plainSet 100)
             (mkGetEnv 200 persisted) emptyManager saveRequest saveResponse K T).
    vm_compute. discriminate.
  - apply (C4_cache_round_trip openaiConfig (plainSet 100)
             (mkGetEnv (100 + DEFAULT_EXPIRATION + 1) persisted) emptyManager
             saveRequest saveResponse K T).
    vm_compute. reflexivity.
Defined.

(** C4 as stated fails: the entry keeps the text only, and [get] answers
    with the languages of the request. A response that names the language
    found for a request in the language [auto] does not come back. *)
Lemma C4_counterexample :
  let m1 := set openaiConfig (plainSet 100) emptyManager autoRequest saveResponse in
  snd (get (mkGetEnv 200 persisted) m1 autoRequest)
  = Some (mkResponse (translatedText saveResponse) (str "auto") (str "zh"))
  /\ snd (get (mkGetEnv 200 persisted) m1 autoRequest) <> Some saveResponse.
Proof. vm_compute. split; [reflexivity | discriminate]. Qed.



(** The pairs of texts the design names, and two pairs of letters outside
    of Basic Latin. *)
Example generateCacheKey_samples :
  let key (s : jsstring) :=
    generateCacheKey (mkRequest s (str "en") (str "zh") None) in
  key (str "Save") = key (str "save")
  /\ key (str "a b") = key (str "a_b")
  /\ key (str "a b") = str "en-zh-a_b-"
  /\ key [0xc9; 0x43; 0x4f; 0x4c; 0x45]%N = key [0xe9; 0x63; 0x6f; 0x6c; 0x65]%N
  /\ key [0x416; 0x423; 0x41a]%N = key [0x436; 0x443; 0x43a]%N.
Proof. vm_compute. repeat split; reflexivity. Qed.


End CacheFacts.

(** ** Translator facade *)

Module TranslatorFacts.
Import Translator ObjFacts CacheSpec CacheFacts TranslatorSpec.

Lemma readReply_ok api trimmed request reply r :
  readReply api trimmed request reply = inr r ->
  translatedText r <> []
  /\ sourceLanguage r = from request /\ targetLanguage r = to request.
Proof.
  unfold readReply.
  destruct reply as [| ok status statusText data]; [discriminate |].
  destruct ok; simpl; [| discriminate].
  destruct data as [[s |] |]; try discriminate.
  destruct (truthy (if trimmed then trim s else s)) eqn:E; [| discriminate].
  intros [= <-]. simpl. repeat split.
  intros H. rewrite H in E. discriminate.
Qed.

Lemma performTranslation_ok config request reply issued r :
  performTranslation config request reply = (issued, inr r) ->
  translatedText r <> []
  /\ sourceLanguage r = from request /\ targetLanguage r = to request.
Proof.
  unfold performTranslation.
  repeat case_decide; simpl; intros [= _ Hread]; try discriminate;
    now apply readReply_ok in Hread.
Qed.

Lemma get_some w m request m1 r :
  Cache.get w m request = (m1, Some r) ->
  m1 = m
  /\ sourceLanguage r = from request /\ targetLanguage r = to request
  /\ (entries_nonempty m -> translatedText r <> []).
Proof.
  unfold Cache.get.
  destruct (obj_get (generateCacheKey request) (cache m)) as [e |] eqn:E;
    [| discriminate].
  destruct (expiresAt e <? get_now w); [discriminate |].
  intros [= -> <-]. simpl. repeat split.
  intros Hinv. apply obj_get_In in E.
  unfold entries_nonempty in Hinv. rewrite List.Forall_forall in Hinv.
  exact (Hinv _ E).
Qed.

(** *** The entries stay non-empty *)

Lemma saveCache_nonempty w m :
  entries_nonempty m -> entries_nonempty (saveCache w m).
Proof.
  unfold entries_nonempty, saveCache. intros H.
  destruct (save_ok w); simpl; [exact H |].
  assert (G : Forall (fun kv => entryText (snd kv) <> [])
                (cleanupOldEntries (cache m))).
  { unfold cleanupOldEntries.
    destruct (MAX_CACHE_SIZE <? length (cache m))%nat; [| exact H].
    now apply Forall_obj_deletes. }
  now destruct (retry_ok w).
Qed.

Lemma get_nonempty w m request :
  entries_nonempty m -> entries_nonempty (fst (Cache.get w m request)).
Proof.
  intros H. unfold Cache.get.
  destruct (obj_get (generateCacheKey request) (cache m)) as [e |];
    [| exact H].
  destruct (expiresAt e <? get_now w); [| exact H].
  simpl. apply saveCache_nonempty. unfold entries_nonempty. simpl.
  now apply Forall_obj_delete.
Qed.

Lemma set_nonempty config w m request response :
  translatedText response <> [] ->
  entries_nonempty m ->
  entries_nonempty (Cache.set config w m request response).
Proof.
  intros Hr H. unfold Cache.set. apply saveCache_nonempty.
  unfold entries_nonempty. simpl.
  assert (G : Forall (fun kv : jsstring * CacheEntry => entryText (snd kv) <> [])
                (obj_set (generateCacheKey request)
                   (mkEntry (translatedText response) (set_now w)
                      (set_now w + expiration config)) (cache m)))
    by now apply Forall_obj_set.
  destruct (set_random w); [| exact G].
  unfold cleanupExpiredEntries. now apply Forall_list_filter.
Qed.

(** *** [translate] *)

Lemma translate_inr config w m request r :
  value (translate config w m request) = inr r ->
  sourceLanguage r = from request /\ targetLanguage r = to request
  /\ (entries_nonempty m -> translatedText r <> []).
Proof.
  unfold translate.
  destruct (Cache.get (t_get w) m request) as [m1 [cached |]] eqn:G.
  - simpl. intros [= <-]. apply get_some in G. tauto.
  - destruct (performTranslation config request (t_reply w))
      as [issued [e | response]] eqn:E; simpl; [discriminate |].
    intros [= <-]. apply performTranslation_ok in E. tauto.
Qed.

Lemma translate_nonempty config w m request :
  entries_nonempty m -> entries_nonempty (manager (translate config w m request)).
Proof.
  intros H. unfold translate.
  pose proof (get_nonempty (t_get w) m request H) as H1.
  destruct (Cache.get (t_get w) m request) as [m1 [cached |]]; simpl in *;
    [exact H1 |].
  destruct (performTranslation config request (t_reply w))
    as [issued [e | response]] eqn:E; simpl; [exact H1 |].
  apply performTranslation_ok in E. apply set_nonempty; tauto.
Qed.

Lemma translateBatch_nonempty config ws i0 m requests :
  entries_nonempty m ->
  entries_nonempty (manager (translateBatch config ws i0 m requests)).
Proof.
  revert i0 m. induction requests as [| request rest IH]; intros i0 m H; simpl.
  - exact H.
  - apply IH. now apply translate_nonempty.
Qed.

Lemma emptyManager_nonempty : entries_nonempty emptyManager.
Proof. constructor. Qed.

(** The same request twice: the second call is served by the cache and
    issues no call. *)
Example translate_twice_hits_cache :
  let first :=
    translate openaiConfig (envWith (okReply [0x4fdd; 0x5b58]%N)) emptyManager
      saveRequest in
  let second :=
    translate openaiConfig (envWith Rejected) (manager first) saveRequest in
  length (calls first) = 1%nat
  /\ calls second = []
  /\ value second = value first.
Proof. vm_compute. repeat split; reflexivity. Qed.

(** C1, with its condition: [translateBatch] returns one result per
    request, in the order of the requests, each with the languages of its
    request; where the call of [translate] for an item throws, the result
    is the text of the request itself under the languages of the request,
    and the items after it are still served; where it returns, the result
    is what it returned. When every entry of the cache holds a text that
    is not empty, this is still so after the batch, and a request with a
    text that is not empty gets a text that is not empty. *)
Theorem C1_translateBatch_degrades config ws i0 m requests :
  let o := translateBatch config ws i0 m requests in
  length (value o) = length requests
  /\ (forall (i : nat) (request : TranslationRequest),
        requests !! i = Some request ->
        exists result,
          value o !! i = Some result
          /\ sourceLanguage result = from request
          /\ targetLanguage result = to request
          /\ (let attempt :=
                translate config (ws (i0 + i)%nat)
                  (stateBefore config ws i0 m requests i) request in
              (forall e, value attempt = inl e ->
                 result = mkResponse (text request) (from request) (to request))
              /\ (forall r, value attempt = inr r -> result = r))
          /\ (entries_nonempty m -> text request <> [] ->
              translatedText result <> []))
  /\ (entries_nonempty m -> entries_nonempty (manager o)).
Proof.
  cbv zeta. split; [| split]; [| | apply translateBatch_nonempty].
  - revert i0 m.
    induction requests as [| request0 rest IH]; intros i0 m; simpl;
      [reflexivity | now rewrite IH].
  - revert i0 m.
    induction requests as [| request0 rest IH]; intros i0 m; simpl.
    + intros i request H. discriminate.
    + pose proof (IH (S i0) (manager (translate config (ws i0) m request0)))
        as Hitems.
      intros [| i] request Hi; simpl in Hi.
      * injection Hi as <-.
        unfold stateBefore. simpl. rewrite Nat.add_0_r.
        destruct (value (translate config (ws i0) m request0)) as [e | r] eqn:E.
        -- exists (mkResponse (text request0) (from request0) (to request0)).
           simpl.
           repeat split; try reflexivity; try discriminate; auto.
        -- exists r. simpl. apply translate_inr in E as (Hs & Ht & Hne).
           repeat split; auto; try discriminate. now intros r' [= <-].
      * destruct (Hitems i request Hi) as (result & Hres & Hs & Ht & Hatt & Hne).
        exists result. simpl.
        unfold stateBefore in *. simpl.
        rewrite Nat.add_succ_r. repeat split; auto; try apply Hatt.
        intros Hinv. apply Hne. now apply translate_nonempty.
Qed.

Lemma C1_translateBatch_witness :
  exists result,
    value (translateBatch openaiConfig threeEnvs 0 emptyManager threeRequests)
      !! 1%nat = Some result
    /\ result = mkResponse (str "Delete") (str "en") (str "zh")
    /\ translatedText result <> [].
Proof.
  destruct (C1_translateBatch_degrades openaiConfig threeEnvs 0 emptyManager
              threeRequests) as (_ & H & _).
  destruct (H 1%nat (mkRequest (str "Delete") (str "en") (str "zh") None) eq_refl)
    as (result & Hres & _ & _ & [Hfail _] & Hne).
  exists result. split; [exact Hres |]. split.
  - apply (Hfail (TranslationFailed
                    (ApiError (str "OpenAI") 500 (str "Internal Server Error")))).
    vm_compute. reflexivity.
  - apply Hne; [constructor | discriminate].
Defined.

(** C1 as stated fails in its last part: [get] hands out what the store
    holds. With an entry without text under the key of [Save], which [set]
    writes for a response with an empty [translatedText], the batch
    answers the request [Save] with the empty text and issues no call. *)
Lemma C1_counterexample :
  let o := translateBatch openaiConfig threeEnvs 0 emptyEntry [saveRequest] in
  text saveRequest <> []
  /\ calls o = []
  /\ value o = [mkResponse [] (str "en") (str "zh")].
Proof. vm_compute. split; [discriminate | split; reflexivity]. Qed.

(** C7: with a provider name that is none of the four (and so with no
    name at all) [performTranslation] throws the error that names the
    provider and issues no call, and so does [translate] whenever the cache
    has nothing for the request; with one of the four names the call is
    the one of the backend of that name. *)
Theorem C7_provider_selection config request reply :
  ((forall name, provider config = Some name -> ~ In name SUPPORTED_PROVIDERS) ->
   performTranslation config request reply
   = ([], inl (UnsupportedProvider (provider config)))
   /\ forall w m,
        snd (Cache.get (t_get w) m request) = None ->
        calls (translate config w m request) = []
        /\ value (translate config w m request)
           = inl (TranslationFailed (UnsupportedProvider (provider config))))
  /\ (provider config = Some (str "openai") ->
      performTranslation config request reply
      = ([fst (translateWithOpenAI config request reply)],
         snd (translateWithOpenAI config request reply)))
  /\ (provider config = Some (str "claude") ->
      performTranslation config request reply
      = ([fst (translateWithClaude config request reply)],
         snd (translateWithClaude config request reply)))
  /\ (provider config = Some (str "google") ->
      performTranslation config request reply
      = ([fst (translateWithGoogle config request reply)],
         snd (translateWithGoogle config request reply)))
  /\ (provider config = Some (str "deepl") ->
      performTranslation config request reply
      = ([fst (translateWithDeepL config request reply)],
         snd (translateWithDeepL config request reply))).
Proof.
  assert (U : (forall name, provider config = Some name ->
                 ~ In name SUPPORTED_PROVIDERS) ->
              forall reply', performTranslation config request reply'
              = ([], inl (UnsupportedProvider (provider config)))).
  { intros Hnot reply'. unfold performTranslation.
    repeat case_decide; try reflexivity; exfalso;
      match goal with
      | H : provider config = Some ?n |- _ => apply (Hnot n H)
      end; simpl; tauto. }
  split; [| repeat split; intros Hp; unfold performTranslation; rewrite Hp;
            reflexivity].
  intros Hnot. split; [now apply U |].
  intros w m Hmiss. unfold translate.
  destruct (Cache.get (t_get w) m request) as [m1 [cached |]];
    [discriminate |].
  now rewrite (U Hnot).
Qed.

Lemma C7_provider_selection_witness :
  performTranslation noProvider saveRequest (okReply (str "x"))
  = ([], inl (UnsupportedProvider None))
  /\ performTranslation openaiConfig saveRequest (okReply (str "x"))
     = ([fst (translateWithOpenAI openaiConfig saveRequest (okReply (str "x")))],
        snd (translateWithOpenAI openaiConfig saveRequest (okReply (str "x")))).
Proof.
  split.
  - apply (C7_provider_selection noProvider saveRequest (okReply (str "x"))).
    intros name H. discriminate.
  - apply (C7_provider_selection openaiConfig saveRequest (okReply (str "x"))).
    reflexivity.
Defined.

End TranslatorFacts.

(** ** Optimized batch generator *)

Module GeneratorFacts.
Import Generator ObjFacts GeneratorSpec.





(** *** Look-ups in object literals *)

Lemma member_own {V} (k : jsstring) (o : obj V) v :
  obj_get k o = Some v -> member k o = Own v.
Proof. intros H. unfold member. now rewrite H. Qed.

Lemma member_inherited {V} (k : jsstring) (o : obj V) :
  obj_get k o = None -> k ∈ OBJECT_PROTOTYPE -> member k o = Inherited.
Proof.
  intros H Hin. unfold member. rewrite H.
  destruct (decide (k ∈ OBJECT_PROTOTYPE)); [reflexivity | contradiction].
Qed.

Lemma member_missing {V} (k : jsstring) (o : obj V) :
  obj_get k o = None -> k ∉ OBJECT_PROTOTYPE -> member k o = Missing.
Proof.
  intros H Hin. unfold member. rewrite H.
  destruct (decide (k ∈ OBJECT_PROTOTYPE)); [contradiction | reflexivity].
Qed.

(** No language of [patterns] has the name of a member of
    [Object.prototype]. *)
Lemma patterns_builtin lang :
  lang ∈ OBJECT_PROTOTYPE -> member lang patterns = Inherited.
Proof.
  intros Hin. apply member_inherited; [| exact Hin].
  unfold OBJECT_PROTOTYPE in Hin.
  repeat (apply elem_of_cons in Hin as [-> | Hin]; [reflexivity |]).
  now apply elem_of_nil in Hin.
Qed.

(** The test throws for the languages named like a member of
    [Object.prototype], and for no other. *)
Lemma isAlreadyTranslated_throws s lang :
  isAlreadyTranslated s lang = None <-> lang ∈ OBJECT_PROTOTYPE.
Proof.
  unfold isAlreadyTranslated. split.
  - unfold member. destruct (obj_get lang patterns); [discriminate |].
    destruct (decide (lang ∈ OBJECT_PROTOTYPE)); [auto | discriminate].
  - intros Hin. now rewrite (patterns_builtin lang Hin).
Qed.

Lemma classified_tested lang item s :
  classified lang item -> isAlreadyTranslated s lang <> None.
Proof.
  unfold classified. intros Hc Hs.
  apply isAlreadyTranslated_throws in Hs.
  apply (isAlreadyTranslated_throws (text item)) in Hs. congruence.
Qed.

(** *** The items sent *)











(** The same with a key that names a member of [Object.prototype]: the
    classified item comes back with that member, which is no text, and so
    does it when the answer holds more translations than texts were sent. *)
Example degraded_builtin_key :
  classified zh builtinItem
  /\ snd (translateBatchOptimized zh [builtinItem; helloItem] BatchRejected)
     = [mkTranslated (str "toString") (Builtin (str "toString"));
        mkTranslated (str "greeting") (Text (str "Hello"))]
  /\ snd (translateBatchOptimized zh [builtinItem; helloItem]
            (BatchResponded true (Some [Some (str "a"); Some (str "b")])))
     = [mkTranslated (str "toString") (Builtin (str "toString"));
        mkTranslated (str "greeting") (Text (str "Hello"))].
Proof. vm_compute. repeat split; reflexivity. Qed.

End GeneratorFacts.

(** ** A function applied to the elements of given references *)

Module MapFacts.

Section AlterAll.
Context {A : Type} (f : A -> A).
Hypothesis f_idem : forall x, f (f x) = f x.

Lemma alter_all_lookup (ids : list nat) (m : gmap nat A) (i : nat) :
  List.fold_left (fun acc id => alter f id acc) ids m !! i
  = if decide (i ∈ ids) then f <$> m !! i else m !! i.
Proof.
  revert m. induction ids as [| id ids IH]; intros m; cbn [List.fold_left].
  - destruct (decide (i ∈ [])) as [H | _]; [| reflexivity].
    now apply not_elem_of_nil in H.
  - rewrite IH. destruct (decide (id = i)) as [-> | Hne].
    + rewrite lookup_alter_eq.
      rewrite (decide_True (P := i ∈ i :: ids)) by apply list_elem_of_here.
      destruct (decide (i ∈ ids)); [| reflexivity].
      destruct (m !! i); simpl; [| reflexivity].
      now rewrite f_idem.
    + rewrite lookup_alter_ne by assumption.
      destruct (decide (i ∈ ids)) as [Hin | Hnot].
      * rewrite decide_True; [reflexivity | now apply list_elem_of_further].
      * rewrite decide_False; [reflexivity |].
        intros H. apply elem_of_cons in H as [-> | H]; tauto.
Qed.

Lemma alter_all_size (ids : list nat) (m : gmap nat A) :
  size (List.fold_left (fun acc id => alter f id acc) ids m) = size m.
Proof.
  revert m. induction ids as [| id ids IH]; intros m; cbn [List.fold_left];
    [reflexivity |].
  rewrite IH. rewrite <- !(size_dom (D := gset nat)). now rewrite dom_alter_L.
Qed.
End AlterAll.

End MapFacts.

(** ** Page translation service *)

Module PageFacts.
Import Page JsFacts ObjFacts PageSpec.

Lemma obj_get_delete_ne {V} (k j : jsstring) (o : obj V) :
  j <> k -> obj_get j (obj_delete k o) = obj_get j o.
Proof.
  intros Hne. induction o as [| [k' v'] o IH]; simpl; [reflexivity |].
  destruct (decide (k = k')) as [<- | Hk]; simpl.
  - now rewrite decide_False.
  - now rewrite IH.
Qed.

(** *** Text nodes *)

Lemma replaceFirstText_None x cs :
  replaceFirstText x cs = None <-> directTextNodes cs = [].
Proof.
  induction cs as [| [s | j] cs IH]; simpl.
  - tauto.
  - split; discriminate.
  - destruct (replaceFirstText x cs); [| tauto].
    split; [discriminate |]. intros H. apply IH in H. discriminate.
Qed.

Lemma replaceFirstText_Some x cs cs' :
  replaceFirstText x cs = Some cs' ->
  directTextNodes cs' = x :: List.tl (directTextNodes cs).
Proof.
  revert cs'. induction cs as [| [s | j] cs IH]; simpl; intros cs'.
  - discriminate.
  - now intros [= <-].
  - destruct (replaceFirstText x cs) as [r |]; [| discriminate].
    intros [= <-]. simpl. now apply IH.
Qed.

Lemma replaceFirstText_again x y cs cs' :
  replaceFirstText x cs = Some cs' ->
  replaceFirstText y cs' = replaceFirstText y cs.
Proof.
  revert cs'. induction cs as [| [s | j] cs IH]; simpl; intros cs'.
  - discriminate.
  - now intros [= <-].
  - destruct (replaceFirstText x cs) as [r |] eqn:E; [| discriminate].
    intros [= <-]. simpl. now rewrite (IH r eq_refl).
Qed.

Lemma replaceFirstText_same x cs :
  List.head (directTextNodes cs) = Some x -> replaceFirstText x cs = Some cs.
Proof.
  induction cs as [| [s | j] cs IH]; simpl.
  - discriminate.
  - now intros [= ->].
  - intros H. now rewrite IH.
Qed.

Lemma setElementText_idem x e :
  setElementText x (setElementText x e) = setElementText x e.
Proof.
  unfold setElementText.
  destruct (replaceFirstText x (childNodes e)) as [cs |] eqn:E; simpl.
  - rewrite (replaceFirstText_again x x _ _ E), E. reflexivity.
  - unfold setTextContent. destruct (truthy x); reflexivity.
Qed.

Lemma setElementText_attributes x e :
  attributes (setElementText x e) = attributes e.
Proof.
  unfold setElementText. now destruct (replaceFirstText x (childNodes e)).
Qed.

Lemma setElementText_removeAttribute x n e :
  setElementText x (removeAttribute n e)
  = removeAttribute n (setElementText x e).
Proof.
  unfold setElementText. simpl.
  now destruct (replaceFirstText x (childNodes e)).
Qed.

(** *** [restoreAll] *)

Lemma restoreElement_idem e :
  restoreElement (restoreElement e) = restoreElement e.
Proof.
  unfold restoreElement at 2 3.
  destruct (getAttribute DATA_ORIGINAL_TEXT e) as [original |] eqn:E.
  - destruct (truthy original) eqn:T.
    + unfold restoreElement, getAttribute. simpl.
      rewrite obj_get_delete_ne by discriminate.
      rewrite setElementText_attributes.
      unfold getAttribute in E. rewrite E, T.
      rewrite setElementText_removeAttribute, setElementText_idem.
      unfold removeAttribute. simpl. now rewrite obj_delete_idem.
    + unfold restoreElement. now rewrite E, T.
  - unfold restoreElement. now rewrite E.
Qed.

Lemma restoreElement_untranslated e : untranslated e -> restoreElement e = e.
Proof.
  intros [Hmark Hshows]. unfold restoreElement.
  destruct (getAttribute DATA_ORIGINAL_TEXT e) as [original |] eqn:E;
    [| reflexivity].
  destruct (truthy original) eqn:T; [| reflexivity].
  unfold setElementText.
  rewrite (replaceFirstText_same original (childNodes e) (Hshows _ eq_refl T)).
  destruct e as [h n attrs cs]. unfold removeAttribute, setChildNodes. simpl.
  unfold getAttribute in Hmark. simpl in Hmark.
  now rewrite (obj_delete_absent _ _ Hmark).
Qed.

(** The nodes after the loop of [restoreAll] over the entries [l]. *)
Lemma restoreAll_nodes (s : Service) (ns : gmap nat Element) :
  snd (restoreAll s ns)
  = List.fold_left (fun acc id => alter restoreElement id acc) (tracked s) ns.
Proof.
  unfold restoreAll, tracked. simpl. revert ns.
  induction (elements s) as [| kv l IH]; simpl; intros ns; [reflexivity |].
  apply IH.
Qed.

Lemma restored_lookup (ids : list nat) (ns : gmap nat Element) (i : nat) :
  List.fold_left (fun acc id => alter restoreElement id acc) ids ns !! i
  = if decide (i ∈ ids) then restoreElement <$> ns !! i else ns !! i.
Proof. apply MapFacts.alter_all_lookup, restoreElement_idem. Qed.

(** When every element the service holds is untranslated, [restoreAll]
    leaves the nodes as they are. *)
Lemma restoreAll_untranslated (s : Service) (ns : gmap nat Element) :
  (forall id e, In id (tracked s) -> ns !! id = Some e -> untranslated e) ->
  snd (restoreAll s ns) = ns.
Proof.
  intros Hun. rewrite restoreAll_nodes. apply map_eq. intros i.
  rewrite restored_lookup.
  destruct (decide (i ∈ tracked s)) as [Hin | Hnot]; [| reflexivity].
  destruct (ns !! i) as [e |] eqn:E; simpl; [| reflexivity].
  rewrite restoreElement_untranslated; [reflexivity |].
  apply (Hun i e); [now apply list_elem_of_In | exact E].
Qed.

(** C6, on the code: a second call of [restoreAll] right after a first one
    changes neither the nodes (texts and markers) nor the service, on every
    state, and no call raises an error. But a call is no test of what is
    translated: on every held element with a recorded original text it
    writes that text and removes the marker, whatever the element shows and
    whether it is marked or not; and the record is never removed. So a
    call when nothing is translated changes the text of an element that
    was translated and restored before and has got another text since. *)
Theorem C6_restoreAll_rewrites_recorded_text (s : Service)
    (ns : gmap nat Element) :
  restoreAll (fst (restoreAll s ns)) (snd (restoreAll s ns)) = restoreAll s ns
  /\ forall (id : nat) (e : Element) (original : jsstring),
       In id (tracked s) -> ns !! id = Some e ->
       getAttribute DATA_ORIGINAL_TEXT e = Some original ->
       truthy original = true ->
       snd (restoreAll s ns) !! id
       = Some (removeAttribute DATA_TRANSLATED (setElementText original e))
       /\ getAttribute DATA_ORIGINAL_TEXT
            (removeAttribute DATA_TRANSLATED (setElementText original e))
          = Some original.
Proof.
  split.
  - apply injective_projections; [reflexivity |].
    rewrite restoreAll_nodes. change (tracked (restoreAll s ns).1) with (tracked s).
    rewrite restoreAll_nodes.
    apply map_eq. intros i. rewrite !restored_lookup.
    destruct (decide (i ∈ tracked s)); [| reflexivity].
    destruct (ns !! i); simpl; [| reflexivity].
    now rewrite restoreElement_idem.
  - intros id e original Hin He Horig Ht. split.
    + rewrite restoreAll_nodes, restored_lookup.
      rewrite decide_True by now apply list_elem_of_In.
      rewrite He. cbn [fmap option_fmap option_map].
      unfold restoreElement. now rewrite Horig, Ht.
    + unfold getAttribute, removeAttribute. cbn [attributes].
      rewrite obj_get_delete_ne by discriminate.
      now rewrite setElementText_attributes.
Qed.

Lemma C6_restoreAll_witness :
  nothingTranslated (fst afterRestore) rerendered
  /\ getElementText rerendered 4 = str "Saving, please wait"
  /\ snd (restoreAll (fst afterRestore) rerendered) !! 4%nat
     = Some (el "button"
               [ (str "class", str "chakra-button primary");
                 (DATA_ORIGINAL_TEXT, str "Save changes") ]
               [CText (str "Save changes")]).
Proof.
  split; [| split].
  - split; [reflexivity |].
    apply (bool_decide_unpack _). vm_compute. exact I.
  - vm_compute. reflexivity.
  - destruct (C6_restoreAll_rewrites_recorded_text (fst afterRestore)
                rerendered) as [_ H].
    destruct (H 4%nat
                (el "button"
                   [ (str "class", str "chakra-button primary");
                     (DATA_ORIGINAL_TEXT, str "Save changes") ]
                   [CText (str "Saving, please wait")])
                (str "Save changes")) as [Hrestored _].
    + vm_compute. tauto.
    + vm_compute. reflexivity.
    + reflexivity.
    + reflexivity.
    + exact Hrestored.
Defined.


(** What a scan records for an element is the text the document shows for
    it, which is not empty, and no translation yet. *)
Lemma scanPage_entries (d : Document) (s : Service) :
  Forall
    (fun kv : jsstring * PageElement =>
       originalText (snd kv) = getElementText (nodes d) (element (snd kv))
       /\ truthy (originalText (snd kv)) = true
       /\ translatedText (snd kv) = None)
    (elements (scanPage d s)).
Proof.
  unfold scanPage. cbn [elements].
  set (P := fun kv : jsstring * PageElement =>
              originalText (snd kv) = getElementText (nodes d) (element (snd kv))
              /\ truthy (originalText (snd kv)) = true
              /\ translatedText (snd kv) = None).
  assert (Inner : forall sel l acc,
            Forall P acc ->
            Forall P (List.fold_left (scanElement (nodes d) sel) l acc)).
  { intros sel l. induction l as [| [index id] l IH]; intros acc Hacc;
      cbn [List.fold_left]; [exact Hacc |].
    apply IH. unfold scanElement.
    destruct (truthy (getElementText (nodes d) id)) eqn:T; simpl;
      [| exact Hacc].
    destruct (truthy (trim (getElementText (nodes d) id))
              && negb (shouldSkipElement (nodes d) id)); [| exact Hacc].
    apply Forall_obj_set; [| exact Hacc]. now repeat split. }
  assert (Outer : forall sels acc,
            Forall P acc ->
            Forall P
              (List.fold_left
                 (fun acc0 (sel : jsstring * Selector) =>
                    List.fold_left (scanElement (nodes d) (fst sel))
                      (indexed (querySelectorAll d (snd sel))) acc0)
                 sels acc)).
  { intros sels. induction sels as [| sel sels IH]; intros acc Hacc;
      cbn [List.fold_left]; [exact Hacc |].
    apply IH. now apply Inner. }
  apply Outer. constructor.
Qed.

(** C9: a scan is a function of the document alone. It starts from an empty
    map and only reads the document, so a second scan of the same document
    finds the same elements under the same keys in the same order, with the
    same original texts, and so does a scan from any other state of the
    service. *)
Theorem C9_scan_deterministic (d : Document) (s s' : Service) :
  let first := scanPage d s in
  let second := scanPage d first in
  second = first
  /\ length (elements second) = length (elements first)
  /\ List.map (fun kv => originalText (snd kv)) (elements second)
     = List.map (fun kv => originalText (snd kv)) (elements first)
  /\ elements (scanPage d s') = elements first.
Proof. repeat split. Qed.

(** The scan of the sample document: the button is found under two
    selectors, the heading under one. *)
Example scan_sample :
  List.map (fun kv => (element (snd kv), originalText (snd kv)))
    (elements (scanPage sampleDocument newService))
  = [ (4%nat, str "Save changes"); (4%nat, str "Save changes");
      (2%nat, str "Hello World") ].
Proof. vm_compute. reflexivity. Qed.

(** *** Apply and restore *)

(** An element with at most one text node of its own, and no original text
    recorded yet, shows after [applyTranslation] and the restoration the
    text that was scanned. *)
Lemma apply_restore_single_text (ns : gmap nat Element) (id : nat)
    (e : Element) (translated sel : jsstring) :
  ns !! id = Some e ->
  (length (directTextNodes (childNodes e)) <= 1)%nat ->
  or_else (getAttribute DATA_ORIGINAL_TEXT e) [] = [] ->
  truthy (getElementText ns id) = true ->
  truthy translated = true ->
  let pageElement :=
    mkPageElement id (getElementText ns id) (Some translated) sel in
  getElementText
    (alter restoreElement id (applyTranslation pageElement ns)) id
  = getElementText ns id.
Proof.
  intros He Hone Hnone Horig Htr pageElement.
  set (original := getElementText ns id) in *.
  assert (Htrim : trim original = original).
  { subst original. unfold getElementText. rewrite He. apply trim_idem. }
  unfold pageElement, applyTranslation. simpl. rewrite Htr.
  unfold getElementText at 1.
  rewrite lookup_alter_eq, lookup_alter_eq, He. simpl.
  unfold applyToElement. rewrite Hnone. simpl.
  unfold restoreElement, getAttribute. simpl.
  rewrite obj_get_set_ne by discriminate.
  rewrite setElementText_attributes. simpl.
  rewrite obj_get_set_eq, Horig.
  assert (D : directTextNodes
                (childNodes
                   (setElementText original
                      (setAttribute DATA_TRANSLATED (str "true")
                         (setElementText translated
                            (setAttribute DATA_ORIGINAL_TEXT original e)))))
              = [original]).
  { unfold setElementText at 2. simpl.
    destruct (replaceFirstText translated (childNodes e)) as [cs |] eqn:R.
    - pose proof (replaceFirstText_Some _ _ _ R) as D1.
      unfold setElementText. simpl.
      destruct (replaceFirstText original cs) as [cs' |] eqn:R'.
      + simpl. rewrite (replaceFirstText_Some _ _ _ R'), D1. simpl.
        destruct (directTextNodes (childNodes e)) as [| a [| b l]];
          simpl in *; [reflexivity | reflexivity | lia].
      + apply replaceFirstText_None in R'. rewrite D1 in R'. discriminate.
    - unfold setTextContent. rewrite Htr. reflexivity. }
  simpl in D |- *. rewrite D. simpl. rewrite app_nil_r, Htrim, Horig.
  exact Htrim.
Qed.

(** C5, on the code: the heading of the sample document has two text nodes
    of its own, and its scanned text is their concatenation. After the
    translation is applied and restored, the first text node holds the
    whole original text and the second one is still there: the element
    reads [Hello WorldWorld], not the text that was scanned. *)
Theorem C5_restore_duplicates_later_text_nodes :
  getElementText sampleNodes 2 = str "Hello World"
  /\ originalText heading = getElementText sampleNodes 2
  /\ In heading
       (List.map (fun kv => mkPageElement (element (snd kv)) (originalText (snd kv))
                              (translatedText heading) (selector (snd kv)))
          (elements (scanPage sampleDocument newService)))
  /\ (let translated := applyTranslation heading sampleNodes in
      let restored :=
        snd (restoreAll (scanPage sampleDocument newService) translated) in
      getElementText translated 2 = [0x4f60; 0x597d]%N ++ str "World"
      /\ getElementText restored 2 = str "Hello WorldWorld"
      /\ textContent sampleNodes 2 = str "Hello !World"
      /\ textContent restored 2 = str "Hello World!World"
      /\ getElementText restored 2 <> originalText heading).
Proof.
  vm_compute. repeat split; try reflexivity; try discriminate.
  right. right. left. reflexivity.
Qed.

(** The button of the sample document has one text node: it reads as
    scanned after the round trip. *)
Example apply_restore_button :
  getElementText
    (snd (restoreAll (scanPage sampleDocument newService)
            (applyTranslation button sampleNodes))) 4
  = originalText button.
Proof. vm_compute. reflexivity. Qed.

End PageFacts.

(** ** Reload hook *)

Module HookFacts.
Import Hook ObjFacts PageSpec HookSpec.

Lemma truthy_or_else (s : jsstring) :
  truthy s = true -> truthy (or_else (Some s) []) = true.
Proof. intros H. unfold or_else. now rewrite H. Qed.

(** With marked elements in the document the hook keeps the persisted
    language and puts the restore control; it translates nothing either. *)
Lemma useAITranslation_marked w lang :
  ai_language w = Some lang -> truthy lang = true ->
  ~ freshlyLoaded (document w) ->
  useAITranslation w = mkWindow (addRestoreButton (document w)) (Some lang).
Proof.
  intros Hlang Htruthy Hmarked.
  unfold useAITranslation, restoreAITranslationState.
  rewrite Hlang, (truthy_or_else lang Htruthy).
  fold (translatedElements (document w)).
  unfold freshlyLoaded in Hmarked.
  destruct (translatedElements (document w)); [congruence |].
  reflexivity.
Qed.

(** The step of [restoreOriginalText] on an element: a second run finds
    the attribute gone. *)
Lemma restoreOne_idem e : restoreOne (restoreOne e) = restoreOne e.
Proof.
  unfold restoreOne at 2 3.
  destruct (getAttribute DATA_ORIGINAL_TEXT e) as [original |] eqn:E.
  - destruct (truthy original) eqn:T.
    + unfold restoreOne, getAttribute. simpl.
      rewrite PageFacts.obj_get_delete_ne by discriminate.
      now rewrite obj_get_delete_eq.
    + unfold restoreOne. now rewrite E, T.
  - unfold restoreOne. now rewrite E.
Qed.

(** *** The restoration of the hook *)

Lemma restoreOne_children e j :
  In (CElem j) (childNodes (restoreOne e)) -> In (CElem j) (childNodes e).
Proof.
  unfold restoreOne.
  destruct (getAttribute DATA_ORIGINAL_TEXT e) as [original |]; [| tauto].
  destruct (truthy original) eqn:T; [| tauto].
  unfold setTextContent. rewrite T. simpl. intros [H | []]. discriminate.
Qed.

Lemma restoreOne_unmarked e :
  or_else (getAttribute DATA_ORIGINAL_TEXT e) [] = [] -> restoreOne e = e.
Proof.
  unfold restoreOne, or_else.
  destruct (getAttribute DATA_ORIGINAL_TEXT e) as [original |]; [| reflexivity].
  destruct (truthy original) eqn:T; [| reflexivity].
  intros ->. discriminate.
Qed.

(** What is reached from a reference in a store is reached in a store
    whose elements have the same child elements, or more. *)
Lemma subtree_shrunk (ns ns1 : gmap nat Element) fuel anc id x :
  (forall i e1, ns1 !! i = Some e1 ->
     exists e, ns !! i = Some e
       /\ forall j, In (CElem j) (childNodes e1) -> In (CElem j) (childNodes e)) ->
  In x (subtree fuel ns1 anc id) -> In x (subtree fuel ns anc id).
Proof.
  intros Hshrunk. revert anc id.
  induction fuel as [| fuel IH]; intros anc id; simpl; [tauto |].
  destruct (ns1 !! id) as [e1 |] eqn:E1; [| intros []].
  destruct (Hshrunk id e1 E1) as (e0 & -> & Hchildren).
  intros [<- | Hin]; [now left |]. right.
  apply List.in_flat_map in Hin as ([s | j] & Hc & Hx); [destruct Hx |].
  apply List.in_flat_map. exists (CElem j). split; [now apply Hchildren |].
  now apply IH.
Qed.

(** The elements [querySelectorAll] returns for the attribute selector. *)
Lemma querySelectorAll_HasAttr (d : Document) (name : jsstring) (id : nat) :
  In id (querySelectorAll d [Compound [HasAttr name]])
  <-> (exists anc,
         In (id, anc)
           (subtree (S (size (nodes d))) (nodes d) [] (documentElement d)))
      /\ exists e, nodes d !! id = Some e /\ is_Some (getAttribute name e).
Proof.
  unfold querySelectorAll. rewrite List.in_map_iff.
  assert (M : forall x : nat * list nat,
            existsb (matchesComplex (nodes d) x) [Compound [HasAttr name]] = true
            <-> exists e, nodes d !! x.1 = Some e
                  /\ is_Some (getAttribute name e)).
  { intros x. simpl. unfold matchesCompound. simpl. unfold matchesSimple.
    destruct (nodes d !! x.1) as [e |].
    - rewrite orb_false_r, andb_true_r, bool_decide_eq_true.
      split; [eauto | now intros (e' & [= <-] & H)].
    - split; [discriminate | now intros (e' & [=] & _)]. }
  split.
  - intros ([i anc] & <- & Hin). apply List.filter_In in Hin as [Hin Hm].
    split; [now exists anc | now apply (M (i, anc))].
  - intros [[anc Hin] He]. exists (id, anc). split; [reflexivity |].
    apply List.filter_In. split; [exact Hin | now apply (M (id, anc))].
Qed.

(** X29: the loop of [restoreOriginalText] is idempotent: run on the
    document it has left, it changes no element. *)
Lemma restoreTexts_idem (d : Document) :
  restoreTexts (withNodes (restoreTexts d) d) = restoreTexts d.
Proof.
  apply map_eq. intros i.
  unfold restoreTexts at 1. fold ORIGINALS.
  rewrite (MapFacts.alter_all_lookup restoreOne restoreOne_idem).
  destruct (decide (i ∈ querySelectorAll (withNodes (restoreTexts d) d) ORIGINALS))
    as [Hsel | _]; [| reflexivity].
  apply list_elem_of_In, querySelectorAll_HasAttr in Hsel
    as [[anc Hreach] (e1 & He1 & Hattr)].
  simpl in He1, Hreach |- *. rewrite He1. simpl. f_equal.
  assert (L : forall j,
            restoreTexts d !! j
            = if decide (j ∈ querySelectorAll d ORIGINALS)
              then restoreOne <$> nodes d !! j else nodes d !! j)
    by (intros j; apply (MapFacts.alter_all_lookup restoreOne restoreOne_idem)).
  rewrite L in He1.
  destruct (decide (i ∈ querySelectorAll d ORIGINALS)) as [Hin | Hnot].
  - destruct (nodes d !! i) as [e |]; [| discriminate].
    injection He1 as <-. apply restoreOne_idem.
  - exfalso. apply Hnot, list_elem_of_In, querySelectorAll_HasAttr.
    split; [| now exists e1].
    exists anc.
    assert (Hsize : size (restoreTexts d) = size (nodes d))
      by apply MapFacts.alter_all_size.
    rewrite Hsize in Hreach.
    apply (subtree_shrunk (nodes d) (restoreTexts d)); [| exact Hreach].
    intros j e' He'. rewrite L in He'.
    destruct (decide (j ∈ querySelectorAll d ORIGINALS)) as [Hj | Hj];
      [| eauto].
    destruct (nodes d !! j) as [e0 |]; [| discriminate].
    injection He' as <-. exists e0. split; [reflexivity |].
    intros k. apply restoreOne_children.
Qed.

(** With no recorded original text in the document the loop changes
    nothing. *)
Lemma restoreTexts_nothing_translated (d : Document) :
  (forall id e, In id (querySelectorAll d ORIGINALS) ->
     nodes d !! id = Some e ->
     or_else (getAttribute DATA_ORIGINAL_TEXT e) [] = []) ->
  restoreTexts d = nodes d.
Proof.
  intros Hnone. apply map_eq. intros i. unfold restoreTexts. fold ORIGINALS.
  rewrite (MapFacts.alter_all_lookup restoreOne restoreOne_idem).
  destruct (decide (i ∈ querySelectorAll d ORIGINALS)) as [Hin | _];
    [| reflexivity].
  destruct (nodes d !! i) as [e |] eqn:E; [| reflexivity].
  simpl. f_equal. apply restoreOne_unmarked.
  apply (Hnone i e); [now apply list_elem_of_In | exact E].
Qed.

(** X30: the hook [useAITranslation] keeps no language without a
    translated document. When a language is persisted at the time of its
    delayed check and the document has no element marked as translated, as
    after a load, the hook removes the persisted language and leaves the
    document as it is: nothing is translated by it. *)
Theorem useAITranslation_clears_language (w : Window) (lang : jsstring) :
  ai_language w = Some lang -> truthy lang = true ->
  freshlyLoaded (document w) ->
  useAITranslation w = mkWindow (document w) None
  /\ pipelineState (useAITranslation w) = Idle.
Proof.
  intros Hlang Htruthy Hfresh.
  assert (H : useAITranslation w = mkWindow (document w) None).
  { unfold useAITranslation, restoreAITranslationState.
    rewrite Hlang, (truthy_or_else lang Htruthy).
    fold (translatedElements (document w)). now rewrite Hfresh. }
  split; [exact H |]. now rewrite H.
Qed.

Lemma useAITranslation_clears_language_witness :
  useAITranslation reloaded = mkWindow sampleDocument None
  /\ pipelineState (useAITranslation reloaded) = Idle.
Proof.
  apply (useAITranslation_clears_language reloaded (str "ja")).
  - reflexivity.
  - reflexivity.
  - vm_compute. reflexivity.
Defined.

End HookFacts.

(** * Further properties *)

(** ** Translation cache: eviction, cleanup, removal *)

Module CacheMore.
Import ObjFacts CacheSpec CacheFacts CacheMoreSpec.

Lemma obj_delete_as_filter {V} (k : jsstring) (o : obj V) :
  obj_delete k o = List.filter (fun kv => negb (bool_decide (fst kv = k))) o.
Proof.
  induction o as [| [k' v'] o IH]; simpl; [reflexivity |].
  destruct (decide (k = k')) as [<- | Hne].
  - now rewrite bool_decide_eq_true_2.
  - rewrite bool_decide_eq_false_2 by congruence. simpl. now rewrite IH.
Qed.

Lemma filter_filter_and {A} (f g : A -> bool) (l : list A) :
  List.filter f (List.filter g l) = List.filter (fun x => g x && f x) l.
Proof.
  induction l as [| x l IH]; simpl; [reflexivity |].
  destruct (g x); simpl; [destruct (f x) |]; now rewrite IH.
Qed.

Lemma filter_all {A} (f : A -> bool) (l : list A) :
  (forall x, In x l -> f x = true) -> List.filter f l = l.
Proof.
  induction l as [| x l IH]; simpl; intros H; [reflexivity |].
  rewrite (H x) by now left. f_equal. apply IH. intros y Hy. apply H. now right.
Qed.

Lemma filter_none {A} (f : A -> bool) (l : list A) :
  (forall x, In x l -> f x = false) -> List.filter f l = [].
Proof.
  induction l as [| x l IH]; simpl; intros H; [reflexivity |].
  rewrite (H x) by now left. apply IH. intros y Hy. apply H. now right.
Qed.

(** Deleting the keys of [l] one by one keeps the properties under other
    names, in their order. *)
Lemma obj_deletes_as_filter {V} (l : list (jsstring * V)) (o : obj V) :
  List.fold_left (fun acc kv => obj_delete (fst kv) acc) l o
  = List.filter (fun kv => negb (bool_decide (fst kv ∈ List.map fst l))) o.
Proof.
  revert o. induction l as [| x l IH]; intros o;
    cbn [List.fold_left List.map].
  - symmetry. apply filter_all. intros kv _.
    apply negb_true_iff, bool_decide_eq_false_2, not_elem_of_nil.
  - rewrite IH, obj_delete_as_filter, filter_filter_and.
    apply List.filter_ext. intros kv.
    destruct (decide (kv.1 = x.1)) as [E | E].
    + rewrite (bool_decide_eq_true_2 _ E). simpl.
      rewrite bool_decide_eq_true_2; [reflexivity |].
      rewrite E. apply list_elem_of_here.
    + rewrite (bool_decide_eq_false_2 _ E). simpl. f_equal.
      apply bool_decide_ext. rewrite elem_of_cons. tauto.
Qed.

(** *** The sort *)

Lemma insert_by_timestamp_perm x l :
  Permutation (insert_by_timestamp x l) (x :: l).
Proof.
  induction l as [| y l IH]; simpl; [reflexivity |].
  destruct (timestamp x.2 <=? timestamp y.2); [reflexivity |].
  rewrite IH. apply perm_swap.
Qed.

Lemma sort_by_timestamp_perm l : Permutation (sort_by_timestamp l) l.
Proof.
  induction l as [| x l IH]; simpl; [reflexivity |].
  now rewrite insert_by_timestamp_perm, IH.
Qed.

Lemma insert_by_timestamp_sorted x l :
  Sorted.StronglySorted older l ->
  Sorted.StronglySorted older (insert_by_timestamp x l).
Proof.
  induction 1 as [| y l Hl IH Hy]; simpl.
  - repeat constructor.
  - destruct (Z.leb_spec (timestamp x.2) (timestamp y.2)) as [Hle | Hgt].
    + constructor; [now constructor |].
      constructor; [exact Hle |].
      eapply List.Forall_impl; [| exact Hy].
      intros z Hz. unfold older in *. lia.
    + constructor; [exact IH |].
      apply List.Forall_forall. intros z Hz.
      apply (Permutation_in _ (insert_by_timestamp_perm x l)) in Hz.
      destruct Hz as [<- | Hz]; [unfold older; lia |].
      rewrite List.Forall_forall in Hy. now apply Hy.
Qed.

Lemma sort_by_timestamp_sorted l :
  Sorted.StronglySorted older (sort_by_timestamp l).
Proof.
  induction l as [| x l IH]; simpl; [constructor |].
  now apply insert_by_timestamp_sorted.
Qed.

Lemma sorted_firstn_skipn k l a b :
  Sorted.StronglySorted older l ->
  In a (firstn k l) -> In b (skipn k l) -> older a b.
Proof.
  intros Hs. revert k. induction Hs as [| x l Hl IH Hx]; intros k.
  - destruct k; simpl; tauto.
  - destruct k as [| k]; simpl; [tauto |].
    intros [<- | Ha] Hb.
    + rewrite List.Forall_forall in Hx. apply Hx.
      rewrite <- (List.firstn_skipn k l). apply List.in_or_app. now right.
    + now apply (IH k).
Qed.

Lemma Permutation_list_filter {A} (f : A -> bool) (l l' : list A) :
  Permutation l l' -> Permutation (List.filter f l) (List.filter f l').
Proof.
  induction 1 as [| x l l' _ IH | x y l | l1 l2 l3 _ IH1 _ IH2]; simpl.
  - reflexivity.
  - destruct (f x); [now constructor | exact IH].
  - destruct (f x), (f y); try reflexivity. apply perm_swap.
  - now transitivity (List.filter f l2).
Qed.

(** What [cleanupOldEntries] keeps of an object over the bound: the
    entries that the sort puts last. *)
Lemma cleanupOldEntries_kept (c : TranslationCache) :
  distinctKeys c -> (MAX_CACHE_SIZE < length c)%nat ->
  Permutation (cleanupOldEntries c)
    (skipn (length c - MAX_CACHE_SIZE + 100) (sort_by_timestamp c)).
Proof.
  intros Hkeys Hlen. unfold cleanupOldEntries.
  destruct (Nat.ltb_spec MAX_CACHE_SIZE (length c)) as [_ | ?]; [| lia].
  set (k := (length c - MAX_CACHE_SIZE + 100)%nat).
  set (sorted := sort_by_timestamp c).
  rewrite obj_deletes_as_filter.
  set (f := fun kv : jsstring * CacheEntry =>
              negb (bool_decide (kv.1 ∈ List.map fst (firstn k sorted)))).
  assert (Hperm : Permutation c (firstn k sorted ++ skipn k sorted)).
  { rewrite List.firstn_skipn. symmetry. apply sort_by_timestamp_perm. }
  rewrite (Permutation_list_filter f _ _ Hperm), List.filter_app.
  assert (Hnodup : NoDup (List.map fst (firstn k sorted ++ skipn k sorted))).
  { unfold distinctKeys, obj_keys in Hkeys.
    assert (Hp : Permutation (List.map fst c)
                   (List.map fst (firstn k sorted ++ skipn k sorted)))
      by now apply Permutation_map.
    now rewrite <- Hp. }
  rewrite List.map_app in Hnodup. apply NoDup_app in Hnodup as (_ & Hdisj & _).
  rewrite filter_none, filter_all; [reflexivity | |].
  - intros kv Hin. unfold f.
    rewrite bool_decide_eq_false_2; [reflexivity |].
    intros Hdel. apply (Hdisj _ Hdel).
    apply list_elem_of_In, List.in_map, Hin.
  - intros kv Hin. unfold f.
    rewrite bool_decide_eq_true_2; [reflexivity |].
    apply list_elem_of_In, List.in_map, Hin.
Qed.

(** X1: [cleanupOldEntries] leaves an object within the bound as it is. On
    an object of more than 1000 entries under distinct keys it leaves exactly
    900 of them, and the ones it removes are the oldest: none of them is
    newer than an entry that stays. *)
Theorem cleanupOldEntries_evicts_oldest (c : TranslationCache) :
  ((length c <= MAX_CACHE_SIZE)%nat -> cleanupOldEntries c = c)
  /\ (distinctKeys c -> (MAX_CACHE_SIZE < length c)%nat ->
      length (cleanupOldEntries c) = 900%nat
      /\ (forall kv, In kv (cleanupOldEntries c) -> In kv c)
      /\ (forall removed stays,
            In removed c -> ~ In removed (cleanupOldEntries c) ->
            In stays (cleanupOldEntries c) -> older removed stays)).
Proof.
  split; [apply cleanupOldEntries_small |].
  intros Hkeys Hlen.
  pose proof (cleanupOldEntries_kept c Hkeys Hlen) as Hkept.
  set (k := (length c - MAX_CACHE_SIZE + 100)%nat) in *.
  assert (Hsorted : Permutation (sort_by_timestamp c) c)
    by apply sort_by_timestamp_perm.
  split; [| split].
  - rewrite (Permutation_length Hkept), List.length_skipn.
    rewrite (Permutation_length Hsorted). unfold k, MAX_CACHE_SIZE in *. lia.
  - intros kv Hin. apply (Permutation_in _ Hkept) in Hin.
    apply (Permutation_in _ Hsorted).
    rewrite <- (List.firstn_skipn k). apply List.in_or_app. now right.
  - intros removed stays Hc Hgone Hstays.
    apply (Permutation_in _ Hkept) in Hstays.
    apply (sorted_firstn_skipn k (sort_by_timestamp c));
      [apply sort_by_timestamp_sorted | | exact Hstays].
    apply (Permutation_in _ (Permutation_sym Hsorted)) in Hc.
    rewrite <- (List.firstn_skipn k) in Hc.
    apply List.in_app_or in Hc as [Hc | Hc]; [exact Hc |].
    exfalso. apply Hgone.
    now apply (Permutation_in _ (Permutation_sym Hkept)).
Qed.

(** The key of a filler entry. *)
Lemma filler_key (i : nat) :
  (i <= 1000)%nat ->
  fst (filler i) = str "zh-en-" ++ [(0x4e00 + N.of_nat i)%N; CH_DASH].
Proof.
  intros Hi. unfold filler, generateCacheKey.
  cbn [fst text from to context or_else].
  set (c := (0x4e00 + N.of_nat i)%N).
  assert (Hc : (0x4e00 <= c <= 0x5800)%N) by (unfold c; lia).
  assert (Hws : is_ws c = false).
  { unfold is_ws.
    replace (c <=? 13)%N with false by (symmetry; apply N.leb_gt; lia).
    replace (c <=? 8202)%N with false by (symmetry; apply N.leb_gt; lia).
    repeat match goal with
           | |- context [(c =? ?b)%N] =>
               replace (c =? b)%N with false by (symmetry; apply N.eqb_neq; lia)
           end.
    now rewrite !andb_false_r. }
  assert (Hlow : toLowerCase [c] = [c])
    by (apply JsFacts.toLowerCase_ideograph; exact Hc).
  assert (Htrim : trim [c] = [c]).
  { unfold trim, trimEnd. cbn [trimStart]. rewrite Hws.
    cbn [rev app trimStart]. now rewrite Hws. }
  rewrite Hlow, Htrim.
  change (str "zh" ++ [CH_DASH] ++ str "en" ++ [CH_DASH] ++ [c] ++ [CH_DASH] ++ [])
    with (str "zh-en-" ++ c :: [CH_DASH]).
  rewrite JsFacts.replace_ws_runs_split by exact Hws. reflexivity.
Qed.

Lemma overfullCache_distinct : distinctKeys overfullCache.
Proof.
  unfold distinctKeys, obj_keys, overfullCache. rewrite List.map_map.
  apply (NoDup_fmap_2_strong (fun i => fst (filler i))); [| apply NoDup_seq].
  intros i j Hi Hj Heq. apply elem_of_seq in Hi, Hj.
  unfold MAX_CACHE_SIZE in Hi, Hj.
  rewrite !filler_key in Heq by lia.
  apply List.app_inv_head in Heq. injection Heq as Heq. lia.
Qed.

Lemma cleanupOldEntries_evicts_oldest_witness :
  length (cleanupOldEntries overfullCache) = 900%nat.
Proof.
  apply (cleanupOldEntries_evicts_oldest overfullCache).
  - exact overfullCache_distinct.
  - unfold overfullCache, MAX_CACHE_SIZE.
    rewrite List.length_map, List.length_seq. lia.
Defined.

(** *** Distinct keys *)

Lemma obj_get_absent {V} (k : jsstring) (o : obj V) :
  k ∉ obj_keys o -> obj_get k o = None.
Proof.
  induction o as [| [k' v'] o IH]; simpl; [reflexivity |].
  intros Hnot. apply not_elem_of_cons in Hnot as [Hne Hnot].
  rewrite decide_False by assumption. now apply IH.
Qed.

Lemma obj_get_present {V} (k : jsstring) (o : obj V) :
  k ∈ obj_keys o -> is_Some (obj_get k o).
Proof.
  induction o as [| [k' v'] o IH]; simpl.
  - intros H. now apply elem_of_nil in H.
  - intros H. destruct (decide (k = k')); [eauto |].
    apply elem_of_cons in H as [H | H]; [contradiction | now apply IH].
Qed.

Lemma obj_keys_filter_elem {V} (f : jsstring * V -> bool) (k : jsstring)
    (o : obj V) :
  k ∈ obj_keys (List.filter f o) -> k ∈ obj_keys o.
Proof.
  induction o as [| x o IH]; simpl; [tauto |].
  destruct (f x); simpl; rewrite ?elem_of_cons; tauto.
Qed.

Lemma distinctKeys_filter {V} (f : jsstring * V -> bool) (o : obj V) :
  distinctKeys o -> distinctKeys (List.filter f o).
Proof.
  unfold distinctKeys. induction o as [| x o IH]; simpl; [tauto |].
  rewrite NoDup_cons. intros [Hx Ho].
  destruct (f x); simpl; [| now apply IH].
  apply NoDup_cons. split; [| now apply IH].
  intros H. apply Hx. now apply (obj_keys_filter_elem f).
Qed.

Lemma obj_keys_set {V} (k : jsstring) (v : V) (o : obj V) :
  obj_keys (obj_set k v o)
  = match obj_get k o with
    | Some _ => obj_keys o
    | None => obj_keys o ++ [k]
    end.
Proof.
  induction o as [| [k' v'] o IH]; simpl; [reflexivity |].
  destruct (decide (k = k')) as [-> | Hne]; simpl; [reflexivity |].
  rewrite IH. now destruct (obj_get k o).
Qed.

Lemma distinctKeys_set {V} (k : jsstring) (v : V) (o : obj V) :
  distinctKeys o -> distinctKeys (obj_set k v o).
Proof.
  unfold distinctKeys. intros H. rewrite obj_keys_set.
  destruct (obj_get k o) eqn:E; [exact H |].
  apply NoDup_app. split; [exact H |]. split; [| apply NoDup_singleton].
  intros x Hx Hk. apply list_elem_of_singleton in Hk as ->.
  apply obj_get_present in Hx as [v' Hv]. congruence.
Qed.

Lemma distinctKeys_cleanupOldEntries (c : TranslationCache) :
  distinctKeys c -> distinctKeys (cleanupOldEntries c).
Proof.
  intros H. unfold cleanupOldEntries.
  destruct (MAX_CACHE_SIZE <? length c)%nat; [| exact H].
  rewrite obj_deletes_as_filter. now apply distinctKeys_filter.
Qed.

Lemma distinctKeys_saveCache w m :
  distinctKeys (cache m) -> distinctKeys (cache (saveCache w m)).
Proof.
  intros H. unfold saveCache. destruct (save_ok w); simpl; [exact H |].
  destruct (retry_ok w); simpl; now apply distinctKeys_cleanupOldEntries.
Qed.

(** The entry under a key after a filter, in an object with distinct keys. *)
Lemma obj_get_filter_distinct {V} (f : jsstring * V -> bool) (k : jsstring)
    (o : obj V) :
  distinctKeys o ->
  obj_get k (List.filter f o)
  = match obj_get k o with
    | Some v => if f (k, v) then Some v else None
    | None => None
    end.
Proof.
  unfold distinctKeys. induction o as [| [k' v'] o IH]; simpl; [reflexivity |].
  rewrite NoDup_cons. intros [Hx Ho].
  destruct (decide (k = k')) as [<- | Hne].
  - destruct (f (k, v')); simpl.
    + now rewrite decide_True.
    + apply obj_get_filter_None. now apply obj_get_absent.
  - destruct (f (k', v')); simpl; [rewrite decide_False by assumption |];
      now apply IH.
Qed.

(** What [get] returns, apart from what it does to the store. *)
Lemma get_returns w m request :
  snd (get w m request)
  = match obj_get (generateCacheKey request) (cache m) with
    | Some cached =>
        if expiresAt cached <? get_now w then None
        else Some (mkResponse (entryText cached) (from request) (to request))
    | None => None
    end.
Proof.
  unfold get. destruct (obj_get (generateCacheKey request) (cache m)) as [e |];
    [| reflexivity].
  now destruct (expiresAt e <? get_now w).
Qed.

(** X2: after [cleanupExpiredEntries] no entry is expired, and the cleanup
    is not observable through [get] at that time: for every request [get]
    returns what it would have returned without it. *)
Theorem cleanupExpiredEntries_unobservable (now : Z) (c : TranslationCache)
    (persistedItem : option TranslationCache) :
  Forall (fun kv => now <= expiresAt (snd kv)) (cleanupExpiredEntries now c)
  /\ (distinctKeys c ->
      forall w request,
        get_now w = now ->
        snd (get w (mkManager (cleanupExpiredEntries now c) persistedItem) request)
        = snd (get w (mkManager c persistedItem) request)).
Proof.
  split.
  - unfold cleanupExpiredEntries. apply List.Forall_forall. intros kv Hin.
    apply List.filter_In in Hin as [_ H].
    apply negb_true_iff, Z.ltb_ge in H. exact H.
  - intros Hkeys w request Hnow. subst now. rewrite !get_returns.
    cbn [cache]. unfold cleanupExpiredEntries.
    rewrite obj_get_filter_distinct by assumption.
    destruct (obj_get (generateCacheKey request) c) as [e |]; [| reflexivity].
    cbn [snd]. destruct (expiresAt e <? get_now w) eqn:E; cbn [negb];
      [reflexivity | now rewrite E].
Qed.

Lemma cleanupExpiredEntries_unobservable_witness :
  snd (get (mkGetEnv 200 persisted)
         (mkManager (cleanupExpiredEntries 200 twoEntries) None) saveRequest)
  = snd (get (mkGetEnv 200 persisted) (mkManager twoEntries None) saveRequest).
Proof.
  apply (cleanupExpiredEntries_unobservable 200 twoEntries None).
  - unfold distinctKeys. apply (bool_decide_unpack _). vm_compute. exact I.
  - reflexivity.
Defined.

(** X3: [delete] answers whether an entry was there, expired or not.
    Afterwards the key is absent: [get] returns nothing for the request and
    a second [delete] answers [false] and changes nothing. When the write
    goes through, the entries under other keys are as before. *)
Theorem delete_removes_entry w m request :
  let m1 := fst (Cache.delete w m request) in
  (snd (Cache.delete w m request) = true
   <-> is_Some (obj_get (generateCacheKey request) (cache m)))
  /\ obj_get (generateCacheKey request) (cache m1) = None
  /\ (forall wg, get wg m1 request = (m1, None))
  /\ (forall w', Cache.delete w' m1 request = (m1, false))
  /\ (save_ok w = true ->
      forall other,
        generateCacheKey other <> generateCacheKey request ->
        obj_get (generateCacheKey other) (cache m1)
        = obj_get (generateCacheKey other) (cache m)).
Proof.
  intros m1.
  assert (Habsent : obj_get (generateCacheKey request) (cache m1) = None).
  { subst m1. unfold Cache.delete.
    destruct (obj_get (generateCacheKey request) (cache m)) eqn:E;
      [| exact E].
    simpl. apply saveCache_None. simpl. apply obj_get_delete_eq. }
  split; [| split; [exact Habsent | split; [| split]]].
  - unfold Cache.delete.
    destruct (obj_get (generateCacheKey request) (cache m)); simpl.
    + split; eauto.
    + split; [discriminate | intros [? [=]]].
  - intros wg. now apply get_miss.
  - intros w'. unfold Cache.delete. now rewrite Habsent.
  - intros Hok other Hne. subst m1. unfold Cache.delete.
    destruct (obj_get (generateCacheKey request) (cache m)); [| reflexivity].
    simpl. rewrite saveCache_cache by now left.
    simpl. now apply PageFacts.obj_get_delete_ne.
Qed.

Lemma delete_removes_entry_witness :
  obj_get (generateCacheKey autoRequest)
    (cache (fst (Cache.delete persisted (mkManager twoEntries None) saveRequest)))
  = obj_get (generateCacheKey autoRequest) twoEntries.
Proof.
  apply (delete_removes_entry persisted (mkManager twoEntries None) saveRequest).
  - reflexivity.
  - vm_compute. discriminate.
Defined.

(** X4: [clear] empties the store whatever the storage does: the statistics
    show no key and every [get] returns nothing. *)
Theorem clear_empties_store w m :
  cache (clear w m) = []
  /\ getStats (clear w m) = (0%nat, [])
  /\ forall wg request, get wg (clear w m) request = (clear w m, None).
Proof.
  assert (H : cache (clear w m) = []).
  { unfold clear, saveCache. destruct (save_ok w); [reflexivity |].
    now destruct (retry_ok w). }
  split; [exact H | split].
  - unfold getStats. now rewrite H.
  - intros wg request. apply get_miss. now rewrite H.
Qed.

(** X5: [set] keeps the keys of the store distinct, whatever the clock and
    the storage do. When it is persisted at once and the random cleanup does
    not run, the order of the keys is kept: a key that is overwritten stays
    in its place and a new key goes last. *)
Theorem set_keeps_key_order config w m request response :
  (distinctKeys (cache m) ->
   distinctKeys (cache (Cache.set config w m request response)))
  /\ (set_random w = false -> save_ok (set_save w) = true ->
      obj_keys (cache (Cache.set config w m request response))
      = match obj_get (generateCacheKey request) (cache m) with
        | Some _ => obj_keys (cache m)
        | None => obj_keys (cache m) ++ [generateCacheKey request]
        end).
Proof.
  split.
  - intros H. unfold Cache.set. apply distinctKeys_saveCache. simpl.
    destruct (set_random w).
    + unfold cleanupExpiredEntries. now apply distinctKeys_filter, distinctKeys_set.
    + now apply distinctKeys_set.
  - intros Hrnd Hok. unfold Cache.set. rewrite Hrnd.
    rewrite saveCache_cache by now left. simpl. apply obj_keys_set.
Qed.

Lemma set_keeps_key_order_witness :
  distinctKeys
    (cache (Cache.set openaiConfig (plainSet 100) (mkManager twoEntries None)
              saveRequest saveResponse))
  /\ obj_keys
       (cache (Cache.set openaiConfig (plainSet 100) (mkManager twoEntries None)
                 saveRequest saveResponse))
     = obj_keys twoEntries.
Proof.
  destruct (set_keeps_key_order openaiConfig (plainSet 100)
              (mkManager twoEntries None) saveRequest saveResponse)
    as [Hd Ho].
  split.
  - apply Hd. unfold distinctKeys. apply (bool_decide_unpack _).
    vm_compute. exact I.
  - apply (Ho eq_refl eq_refl).
Defined.

(** X6: a cache key holds no white space, whatever the request. *)
Theorem generateCacheKey_no_whitespace request :
  Forall (fun c => is_ws c = false) (generateCacheKey request).
Proof.
  unfold generateCacheKey.
  assert (G : forall (s : jsstring) (b : bool),
            Forall (fun c => is_ws c = false) (replace_ws_runs b s)).
  { induction s as [| c s IH]; intros b; simpl; [constructor |].
    destruct (is_ws c) eqn:E.
    - destruct b; [apply IH |]. constructor; [reflexivity | apply IH].
    - constructor; [exact E | apply IH]. }
  apply G.
Qed.

(** X7: a [set] for one request does not change what [get] returns for a
    request with another key, in a store with distinct keys, when the write
    is kept and [get] runs no earlier than the cleanup of [set]. *)
Theorem set_frames_other_keys config ws wg m request response other :
  distinctKeys (cache m) ->
  kept ws m ->
  generateCacheKey other <> generateCacheKey request ->
  set_cleanup_now ws <= get_now wg ->
  snd (get wg (Cache.set config ws m request response) other)
  = snd (get wg m other).
Proof.
  intros Hkeys Hkept Hne Htime. rewrite !get_returns. unfold Cache.set.
  set (c1 := obj_set (generateCacheKey request)
               (mkEntry (translatedText response) (set_now ws)
                  (set_now ws + expiration config)) (cache m)).
  assert (L1 : (length c1 <= S (length (cache m)))%nat)
    by apply length_obj_set_le.
  assert (G1 : obj_get (generateCacheKey other) c1
               = obj_get (generateCacheKey other) (cache m))
    by (unfold c1; apply obj_get_set_ne; exact Hne).
  assert (D1 : distinctKeys c1) by (unfold c1; now apply distinctKeys_set).
  set (c2 := if set_random ws
             then cleanupExpiredEntries (set_cleanup_now ws) c1 else c1).
  assert (L2 : (length c2 <= length c1)%nat).
  { subst c2. destruct (set_random ws); [| lia].
    apply List.filter_length_le. }
  rewrite saveCache_cache
    by (simpl; destruct Hkept as [H | H]; [now left | right; lia]).
  simpl. subst c2. destruct (set_random ws); [| now rewrite G1].
  unfold cleanupExpiredEntries.
  rewrite obj_get_filter_distinct by assumption. rewrite G1.
  destruct (obj_get (generateCacheKey other) (cache m)) as [e |];
    [| reflexivity].
  simpl.
  destruct (Z.ltb_spec (expiresAt e) (set_cleanup_now ws)) as [Hexp | Hlive];
    simpl; [| reflexivity].
  destruct (Z.ltb_spec (expiresAt e) (get_now wg)); [reflexivity | lia].
Qed.

Lemma set_frames_other_keys_witness :
  snd (get (mkGetEnv 200 persisted)
         (Cache.set openaiConfig (plainSet 100) (mkManager twoEntries None)
            saveRequest saveResponse) autoRequest)
  = snd (get (mkGetEnv 200 persisted) (mkManager twoEntries None) autoRequest).
Proof.
  apply set_frames_other_keys.
  - unfold distinctKeys. apply (bool_decide_unpack _). vm_compute. exact I.
  - left. reflexivity.
  - vm_compute. discriminate.
  - vm_compute. discriminate.
Defined.

End CacheMore.

(** ** Translator facade: write-through, failures, batches *)

Module TranslatorMore.
Import Translator ObjFacts JsFacts CacheSpec CacheFacts TranslatorSpec
  TranslatorFacts CacheMoreSpec CacheMore TranslatorMoreSpec.

(** After a miss the key is not in the store. *)
Lemma get_none_absent w m request m1 :
  Cache.get w m request = (m1, None) ->
  obj_get (generateCacheKey request) (cache m1) = None.
Proof.
  unfold Cache.get.
  destruct (obj_get (generateCacheKey request) (cache m)) as [e |] eqn:E.
  - destruct (expiresAt e <? get_now w); [| discriminate].
    intros [= <-]. apply saveCache_None. simpl. apply obj_get_delete_eq.
  - now intros [= <-].
Qed.

(** [get] adds nothing to the store. *)
Lemma get_entries_subset w m request kv :
  In kv (cache (fst (Cache.get w m request))) -> In kv (cache m).
Proof.
  unfold Cache.get.
  destruct (obj_get (generateCacheKey request) (cache m)) as [e |]; [| tauto].
  destruct (expiresAt e <? get_now w); [| tauto].
  simpl. unfold saveCache.
  assert (D : forall c : TranslationCache,
            In kv (obj_delete (generateCacheKey request) c) -> In kv c).
  { intros c. rewrite obj_delete_as_filter. intros H.
    now apply List.filter_In in H. }
  assert (O : forall c : TranslationCache, In kv (cleanupOldEntries c) -> In kv c).
  { intros c. unfold cleanupOldEntries.
    destruct (MAX_CACHE_SIZE <? length c)%nat; [| tauto].
    rewrite obj_deletes_as_filter. intros H. now apply List.filter_In in H. }
  destruct (save_ok (get_save w)); simpl; [apply D |].
  destruct (retry_ok (get_save w)); simpl; intros H; apply D, O, H.
Qed.

Lemma performTranslation_calls config request reply :
  (length (fst (performTranslation config request reply)) <= 1)%nat
  /\ (forall r, snd (performTranslation config request reply) = inr r ->
      length (fst (performTranslation config request reply)) = 1%nat).
Proof.
  unfold performTranslation. repeat case_decide; simpl; split;
    try lia; try reflexivity; discriminate.
Qed.

(** X8: write-through. When [translate] misses the cache and the backend
    answers, the answer is returned after exactly one call and written to
    the cache. Whenever the entry written is in the store after that call,
    a second [translate] of the same request that runs before the entry
    expires issues no call, returns the same answer and leaves the cache
    as it is. The entry is in the store when the write is kept (the first
    attempt to persist goes through, or the store held fewer entries than
    the bound) and the cleanup of [set] does not run after its expiry. *)
Theorem translate_writes_through config w1 w2 m request response :
  snd (Cache.get (t_get w1) m request) = None ->
  snd (performTranslation config request (t_reply w1)) = inr response ->
  let first := translate config w1 m request in
  let second := translate config w2 (manager first) request in
  let entry := written (t_config w1) (t_set w1) response in
  length (calls first) = 1%nat
  /\ value first = inr response
  /\ manager first
     = Cache.set (t_config w1) (t_set w1) (fst (Cache.get (t_get w1) m request))
         request response
  /\ (obj_get (generateCacheKey request) (cache (manager first)) = Some entry ->
      get_now (t_get w2) <= expiresAt entry ->
      calls second = []
      /\ value second = inr response
      /\ manager second = manager first)
  /\ (kept (t_set w1) (fst (Cache.get (t_get w1) m request)) ->
      set_cleanup_now (t_set w1)
        <= set_now (t_set w1) + expiration (t_config w1) ->
      obj_get (generateCacheKey request) (cache (manager first)) = Some entry).
Proof.
  intros Hmiss Hok first second entry.
  pose proof (performTranslation_calls config request (t_reply w1)) as [_ Hone].
  specialize (Hone response Hok).
  assert (Hlang : sourceLanguage response = from request
                  /\ targetLanguage response = to request).
  { destruct (performTranslation config request (t_reply w1)) as [issued res] eqn:E.
    simpl in Hok. subst res. apply performTranslation_ok in E. tauto. }
  assert (Hfirst : first
                   = mkOutcome
                       (Cache.set (t_config w1) (t_set w1)
                          (fst (Cache.get (t_get w1) m request)) request response)
                       (fst (performTranslation config request (t_reply w1)))
                       (inr response)).
  { subst first. unfold translate.
    destruct (Cache.get (t_get w1) m request) as [m1 [cached |]];
      [discriminate |].
    destruct (performTranslation config request (t_reply w1)) as [issued res].
    simpl in Hok. now subst res. }
  split; [rewrite Hfirst; exact Hone |].
  split; [now rewrite Hfirst |].
  split; [now rewrite Hfirst |].
  split.
  - intros Hlook Hnow. subst second. unfold translate.
    rewrite (get_hit (t_get w2) (manager first) request entry Hlook Hnow).
    cbn [calls value manager]. unfold entry, written. cbn [entryText].
    destruct response as [t s l]. simpl in Hlang. destruct Hlang as [-> ->].
    repeat split.
  - intros Hkept Htime. rewrite Hfirst. cbn [manager].
    now apply set_lookup.
Qed.

Lemma translate_writes_through_witness :
  let first :=
    translate openaiConfig (envWith (okReply [0x4fdd; 0x5b58]%N)) emptyManager
      saveRequest in
  calls (translate openaiConfig (envWith Rejected) (manager first) saveRequest)
  = []
  /\ value (translate openaiConfig (envWith Rejected) (manager first) saveRequest)
     = inr saveResponse.
Proof.
  destruct (translate_writes_through openaiConfig
              (envWith (okReply [0x4fdd; 0x5b58]%N)) (envWith Rejected)
              emptyManager saveRequest saveResponse)
    as (_ & _ & _ & Hhit & Hkept).
  - reflexivity.
  - reflexivity.
  - destruct Hhit as (Hcalls & Hvalue & _).
    + apply Hkept; [left; reflexivity | vm_compute; discriminate].
    + vm_compute. discriminate.
    + split; [exact Hcalls | exact Hvalue].
Defined.

(** X9: a failure is not cached. When [translate] throws, the error is the
    wrapped error of the backend, at most one call was issued, the store
    has no entry under the key of the request and has gained no entry. *)
Theorem translate_failure_not_cached config w m request e :
  value (translate config w m request) = inl e ->
  let o := translate config w m request in
  (exists cause, e = TranslationFailed cause)
  /\ (length (calls o) <= 1)%nat
  /\ obj_get (generateCacheKey request) (cache (manager o)) = None
  /\ (forall kv, In kv (cache (manager o)) -> In kv (cache m)).
Proof.
  intros Hfail o. subst o. revert Hfail. unfold translate.
  pose proof (get_entries_subset (t_get w) m request) as Hsub.
  destruct (Cache.get (t_get w) m request) as [m1 [cached |]] eqn:G;
    [discriminate |].
  pose proof (performTranslation_calls config request (t_reply w)) as [Hle _].
  destruct (performTranslation config request (t_reply w))
    as [issued [err | response]]; simpl; [| discriminate].
  intros [= <-]. simpl in Hle, Hsub.
  repeat split; eauto. now apply (get_none_absent _ _ _ _ G).
Qed.

Lemma translate_failure_not_cached_witness :
  obj_get (generateCacheKey saveRequest)
    (cache (manager (translate openaiConfig (envWith serverError) emptyManager
                       saveRequest)))
  = None.
Proof.
  apply (translate_failure_not_cached openaiConfig (envWith serverError)
           emptyManager saveRequest
           (TranslationFailed
              (ApiError (str "OpenAI") 500 (str "Internal Server Error")))).
  reflexivity.
Defined.

Lemma performTranslation_unsupported config request reply :
  unsupported config ->
  performTranslation config request reply
  = ([], inl (UnsupportedProvider (provider config))).
Proof.
  intros Hnot. unfold performTranslation.
  repeat case_decide; try reflexivity; exfalso;
    match goal with
    | Hp : provider config = Some ?n |- _ => apply (Hnot n Hp)
    end; simpl; tauto.
Qed.

Lemma translate_calls_le config w m request :
  (length (calls (translate config w m request)) <= 1)%nat.
Proof.
  unfold translate.
  destruct (Cache.get (t_get w) m request) as [m1 [cached |]]; simpl; [lia |].
  pose proof (performTranslation_calls config request (t_reply w)) as [Hle _].
  now destruct (performTranslation config request (t_reply w)) as [issued [|]].
Qed.

Lemma translate_unsupported config w m request :
  unsupported config ->
  let o := translate config w m request in
  calls o = []
  /\ manager o = fst (Cache.get (t_get w) m request)
  /\ (value o = inl (TranslationFailed (UnsupportedProvider (provider config)))
      \/ exists e,
           In (generateCacheKey request, e) (cache m)
           /\ value o = inr (mkResponse (entryText e) (from request) (to request))).
Proof.
  intros Hnot o. subst o. unfold translate.
  rewrite (performTranslation_unsupported _ _ _ Hnot).
  unfold Cache.get.
  destruct (obj_get (generateCacheKey request) (cache m)) as [e |] eqn:E;
    [| simpl; auto].
  destruct (expiresAt e <? get_now (t_get w)); simpl; [auto |].
  repeat split. right. exists e. split; [now apply obj_get_In | reflexivity].
Qed.

(** X10: [translateBatch] issues at most one call per request. With a
    provider name that is none of the four it issues no call at all and
    adds nothing to the cache: every result is an entry the cache held
    already or the text of the request itself. *)
Theorem translateBatch_calls config ws i0 m requests :
  let o := translateBatch config ws i0 m requests in
  (length (calls o) <= length requests)%nat
  /\ (unsupported config ->
      calls o = []
      /\ (forall kv, In kv (cache (manager o)) -> In kv (cache m))
      /\ forall (i : nat) (request : TranslationRequest),
           requests !! i = Some request ->
           exists result,
             value o !! i = Some result
             /\ (result = mkResponse (text request) (from request) (to request)
                 \/ exists e,
                      In (generateCacheKey request, e) (cache m)
                      /\ result
                         = mkResponse (entryText e) (from request) (to request))).
Proof.
  revert i0 m. induction requests as [| request0 rest IH]; intros i0 m; simpl.
  - split; [lia |]. intros _. repeat split; auto. intros i request [=].
  - destruct (IH (S i0) (manager (translate config (ws i0) m request0)))
      as [Hle Hun].
    split.
    + rewrite List.length_app.
      pose proof (translate_calls_le config (ws i0) m request0). lia.
    + intros Hnot. destruct (Hun Hnot) as (Hcalls & Hsub & Hres).
      destruct (translate_unsupported config (ws i0) m request0 Hnot)
        as (Hc0 & Hm0 & Hv0).
      assert (Hsub0 : forall kv,
                 In kv (cache (manager (translate config (ws i0) m request0))) ->
                 In kv (cache m)).
      { intros kv. rewrite Hm0. apply get_entries_subset. }
      split; [now rewrite Hc0, Hcalls |]. split; [auto |].
      intros [| i] request Hi; simpl in Hi.
      * injection Hi as <-. simpl.
        destruct Hv0 as [-> | (e & Hin & ->)]; eexists; split; eauto.
      * destruct (Hres i request Hi) as (result & Hr & Hcase).
        exists result. split; [exact Hr |].
        destruct Hcase as [-> | (e & Hin & ->)]; [now left |].
        right. exists e. split; [now apply Hsub0 | reflexivity].
Qed.

Lemma translateBatch_calls_witness :
  calls (translateBatch noProvider threeEnvs 0 emptyManager threeRequests) = [].
Proof.
  apply (translateBatch_calls noProvider threeEnvs 0 emptyManager threeRequests).
  intros name H. discriminate.
Defined.

(** X11: what the backends accept. A result of the two chat backends is
    trimmed and not empty, so an answer of white space only is an error;
    the two translation backends return any string that is not empty as
    it is, white space included. *)
Theorem backends_accept config request reply :
  (forall r,
     snd (translateWithOpenAI config request reply) = inr r
     \/ snd (translateWithClaude config request reply) = inr r ->
     translatedText r <> [] /\ trim (translatedText r) = translatedText r)
  /\ (forall status statusText s,
        reply = Responded true status statusText (Some (Some s)) ->
        (forallb is_ws s = true ->
         snd (translateWithOpenAI config request reply)
         = inl (NoTranslation (str "OpenAI"))
         /\ snd (translateWithClaude config request reply)
            = inl (NoTranslation (str "Claude")))
        /\ (s <> [] ->
            snd (translateWithGoogle config request reply)
            = inr (mkResponse s (from request) (to request))
            /\ snd (translateWithDeepL config request reply)
               = inr (mkResponse s (from request) (to request)))).
Proof.
  split.
  - intros r H.
    assert (G : forall api, readReply api true request reply = inr r ->
                translatedText r <> []
                /\ trim (translatedText r) = translatedText r).
    { intros api. unfold readReply.
      destruct reply as [| ok status statusText data]; [discriminate |].
      destruct ok; simpl; [| discriminate].
      destruct data as [[s |] |]; try discriminate.
      destruct (truthy (trim s)) eqn:E; [| discriminate].
      intros [= <-]. simpl. split; [| apply trim_idem].
      intros Hnil. rewrite Hnil in E. discriminate. }
    destruct H as [H | H]; simpl in H; now apply G in H.
  - intros status statusText s ->. split.
    + intros Hws.
      assert (T : trim s = []).
      { unfold trim. now rewrite (trimStart_all_ws s Hws). }
      simpl. now rewrite T.
    + intros Hne. simpl. destruct s; [congruence | split; reflexivity].
Qed.

Lemma backends_accept_witness :
  snd (translateWithOpenAI openaiConfig saveRequest (okReply (str "  ")))
  = inl (NoTranslation (str "OpenAI"))
  /\ snd (translateWithGoogle googleConfig saveRequest (okReply (str "  ")))
     = inr (mkResponse (str "  ") (str "en") (str "zh")).
Proof.
  destruct (backends_accept openaiConfig saveRequest (okReply (str "  ")))
    as [_ H1].
  destruct (backends_accept googleConfig saveRequest (okReply (str "  ")))
    as [_ H2].
  split.
  - apply (H1 200 (str "OK") (str "  ") eq_refl). reflexivity.
  - apply (H2 200 (str "OK") (str "  ") eq_refl). discriminate.
Defined.

End TranslatorMore.

(** ** Optimized batch generator: shape of the results, generation *)

Module GeneratorMore.
Import Generator ObjFacts GeneratorSpec GeneratorFacts CacheMoreSpec CacheMore
  GeneratorMoreSpec.








Lemma latin_test (s : jsstring) pattern :
  latin s -> Forall (fun r : N * N => (0x400 <= fst r)%N) pattern ->
  test pattern s = false.
Proof.
  intros Hlatin Hlow. unfold test. apply not_true_is_false. intros H.
  apply List.existsb_exists in H as (c & Hc & H).
  apply List.existsb_exists in H as (r & Hr & H).
  apply andb_true_iff in H as [H1 _]. apply N.leb_le in H1.
  unfold latin in Hlatin. rewrite List.Forall_forall in Hlatin, Hlow.
  specialize (Hlatin c Hc). specialize (Hlow r Hr). simpl in *. lia.
Qed.

Lemma latin_not_classified (s lang : jsstring) :
  latin s -> isAlreadyTranslated s lang <> Some true.
Proof.
  intros Hlatin. unfold isAlreadyTranslated, member.
  destruct (obj_get lang patterns) as [pattern |] eqn:E.
  - rewrite (latin_test s pattern Hlatin); [discriminate |].
    apply obj_get_In in E. simpl in E.
    repeat (destruct E as [[= <- <-] | E];
            [repeat constructor; simpl; lia |]).
    destruct E.
  - now destruct (decide (lang ∈ OBJECT_PROTOTYPE)).
Qed.

Lemma latin_tested (s lang : jsstring) :
  lang ∉ OBJECT_PROTOTYPE -> latin s ->
  isAlreadyTranslated s lang = Some false.
Proof.
  intros Hnot Hlatin.
  pose proof (latin_not_classified s lang Hlatin) as H1.
  destruct (isAlreadyTranslated s lang) as [[|] |] eqn:E;
    [congruence | reflexivity |].
  apply isAlreadyTranslated_throws in E. contradiction.
Qed.

(** X13: for a language named like a member of [Object.prototype]
    ([constructor], [toString], ...) the test throws, whatever the text: the
    look-up in the table of patterns finds the inherited member, which has
    no method [test]. For every other language a text written with code
    units below U+0400 only is tested and not taken to be in the target
    language; and no such text is ever classified. *)
Theorem isAlreadyTranslated_latin (s lang : jsstring) :
  (lang ∈ OBJECT_PROTOTYPE -> isAlreadyTranslated s lang = None)
  /\ (lang ∉ OBJECT_PROTOTYPE -> latin s ->
      isAlreadyTranslated s lang = Some false)
  /\ (latin s -> isAlreadyTranslated s lang <> Some true).
Proof.
  split; [apply isAlreadyTranslated_throws |].
  split; [apply latin_tested | apply latin_not_classified].
Qed.

Lemma isAlreadyTranslated_latin_witness :
  isAlreadyTranslated (str "Save") zh = Some false
  /\ isAlreadyTranslated (str "Save") (str "constructor") = None.
Proof.
  split.
  - destruct (isAlreadyTranslated_latin (str "Save") zh) as (_ & H & _).
    apply H.
    + apply (bool_decide_unpack _). vm_compute. exact I.
    + unfold latin. apply (bool_decide_unpack _). vm_compute. exact I.
  - destruct (isAlreadyTranslated_latin (str "Save") (str "constructor"))
      as (H & _).
    apply H. apply (bool_decide_unpack _). vm_compute. exact I.
Defined.

(** *** [generateTranslations] *)












End GeneratorMore.

(** ** Further properties of the page translation service *)

Module PageMore.
Import Page ObjFacts JsFacts PageSpec PageFacts PageMoreSpec.

(** *** The scan *)

Lemma indexed_lookup {A} (l : list A) (i : nat) (x : A) :
  In (i, x) (indexed l) -> l !! i = Some x.
Proof.
  unfold indexed.
  assert (G : forall a (l : list A),
            In (i, x) (List.combine (List.seq a (length l)) l) ->
            (a <= i)%nat /\ l !! (i - a)%nat = Some x).
  { intros a l0. revert a. induction l0 as [| y l0 IH]; intros a;
      cbn [length List.seq List.combine]; [intros [] |].
    intros [[= <- <-] | Hin].
    - split; [lia |]. now rewrite Nat.sub_diag.
    - apply IH in Hin as [Hle Hl]. split; [lia |].
      replace (i - a)%nat with (S (i - S a)) by lia. exact Hl. }
  intros Hin. apply G in Hin as [_ Hl]. now rewrite Nat.sub_0_r in Hl.
Qed.

(** What holds of every entry a scan can make holds of the entries of the
    scan. *)
Lemma scanPage_invariant (P : jsstring * PageElement -> Prop) (d : Document)
    (s : Service) :
  (forall sel index id,
     In sel selectors ->
     querySelectorAll d (snd sel) !! index = Some id ->
     truthy (getElementText (nodes d) id) = true ->
     shouldSkipElement (nodes d) id = false ->
     P (uniqueKey (fst sel) index (getElementText (nodes d) id),
        mkPageElement id (getElementText (nodes d) id) None (fst sel))) ->
  Forall P (elements (scanPage d s)).
Proof.
  intros Hnew. unfold scanPage. cbn [elements].
  assert (Inner : forall sel l acc,
            In sel selectors ->
            (forall x, In x l -> In x (indexed (querySelectorAll d (snd sel)))) ->
            Forall P acc ->
            Forall P (List.fold_left (scanElement (nodes d) (fst sel)) l acc)).
  { intros sel l. induction l as [| [index id] l IH]; intros acc Hsel Hl Hacc;
      cbn [List.fold_left]; [exact Hacc |].
    apply IH; [exact Hsel | intros x Hx; apply Hl; now right |].
    unfold scanElement.
    destruct (truthy (getElementText (nodes d) id)) eqn:T; simpl;
      [| exact Hacc].
    destruct (truthy (trim (getElementText (nodes d) id))); simpl;
      [| exact Hacc].
    destruct (shouldSkipElement (nodes d) id) eqn:K; simpl; [exact Hacc |].
    apply Forall_obj_set; [| exact Hacc].
    apply Hnew; [exact Hsel | | exact T | exact K].
    apply indexed_lookup, Hl. now left. }
  assert (Outer : forall sels acc,
            (forall sel, In sel sels -> In sel selectors) ->
            Forall P acc ->
            Forall P
              (List.fold_left
                 (fun acc0 (sel : jsstring * Selector) =>
                    List.fold_left (scanElement (nodes d) (fst sel))
                      (indexed (querySelectorAll d (snd sel))) acc0)
                 sels acc)).
  { intros sels. induction sels as [| sel sels IH]; intros acc Hsels Hacc;
      cbn [List.fold_left]; [exact Hacc |].
    apply IH; [intros x Hx; apply Hsels; now right |].
    apply Inner; [apply Hsels; now left | tauto | exact Hacc]. }
  apply Outer; [tauto | constructor].
Qed.

(** X15: a scan records nothing but matches. Every entry holds an element
    that one of the eleven selectors matches in the document, under the
    key made of the selector, of the rank of the element among its matches
    and of the text; the text is the one the document shows, it is not
    empty, no translation is recorded yet, and the element is none that
    [shouldSkipElement] skips. *)
Theorem scanPage_records_matches (d : Document) (s : Service) :
  Forall (recorded d) (elements (scanPage d s)).
Proof.
  apply scanPage_invariant. intros sel index id Hsel Hmatch T K.
  exists sel, index. cbn [snd element]. now repeat split.
Qed.

(** *** The keys of the scan *)

Lemma str_inj (s t : string) : str s = str t -> s = t.
Proof.
  unfold str. intros H.
  rewrite <- (string_of_list_ascii_of_string s),
    <- (string_of_list_ascii_of_string t).
  f_equal. revert H.
  generalize (list_ascii_of_string s) (list_ascii_of_string t).
  intros l. induction l as [| a l IH]; intros [| b l']; simpl;
    try discriminate; [reflexivity |].
  intros [= Hab Hl]. f_equal; [| now apply IH].
  now rewrite <- (ascii_N_embedding a), <- (ascii_N_embedding b), Hab.
Qed.

Lemma decimal_inj (i j : nat) : decimal i = decimal j -> i = j.
Proof.
  unfold decimal. intros H. apply str_inj in H.
  assert (Hnil : forall n, Nat.to_uint n <> Decimal.Nil).
  { intros n. rewrite <- (DecimalNat.Unsigned.of_to n) at 1.
    rewrite DecimalNat.Unsigned.to_of. apply DecimalFacts.unorm_nonnil. }
  apply DecimalNat.Unsigned.to_uint_inj.
  pose proof (NilZero.usu _ (Hnil i)) as Hi.
  pose proof (NilZero.usu _ (Hnil j)) as Hj.
  rewrite H in Hi. congruence.
Qed.

Lemma decimal_digits (n : nat) : Forall (fun c => c <> CH_DASH) (decimal n).
Proof.
  unfold decimal.
  assert (G : forall d,
            Forall (fun c => c <> CH_DASH) (str (NilEmpty.string_of_uint d))).
  { induction d; cbn; constructor; try exact IHd; discriminate. }
  destruct (Nat.to_uint n) eqn:E; try apply G.
  cbn. constructor; [discriminate | constructor].
Qed.

Lemma app_dash_inv (a b x y : jsstring) :
  Forall (fun c => c <> CH_DASH) a -> Forall (fun c => c <> CH_DASH) b ->
  a ++ CH_DASH :: x = b ++ CH_DASH :: y -> a = b.
Proof.
  intros Ha. revert b. induction Ha as [| c a Hc Ha IH]; intros b Hb.
  - destruct Hb as [| d b Hd Hb]; [reflexivity |].
    cbn. intros [= Heq _]. now symmetry in Heq.
  - destruct Hb as [| d b Hd Hb]; cbn.
    + now intros [= Heq _].
    + intros [= -> Heq]. f_equal. now apply IH.
Qed.

Lemma prefixb_refl_app (a b : jsstring) : prefixb a (a ++ b) = true.
Proof.
  induction a as [| c a IH]; [reflexivity |]. cbn.
  now rewrite N.eqb_refl, IH.
Qed.

(** Two texts that agree around a dash: the parts before it are equal,
    or one of them with its dash starts the other. *)
Lemma app_dash_cases (a b x y : jsstring) :
  a ++ CH_DASH :: x = b ++ CH_DASH :: y ->
  a = b \/ prefixb (a ++ [CH_DASH]) b = true
  \/ prefixb (b ++ [CH_DASH]) a = true.
Proof.
  revert b. induction a as [| c a IH]; intros [| d b]; cbn.
  - now left.
  - intros [= <- _]. right. left. reflexivity.
  - intros [= -> _]. right. right. reflexivity.
  - intros [= -> Heq]. rewrite N.eqb_refl. cbn [andb].
    destruct (IH b Heq) as [-> | H]; [now left | now right].
Qed.

Lemma selectors_apart :
  forallb
    (fun a =>
       forallb
         (fun b => bool_decide (a = b) || negb (prefixb (a ++ [CH_DASH]) b))
         (List.map fst selectors))
    (List.map fst selectors)
  = true.
Proof. vm_compute. reflexivity. Qed.

Lemma selectors_distinct : NoDup (List.map fst selectors).
Proof. apply (bool_decide_unpack _). vm_compute. exact I. Qed.

(** The key tells the selector and the rank. *)
Lemma uniqueKey_inj (sel sel' : jsstring * Selector) (i j : nat)
    (t t' : jsstring) :
  In sel selectors -> In sel' selectors ->
  uniqueKey (fst sel) i t = uniqueKey (fst sel') j t' ->
  sel = sel' /\ i = j.
Proof.
  intros Hsel Hsel'. unfold uniqueKey. cbn [app]. intros Heq.
  assert (Hnames : fst sel = fst sel').
  { pose proof selectors_apart as Hapart.
    rewrite forallb_forall in Hapart.
    assert (Hin : In (fst sel) (List.map fst selectors))
      by now apply List.in_map.
    assert (Hin' : In (fst sel') (List.map fst selectors))
      by now apply List.in_map.
    destruct (app_dash_cases _ _ _ _ Heq) as [H | [H | H]]; [exact H | |].
    - pose proof (Hapart _ Hin) as H1. rewrite forallb_forall in H1.
      specialize (H1 _ Hin'). rewrite H in H1. cbn in H1.
      rewrite orb_false_r in H1. now apply bool_decide_eq_true in H1.
    - pose proof (Hapart _ Hin') as H1. rewrite forallb_forall in H1.
      specialize (H1 _ Hin). rewrite H in H1. cbn in H1.
      rewrite orb_false_r in H1. now apply bool_decide_eq_true in H1. }
  rewrite Hnames in Heq. apply List.app_inv_head in Heq.
  injection Heq as Heq.
  apply app_dash_inv in Heq; try apply decimal_digits.
  apply decimal_inj in Heq. split; [| exact Heq].
  assert (G : forall (l : list (jsstring * Selector)) a b b',
            NoDup (List.map fst l) -> In (a, b) l -> In (a, b') l -> b = b').
  { induction l as [| [k v] l IH]; intros a b b' Hnd; [intros [] |].
    cbn in Hnd. apply NoDup_cons in Hnd as [Hk Hnd].
    intros [E1 | H1] [E2 | H2].
    - congruence.
    - exfalso. injection E1 as -> ->. apply Hk, list_elem_of_In.
      now apply (List.in_map fst _ (a, b')).
    - exfalso. injection E2 as -> ->. apply Hk, list_elem_of_In.
      now apply (List.in_map fst _ (a, b)).
    - now apply (IH a). }
  destruct sel as [a b], sel' as [a' b']. cbn in Hnames. subst a'.
  f_equal. exact (G selectors a b b' selectors_distinct Hsel Hsel').
Qed.

Lemma lookup_indexed {A} (l : list A) (i : nat) (x : A) :
  l !! i = Some x -> In (i, x) (indexed l).
Proof.
  unfold indexed.
  assert (G : forall a (l : list A) i,
            l !! i = Some x ->
            In ((a + i)%nat, x) (List.combine (List.seq a (length l)) l)).
  { intros a l0. revert a. induction l0 as [| y l0 IH]; intros a [| j];
      cbn [length List.seq List.combine]; try discriminate.
    - intros [= ->]. left. now rewrite Nat.add_0_r.
    - intros Hl. right. replace (a + S j)%nat with (S a + j)%nat by lia.
      now apply IH. }
  intros Hl. exact (G 0%nat l i Hl).
Qed.

Lemma getElementText_trimmed (ns : gmap nat Element) (id : nat) :
  trim (getElementText ns id) = getElementText ns id.
Proof.
  unfold getElementText. destruct (ns !! id); [apply trim_idem | reflexivity].
Qed.

(** X16: a scan misses no match. Every element that one of the selectors
    matches, that shows a text and that [shouldSkipElement] does not skip is
    recorded, under the key made of the selector, of its rank among the
    matches of the selector and of its text, with that text as original
    text: no later entry takes the key, since the keys of two matches
    differ. *)
Theorem scanPage_finds_matches (d : Document) (s : Service)
    (sel : jsstring * Selector) (index id : nat) :
  In sel selectors ->
  querySelectorAll d (snd sel) !! index = Some id ->
  truthy (getElementText (nodes d) id) = true ->
  shouldSkipElement (nodes d) id = false ->
  obj_get (uniqueKey (fst sel) index (getElementText (nodes d) id))
    (elements (scanPage d s))
  = Some (mkPageElement id (getElementText (nodes d) id) None (fst sel)).
Proof.
  intros Hsel Hmatch Htext Hskip. unfold scanPage. cbn [elements].
  set (key0 := uniqueKey (fst sel) index (getElementText (nodes d) id)).
  set (val0 := mkPageElement id (getElementText (nodes d) id) None (fst sel)).
  set (Q := fun acc : obj PageElement => obj_get key0 acc = Some val0).
  assert (Step : forall sel1 index1 id1 acc,
            In sel1 selectors ->
            querySelectorAll d (snd sel1) !! index1 = Some id1 ->
            Q acc \/ (sel1 = sel /\ index1 = index) ->
            Q (scanElement (nodes d) (fst sel1) acc (index1, id1))).
  { intros sel1 index1 id1 acc Hsel1 Hmatch1 Hacc. unfold scanElement.
    rewrite getElementText_trimmed.
    destruct Hacc as [Hacc | [-> ->]].
    - destruct (truthy (getElementText (nodes d) id1)
                && truthy (getElementText (nodes d) id1)
                && negb (shouldSkipElement (nodes d) id1)); [| exact Hacc].
      unfold Q.
      destruct (decide
                  (key0
                   = uniqueKey (fst sel1) index1
                       (getElementText (nodes d) id1))) as [Heq | Hne].
      + unfold key0 in Heq.
        apply uniqueKey_inj in Heq as [<- <-]; [| exact Hsel | exact Hsel1].
        assert (id1 = id) by congruence. subst id1.
        apply obj_get_set_eq.
      + rewrite obj_get_set_ne by exact Hne. exact Hacc.
    - assert (id1 = id) by congruence. subst id1.
      rewrite Htext, Hskip. cbn [andb negb]. apply obj_get_set_eq. }
  assert (Inner : forall sel1 l acc,
            In sel1 selectors ->
            (forall x, In x l -> In x (indexed (querySelectorAll d (snd sel1)))) ->
            Q acc \/ (sel1 = sel /\ In (index, id) l) ->
            Q (List.fold_left (scanElement (nodes d) (fst sel1)) l acc)).
  { intros sel1 l. induction l as [| [index1 id1] l IH];
      intros acc Hsel1 Hl Hacc; cbn [List.fold_left].
    - destruct Hacc as [Hacc | [_ []]]. exact Hacc.
    - apply IH; [exact Hsel1 | intros x Hx; apply Hl; now right |].
      assert (Hm1 : querySelectorAll d (snd sel1) !! index1 = Some id1)
        by (apply indexed_lookup, Hl; now left).
      destruct Hacc as [Hacc | [-> [[= -> ->] | Hin]]].
      + left. apply Step; [exact Hsel1 | exact Hm1 | now left].
      + left. apply Step; [exact Hsel1 | exact Hm1 | now right].
      + now right. }
  assert (Outer : forall sels acc,
            (forall x, In x sels -> In x selectors) ->
            Q acc \/ In sel sels ->
            Q (List.fold_left
                 (fun acc0 (sel1 : jsstring * Selector) =>
                    List.fold_left (scanElement (nodes d) (fst sel1))
                      (indexed (querySelectorAll d (snd sel1))) acc0)
                 sels acc)).
  { intros sels. induction sels as [| sel1 sels IH]; intros acc Hsels Hacc;
      cbn [List.fold_left].
    - destruct Hacc as [Hacc | []]. exact Hacc.
    - apply IH; [intros x Hx; apply Hsels; now right |].
      destruct Hacc as [Hacc | [-> | Hin]].
      + left. apply Inner; [apply Hsels; now left | tauto | now left].
      + left. apply Inner; [exact Hsel | tauto |].
        right. split; [reflexivity | now apply lookup_indexed].
      + now right. }
  apply Outer; [tauto | now right].
Qed.

Lemma scanPage_finds_matches_witness :
  obj_get (str "h1, h2, h3, h4, h5, h6-0-Hello World")
    (elements (scanPage sampleDocument newService))
  = Some (mkPageElement 2 (str "Hello World") None HEADINGS).
Proof.
  apply (scanPage_finds_matches sampleDocument newService
           (HEADINGS,
            [Compound [Type_ (str "h1")]; Compound [Type_ (str "h2")];
             Compound [Type_ (str "h3")]; Compound [Type_ (str "h4")];
             Compound [Type_ (str "h5")]; Compound [Type_ (str "h6")]])
           0 2).
  - do 7 right. left. reflexivity.
  - reflexivity.
  - reflexivity.
  - reflexivity.
Defined.

(** *** The tests of [shouldSkipElement] *)

(** An upper-cased name has no small letter. *)
Lemma toUpperCase_not_lower (s t : jsstring) :
  existsb (fun c => (97 <=? c) && (c <=? 122))%N t = true ->
  toUpperCase s <> t.
Proof.
  intros Hex Heq. subst t. apply existsb_exists in Hex as (c & Hin & Hc).
  unfold toUpperCase in Hin. apply List.in_map_iff in Hin as (c0 & <- & _).
  unfold upper_unit in Hc.
  destruct ((97 <=? c0) && (c0 <=? 122))%N eqn:E.
  - apply andb_true_iff in E as [E1 E2], Hc as [H1 H2].
    apply N.leb_le in E1, E2, H1, H2. lia.
  - congruence.
Qed.

(** X17: the tag names are compared with names in small letters, and the
    tag name of an HTML element is in capital letters: for an HTML element
    the two tests on the tag name never hold. Such an element, a text area
    too, is skipped when it has an [svg] descendant, when its text is short
    and holds a digit or a sign, or when it is marked as translated, and in
    no other case. *)
Theorem shouldSkipElement_html (ns : gmap nat Element) (id : nat)
    (e : Element) :
  ns !! id = Some e -> html e = true ->
  shouldSkipElement ns id
  = hasDescendant ns id (str "svg") || shortSpecialText ns id || marked e.
Proof.
  intros He Hhtml. unfold shouldSkipElement, shortSpecialText, marked.
  rewrite He. unfold tagName. rewrite Hhtml.
  rewrite !bool_decide_eq_false_2
    by (apply toUpperCase_not_lower; reflexivity).
  cbn [orb].
  destruct (hasDescendant ns id (str "svg")); [reflexivity |]. cbn [orb].
  destruct (existsb _ _ && _); [reflexivity |]. cbn [orb].
  now destruct (bool_decide _).
Qed.

Lemma shouldSkipElement_html_witness :
  shouldSkipElement formNodes 2 = false
  /\ In 2%nat (tracked (scanPage (mkDocument formNodes 0 1) newService)).
Proof.
  split.
  - rewrite (shouldSkipElement_html formNodes 2
               (el "textarea" [(str "class", str "form-label")]
                  [CText (str "Describe the item")]));
      [| reflexivity | reflexivity].
    vm_compute. reflexivity.
  - vm_compute. now left.
Defined.

(** *** The texts written *)

Lemma replaceFirstText_childElements x cs cs' :
  replaceFirstText x cs = Some cs' -> childElements cs' = childElements cs.
Proof.
  revert cs'. induction cs as [| [s | j] cs IH]; intros cs'; simpl.
  - discriminate.
  - now intros [= <-].
  - destruct (replaceFirstText x cs) as [r |]; [| discriminate].
    intros [= <-]. simpl. f_equal. now apply IH.
Qed.

(** X18: [setElementText] changes the children of the element only. When
    the element has a text node of its own, the first one takes the text:
    the child elements and the later text nodes stay. When it has none,
    the text replaces all its children, so that the elements that held the
    text shown are gone from it. *)
Theorem setElementText_children (x : jsstring) (e : Element) :
  attributes (setElementText x e) = attributes e
  /\ localName (setElementText x e) = localName e
  /\ (directTextNodes (childNodes e) <> [] ->
      childElements (childNodes (setElementText x e))
      = childElements (childNodes e)
      /\ directTextNodes (childNodes (setElementText x e))
         = x :: List.tl (directTextNodes (childNodes e)))
  /\ (directTextNodes (childNodes e) = [] ->
      childNodes (setElementText x e) = if truthy x then [CText x] else []).
Proof.
  unfold setElementText.
  destruct (replaceFirstText x (childNodes e)) as [cs |] eqn:R;
    (split; [reflexivity |]); (split; [reflexivity |]); split.
  - intros _. split.
    + now apply (replaceFirstText_childElements x).
    + now apply replaceFirstText_Some.
  - intros Hnone. apply (replaceFirstText_None x) in Hnone. congruence.
  - intros Hsome. now apply replaceFirstText_None in R.
  - intros _. reflexivity.
Qed.

Lemma setElementText_children_witness :
  childElements (childNodes (setElementText (str "Bonjour") (el "h1" []
     [CText (str "Hello "); CElem 3; CText (str "World")])))
  = [3%nat]
  /\ childNodes (setElementText (str "Bonjour") (el "a" [] [CElem 3]))
     = [CText (str "Bonjour")].
Proof.
  split.
  - destruct (setElementText_children (str "Bonjour")
                (el "h1" [] [CText (str "Hello "); CElem 3;
                             CText (str "World")])) as (_ & _ & H & _).
    destruct H as [H _]; [discriminate | exact H].
  - destruct (setElementText_children (str "Bonjour") (el "a" [] [CElem 3]))
      as (_ & _ & _ & H).
    exact (H eq_refl).
Defined.

(** *** Translations and their restoration *)

(** The element has been translated from [text]: the text is recorded on
    it and it has one text node of its own. *)
Lemma applyToElement_first (text t : jsstring) (e : Element) :
  (length (directTextNodes (childNodes e)) <= 1)%nat ->
  or_else (getAttribute DATA_ORIGINAL_TEXT e) [] = [] ->
  truthy t = true ->
  getAttribute DATA_ORIGINAL_TEXT (applyToElement text t e) = Some text
  /\ directTextNodes (childNodes (applyToElement text t e)) = [t].
Proof.
  intros Hone Hnone Ht. unfold applyToElement. rewrite Hnone. cbn [truthy].
  split.
  - unfold getAttribute, setAttribute. cbn [attributes].
    rewrite obj_get_set_ne by discriminate.
    rewrite setElementText_attributes. cbn [attributes].
    apply obj_get_set_eq.
  - unfold setAttribute at 1. cbn [childNodes].
    unfold setElementText.
    destruct (replaceFirstText t
                (childNodes (setAttribute DATA_ORIGINAL_TEXT text e)))
      as [cs |] eqn:R.
    + cbn [setChildNodes childNodes].
      rewrite (replaceFirstText_Some _ _ _ R). cbn [setAttribute childNodes].
      destruct (directTextNodes (childNodes e)) as [| a [| b l]];
        simpl in *; [reflexivity | reflexivity | lia].
    + unfold setTextContent. rewrite Ht. reflexivity.
Qed.

Lemma applyToElement_again (text t t0 : jsstring) (e : Element) :
  truthy text = true ->
  getAttribute DATA_ORIGINAL_TEXT e = Some text ->
  directTextNodes (childNodes e) = [t0] ->
  getAttribute DATA_ORIGINAL_TEXT (applyToElement text t e) = Some text
  /\ directTextNodes (childNodes (applyToElement text t e)) = [t].
Proof.
  intros Htext Horig Hone. unfold applyToElement.
  rewrite Horig. unfold or_else. rewrite Htext, Htext.
  split.
  - unfold getAttribute, setAttribute. cbn [attributes].
    rewrite obj_get_set_ne by discriminate.
    rewrite setElementText_attributes. exact Horig.
  - unfold setAttribute. cbn [childNodes]. unfold setElementText.
    destruct (replaceFirstText t (childNodes e)) as [cs |] eqn:R.
    + cbn [setChildNodes childNodes].
      rewrite (replaceFirstText_Some _ _ _ R), Hone. reflexivity.
    + apply replaceFirstText_None in R. congruence.
Qed.

Lemma restoreElement_shows (text t0 : jsstring) (e : Element) :
  truthy text = true ->
  getAttribute DATA_ORIGINAL_TEXT e = Some text ->
  directTextNodes (childNodes e) = [t0] ->
  directTextNodes (childNodes (restoreElement e)) = [text].
Proof.
  intros Htext Horig Hone. unfold restoreElement. rewrite Horig, Htext.
  unfold removeAttribute. cbn [childNodes]. unfold setElementText.
  destruct (replaceFirstText text (childNodes e)) as [cs |] eqn:R.
  - cbn [setChildNodes childNodes].
    rewrite (replaceFirstText_Some _ _ _ R), Hone. reflexivity.
  - apply replaceFirstText_None in R. congruence.
Qed.

Lemma restoreElement_nothing_recorded (e : Element) :
  or_else (getAttribute DATA_ORIGINAL_TEXT e) [] = [] -> restoreElement e = e.
Proof.
  unfold restoreElement, or_else.
  destruct (getAttribute DATA_ORIGINAL_TEXT e) as [o |]; [| reflexivity].
  destruct (truthy o) eqn:To; [| reflexivity]. intros ->. discriminate.
Qed.

(** The child elements stay when a text node takes a text. *)
Lemma setElementText_childElements (x : jsstring) (e : Element) :
  directTextNodes (childNodes e) <> [] ->
  childElements (childNodes (setElementText x e))
  = childElements (childNodes e).
Proof.
  intros Hsome. unfold setElementText.
  destruct (replaceFirstText x (childNodes e)) as [cs |] eqn:R.
  - now apply (replaceFirstText_childElements x).
  - apply replaceFirstText_None in R. congruence.
Qed.

Lemma applyToElement_childElements (text t : jsstring) (e : Element) :
  directTextNodes (childNodes e) <> [] ->
  childElements (childNodes (applyToElement text t e))
  = childElements (childNodes e).
Proof.
  intros Hsome. unfold applyToElement.
  destruct (truthy (or_else (getAttribute DATA_ORIGINAL_TEXT e) []));
    unfold setAttribute at 1; cbn [childNodes];
    now rewrite setElementText_childElements.
Qed.

Lemma restoreElement_childElements (e : Element) :
  directTextNodes (childNodes e) <> [] ->
  childElements (childNodes (restoreElement e)) = childElements (childNodes e).
Proof.
  intros Hsome. unfold restoreElement.
  destruct (getAttribute DATA_ORIGINAL_TEXT e) as [original |]; [| reflexivity].
  destruct (truthy original); [| reflexivity].
  unfold removeAttribute. cbn [childNodes].
  now apply setElementText_childElements.
Qed.

(** X19: the original text survives any number of translations. For an
    element with exactly one text node of its own, which is not blank, and
    no original text recorded, however many translations of the scanned
    entry are applied one after the other, empty ones among them, the
    restoration leaves the element with its child elements and with one
    text node of its own, which holds the text that was scanned, as soon as
    one translation was not empty, and what it held before otherwise; so
    the text read from the element is again the text that was scanned.
    The first translation records that text, and the later ones leave the
    record alone. *)
Theorem restore_after_translations (ns : gmap nat Element) (id : nat)
    (e : Element) (t0 : jsstring) (sel : jsstring) (ts : list jsstring) :
  ns !! id = Some e ->
  directTextNodes (childNodes e) = [t0] ->
  truthy (trim t0) = true ->
  or_else (getAttribute DATA_ORIGINAL_TEXT e) [] = [] ->
  let text := getElementText ns id in
  let translated :=
    List.fold_left
      (fun acc t => applyTranslation (mkPageElement id text (Some t) sel) acc)
      ts ns in
  text = trim t0
  /\ getElementText (alter restoreElement id translated) id = text
  /\ exists e',
       alter restoreElement id translated !! id = Some e'
       /\ childElements (childNodes e') = childElements (childNodes e)
       /\ directTextNodes (childNodes e')
          = [if existsb truthy ts then text else t0].
Proof.
  intros He Hnode Hshown Hnone text translated.
  assert (Htext0 : text = trim t0).
  { subst text. unfold getElementText. rewrite He, Hnode. cbn [List.concat].
    now rewrite app_nil_r, Hshown. }
  assert (Htext : truthy text = true) by now rewrite Htext0.
  assert (Htrim : trim text = text) by (rewrite Htext0; apply trim_idem).
  assert (Hone : (length (directTextNodes (childNodes e)) <= 1)%nat)
    by (rewrite Hnode; simpl; lia).
  set (P := fun (m : gmap nat Element) (b : bool) =>
              (b = false /\ m = ns)
              \/ (b = true
                  /\ exists e' t1,
                       m !! id = Some e'
                       /\ getAttribute DATA_ORIGINAL_TEXT e' = Some text
                       /\ directTextNodes (childNodes e') = [t1]
                       /\ childElements (childNodes e')
                          = childElements (childNodes e))).
  assert (Inv : P translated (existsb truthy ts)).
  { subst translated. clearbody text. clear Htrim Htext0.
    assert (G : forall ts m b,
              P m b ->
              P (List.fold_left
                   (fun acc t =>
                      applyTranslation (mkPageElement id text (Some t) sel) acc)
                   ts m)
                (b || existsb truthy ts)).
    { intros ts0. induction ts0 as [| t ts0 IH]; intros m b Hm;
        cbn [List.fold_left existsb]; [now rewrite orb_false_r |].
      rewrite orb_assoc. apply IH.
      unfold applyTranslation. cbn [translatedText element originalText].
      destruct (truthy t) eqn:Ht; [| now rewrite orb_false_r].
      rewrite orb_true_r. right. split; [reflexivity |].
      destruct Hm as [[_ ->] | (_ & e' & t1 & He' & Horig & Hnode' & Hch)].
      - destruct (applyToElement_first text t e Hone Hnone Ht) as [H1 H2].
        exists (applyToElement text t e), t.
        rewrite lookup_alter_eq, He. repeat split; try assumption.
        apply applyToElement_childElements. now rewrite Hnode.
      - destruct (applyToElement_again text t t1 e' Htext Horig Hnode')
          as [H1 H2].
        exists (applyToElement text t e'), t.
        rewrite lookup_alter_eq, He'. repeat split; try assumption.
        rewrite <- Hch. apply applyToElement_childElements.
        now rewrite Hnode'. }
    apply (G ts ns false). left. now split. }
  split; [exact Htext0 |].
  destruct Inv as [[Hb ->] | (Hb & e' & t1 & He' & Horig & Hnode' & Hch)];
    rewrite Hb.
  - assert (R : restoreElement e = e)
      by now apply restoreElement_nothing_recorded.
    assert (T : alter restoreElement id ns = ns).
    { apply map_eq. intros i.
      destruct (decide (i = id)) as [-> | Hne].
      - rewrite lookup_alter_eq, He. simpl. now rewrite R.
      - now rewrite lookup_alter_ne. }
    rewrite T. split; [reflexivity |].
    exists e. split; [exact He |]. split; [reflexivity | exact Hnode].
  - split.
    + unfold getElementText at 1. rewrite lookup_alter_eq, He'.
      cbn [fmap option_fmap option_map].
      rewrite (restoreElement_shows text t1 e' Htext Horig Hnode').
      cbn [List.concat]. rewrite app_nil_r, Htrim, Htext. exact Htrim.
    + exists (restoreElement e'). rewrite lookup_alter_eq, He'.
      split; [reflexivity |]. split.
      * rewrite <- Hch. apply restoreElement_childElements. now rewrite Hnode'.
      * exact (restoreElement_shows text t1 e' Htext Horig Hnode').
Qed.

Lemma restore_after_translations_witness :
  getElementText
    (alter restoreElement 4%nat
       (applyTranslation
          (mkPageElement 4 (str "Save changes") (Some (str "Enregistrer"))
             (str ".chakra-button"))
          (applyTranslation button sampleNodes))) 4
  = str "Save changes".
Proof.
  destruct (restore_after_translations sampleNodes 4
              (el "button" [(str "class", str "chakra-button primary")]
                 [CText (str "Save changes")])
              (str "Save changes") (str ".chakra-button")
              [[0x4fdd; 0x5b58]%N; str "Enregistrer"])
    as (_ & H & _).
  - reflexivity.
  - reflexivity.
  - reflexivity.
  - reflexivity.
  - exact H.
Defined.

(** *** What [restoreAll] reaches *)

Lemma restoreElement_attributes (name : jsstring) (e : Element) :
  name <> DATA_TRANSLATED ->
  getAttribute name (restoreElement e) = getAttribute name e.
Proof.
  intros Hname. unfold restoreElement.
  destruct (getAttribute DATA_ORIGINAL_TEXT e) as [original |];
    [| reflexivity].
  destruct (truthy original); [| reflexivity].
  unfold getAttribute, removeAttribute. cbn [attributes].
  rewrite obj_get_delete_ne by exact Hname.
  now rewrite setElementText_attributes.
Qed.

Lemma restoreElement_restores (original : jsstring) (e : Element) :
  getAttribute DATA_ORIGINAL_TEXT e = Some original ->
  truthy original = true ->
  untranslated (restoreElement e).
Proof.
  intros Horig Ht. split.
  - unfold restoreElement. rewrite Horig, Ht.
    unfold getAttribute, removeAttribute. cbn [attributes].
    apply obj_get_delete_eq.
  - intros o Ho _.
    rewrite restoreElement_attributes in Ho by discriminate.
    assert (o = original) by congruence. subst o.
    unfold restoreElement. rewrite Horig, Ht.
    unfold removeAttribute. cbn [childNodes]. unfold setElementText.
    destruct (replaceFirstText original (childNodes e)) as [cs |] eqn:R.
    + cbn [setChildNodes childNodes].
      now rewrite (replaceFirstText_Some _ _ _ R).
    + unfold setTextContent. now rewrite Ht.
Qed.

(** X20: what [restoreAll] reaches and what it leaves. An element the
    service does not hold is left as it is, and so is one without a
    recorded original text, marked or not. A held element with a recorded
    original text comes out untranslated: the marker is gone and its first
    text node shows the original. No attribute but the marker is changed
    on any element: the recorded original text stays on the element after
    the restoration. *)
Theorem restoreAll_frame (s : Service) (ns : gmap nat Element) (id : nat)
    (e : Element) :
  ns !! id = Some e ->
  exists e',
    snd (restoreAll s ns) !! id = Some e'
    /\ (forall name, name <> DATA_TRANSLATED ->
        getAttribute name e' = getAttribute name e)
    /\ (id ∉ tracked s -> e' = e)
    /\ (or_else (getAttribute DATA_ORIGINAL_TEXT e) [] = [] -> e' = e)
    /\ (id ∈ tracked s ->
        truthy (or_else (getAttribute DATA_ORIGINAL_TEXT e) []) = true ->
        untranslated e').
Proof.
  intros He. rewrite restoreAll_nodes, restored_lookup, He.
  destruct (decide (id ∈ tracked s)) as [Hin | Hout].
  - exists (restoreElement e). split; [reflexivity |].
    split; [intros name; apply restoreElement_attributes |].
    split; [tauto |].
    split; [apply restoreElement_nothing_recorded |].
    intros _ Ht. unfold or_else in Ht.
    destruct (getAttribute DATA_ORIGINAL_TEXT e) as [o |] eqn:Ho;
      [| discriminate].
    destruct (truthy o) eqn:To; [| discriminate].
    now apply (restoreElement_restores o).
  - exists e. split; [reflexivity |].
    split; [reflexivity |]. split; [reflexivity |]. split; [reflexivity |].
    tauto.
Qed.

Lemma restoreAll_frame_witness :
  exists e',
    snd (restoreAll (scanPage sampleDocument newService)
           (applyTranslation button sampleNodes)) !! 4%nat = Some e'
    /\ getAttribute DATA_ORIGINAL_TEXT e' = Some (str "Save changes")
    /\ untranslated e'.
Proof.
  destruct (restoreAll_frame (scanPage sampleDocument newService)
              (applyTranslation button sampleNodes) 4
              (applyToElement (str "Save changes") [0x4fdd; 0x5b58]%N
                 (el "button" [(str "class", str "chakra-button primary")]
                    [CText (str "Save changes")])))
    as (e' & He' & Hattrs & _ & _ & Hrestored); [reflexivity |].
  exists e'. split; [exact He' |]. split.
  - rewrite Hattrs by discriminate. reflexivity.
  - apply Hrestored; [| reflexivity].
    apply list_elem_of_In. vm_compute. now left.
Defined.

(** *** A scan after a translation *)

Lemma shouldSkipElement_marked (ns : gmap nat Element) (id : nat)
    (e : Element) :
  ns !! id = Some e -> marked e = true -> shouldSkipElement ns id = true.
Proof.
  intros He Hm. unfold shouldSkipElement. rewrite He.
  unfold marked in Hm. rewrite Hm.
  now repeat match goal with |- (if ?b then _ else _) = _ => destruct b end.
Qed.

(** X21: a scan forgets the translated elements. An element that carries
    the marker is recorded by no scan, under no selector: a service that
    scans the translated document again no longer holds the element, and
    its [restoreAll] leaves the element as it is, translated. *)
Theorem rescan_forgets_translated (d : Document) (s : Service) (id : nat)
    (e : Element) :
  nodes d !! id = Some e -> marked e = true ->
  (id ∉ tracked (scanPage d s))
  /\ snd (restoreAll (scanPage d s) (nodes d)) !! id = Some e.
Proof.
  intros He Hm.
  assert (Hout : id ∉ tracked (scanPage d s)).
  { intros Hin. apply list_elem_of_In in Hin. unfold tracked in Hin.
    apply List.in_map_iff in Hin as (kv & Hid & Hkv).
    pose proof (scanPage_invariant (fun kv => element (snd kv) <> id) d s)
      as Hinv.
    rewrite List.Forall_forall in Hinv. apply (Hinv) in Hkv; [tauto |].
    intros sel index id0 _ _ _ Hskip. cbn [snd element]. intros ->.
    rewrite (shouldSkipElement_marked _ _ _ He Hm) in Hskip. discriminate. }
  split; [exact Hout |].
  rewrite restoreAll_nodes, restored_lookup.
  now rewrite decide_False by exact Hout.
Qed.

Lemma rescan_forgets_translated_witness :
  tracked (scanPage translatedDocument newService) = [2%nat]
  /\ snd (restoreAll (scanPage translatedDocument newService)
            (nodes translatedDocument)) !! 4%nat
     = nodes translatedDocument !! 4%nat.
Proof.
  split; [vm_compute; reflexivity |].
  destruct (rescan_forgets_translated translatedDocument newService 4
              (applyToElement (str "Save changes") [0x4fdd; 0x5b58]%N
                 (el "button" [(str "class", str "chakra-button primary")]
                    [CText (str "Save changes")])))
    as [_ H]; [reflexivity | reflexivity |].
  rewrite H. reflexivity.
Defined.

(** *** The promises of a batch *)

Lemma cacheKey_withTranslated language t pageElement :
  cacheKey language (withTranslated t pageElement) = cacheKey language pageElement.
Proof. reflexivity. Qed.

Lemma cached_truthy c language pageElement t :
  cached c language pageElement = Some t ->
  obj_get (cacheKey language pageElement) c = Some t /\ truthy t = true.
Proof.
  unfold cached.
  destruct (obj_get (cacheKey language pageElement) c) as [t0 |];
    [| discriminate].
  destruct (truthy t0) eqn:T; [| discriminate]. now intros [= <-].
Qed.

(** What [startAll] makes of a batch. *)
Lemma startAll_spec language c replies n batch :
  let started := startAll language c replies n batch in
  Forall2 resolved batch (fst (fst started))
  /\ (length (snd (fst started)) <= length batch)%nat
  /\ Forall
       (fun call =>
          exists kv, In kv batch /\ cached c language (snd kv) = None
                     /\ call = callFor language (snd kv))
       (snd (fst started))
  /\ Forall
       (fun p : jsstring * TranslateReply =>
          exists kv k, In kv batch /\ cached c language (snd kv) = None
                       /\ p = (cacheKey language (snd kv), replies k))
       (snd started)
  /\ Forall2
       (fun kv kv' =>
          forall t, cached c language (snd kv) = Some t ->
                    kv' = (fst kv, withTranslated t (snd kv)))
       batch (fst (fst started)).
Proof.
  revert n. induction batch as [| [k pageElement] r IH]; intros n.
  - cbn. repeat split; constructor.
  - cbn [startAll].
    destruct (cached c language pageElement) as [t |] eqn:E.
    + destruct (IH n) as (H1 & H2 & H3 & H4 & H5). cbn [fst snd length].
      split; [constructor; [split; [reflexivity | now exists t] | exact H1] |].
      split; [lia |].
      split.
      { eapply List.Forall_impl; [| exact H3].
        intros call (kv & Hin & Hc & ->). exists kv. split; [now right | tauto]. }
      split.
      { eapply List.Forall_impl; [| exact H4].
        intros p (kv & j & Hin & Hc & ->). exists kv, j.
        split; [now right | tauto]. }
      constructor; [| exact H5].
      cbn [fst snd]. intros t' Ht'. congruence.
    + destruct (IH (S n)) as (H1 & H2 & H3 & H4 & H5). cbn [fst snd length].
      split.
      { constructor; [| exact H1]. split; [reflexivity |]. eexists. reflexivity. }
      split; [lia |].
      split.
      { constructor.
        - exists (k, pageElement). split; [now left | now split].
        - eapply List.Forall_impl; [| exact H3].
          intros call (kv & Hin & Hc & ->). exists kv.
          split; [now right | tauto]. }
      split.
      { constructor.
        - exists (k, pageElement), n. split; [now left | now split].
        - eapply List.Forall_impl; [| exact H4].
          intros p (kv & j & Hin & Hc & ->). exists kv, j.
          split; [now right | tauto]. }
      constructor; [| exact H5].
      cbn [fst snd]. intros t' Ht'. congruence.
Qed.

(** A response is cached under the key of a call of the batch. *)
Lemma arrive_other_key pending order c (K : jsstring) :
  Forall (fun p : jsstring * TranslateReply => fst p <> K) pending ->
  obj_get K (List.fold_left (arrive pending) order c) = obj_get K c.
Proof.
  intros Hkeys. revert c.
  induction order as [| i order IH]; intros c; cbn [List.fold_left];
    [reflexivity |].
  rewrite IH. unfold arrive.
  destruct (pending !! i) as [[k [| t]] |] eqn:E; try reflexivity.
  apply obj_get_set_ne.
  rewrite List.Forall_forall in Hkeys.
  apply list_elem_of_lookup_2, list_elem_of_In in E.
  intros ->. now apply (Hkeys _ E).
Qed.

Lemma arrive_rejected pending order c :
  Forall (fun p : jsstring * TranslateReply => snd p = TranslateRejected)
    pending ->
  List.fold_left (arrive pending) order c = c.
Proof.
  intros Hrej. revert c.
  induction order as [| i order IH]; intros c; cbn [List.fold_left];
    [reflexivity |].
  rewrite IH. unfold arrive.
  destruct (pending !! i) as [[k [| t]] |] eqn:E; try reflexivity.
  rewrite List.Forall_forall in Hrej.
  apply list_elem_of_lookup_2, list_elem_of_In in E.
  apply Hrej in E. discriminate.
Qed.

Lemma applyTranslation_dom pageElement (ns : gmap nat Element) :
  dom (applyTranslation pageElement ns) = dom ns.
Proof.
  unfold applyTranslation.
  destruct (translatedText pageElement) as [t |]; [| reflexivity].
  destruct (truthy t); [| reflexivity]. apply dom_alter_L.
Qed.

Lemma applyTranslations_dom (l : list (jsstring * PageElement))
    (ns : gmap nat Element) :
  dom (List.fold_left (fun acc kv => applyTranslation (snd kv) acc) l ns)
  = dom ns.
Proof.
  revert ns. induction l as [| kv l IH]; intros ns; cbn [List.fold_left];
    [reflexivity |].
  rewrite IH. apply applyTranslation_dom.
Qed.

Lemma startAll_hits language c replies n batch (K t : jsstring) :
  obj_get K c = Some t -> truthy t = true ->
  let started := startAll language c replies n batch in
  Forall
    (fun kv' : jsstring * PageElement =>
       cacheKey language (snd kv') = K -> translatedText (snd kv') = Some t)
    (fst (fst started))
  /\ Forall (fun call => callText call ++ [CH_DASH] ++ language <> K)
       (snd (fst started))
  /\ Forall (fun p : jsstring * TranslateReply => fst p <> K) (snd started).
Proof.
  intros HK Ht. revert n.
  induction batch as [| [k pageElement] r IH]; intros n.
  - cbn. repeat split; constructor.
  - cbn [startAll].
    destruct (cached c language pageElement) as [t0 |] eqn:E.
    + destruct (IH n) as (H1 & H2 & H3). cbn [fst snd].
      split; [| now split].
      constructor; [| exact H1]. cbn [snd]. intros HkK.
      rewrite cacheKey_withTranslated in HkK.
      apply cached_truthy in E as [E _]. cbn [withTranslated translatedText].
      congruence.
    + assert (Hne : cacheKey language pageElement <> K).
      { intros HkK. unfold cached in E. rewrite HkK, HK, Ht in E.
        discriminate. }
      destruct (IH (S n)) as (H1 & H2 & H3). cbn [fst snd].
      split; [| split].
      * constructor; [| exact H1]. cbn [snd]. intros HkK.
        now rewrite cacheKey_withTranslated in HkK.
      * constructor; [exact Hne | exact H2].
      * constructor; [exact Hne | exact H3].
Qed.

Lemma startAll_down language c replies n batch :
  backendDown replies ->
  let started := startAll language c replies n batch in
  fst (fst started) = List.map (degraded c language) batch
  /\ snd (fst started)
     = List.map (fun kv => callFor language (snd kv))
         (List.filter
            (fun kv => bool_decide (cached c language (snd kv) = None)) batch)
  /\ Forall (fun p : jsstring * TranslateReply => snd p = TranslateRejected)
       (snd started).
Proof.
  intros Hdown. revert n.
  induction batch as [| [k pageElement] r IH]; intros n.
  - cbn. repeat split; constructor.
  - cbn [startAll List.map List.filter snd]. unfold degraded at 1. cbn [fst snd].
    destruct (cached c language pageElement) as [t0 |] eqn:E.
    + destruct (IH n) as (H1 & H2 & H3). cbn [fst snd].
      rewrite bool_decide_eq_false_2 by discriminate.
      split; [now rewrite H1 | now split].
    + destruct (IH (S n)) as (H1 & H2 & H3). cbn [fst snd].
      rewrite bool_decide_eq_true_2 by reflexivity. cbn [List.map snd].
      rewrite (Hdown n), H1, H2.
      split; [reflexivity |]. split; [reflexivity |].
      constructor; [reflexivity | exact H3].
Qed.

(** *** The loop of [translateAll] *)

Ltac step_batches :=
  match goal with
  | |- context [translateBatches (S ?f) ?lang ?replies ?arrival ?b ?n
                  (?e :: ?es) ?c ?ns] =>
      change (translateBatches (S f) lang replies arrival b n (e :: es) c ns)
        with
        (let out :=
           translateBatch lang replies (arrival b) n (firstn 5 (e :: es)) c ns in
         let rest :=
           translateBatches f lang replies arrival (S b)
             (n + length (runCalls out)) (skipn 5 (e :: es)) (runCache out)
             (runNodes out) in
         mkRun (runElements out ++ runElements rest)
           (runCalls out ++ runCalls rest) (runCache rest) (runNodes rest));
      cbv zeta; cbn [runElements runCalls runCache runNodes]
  end.

Lemma skipn_fuel {A} (l : list A) (f : nat) :
  (length l <= S f)%nat -> l <> [] -> (length (skipn 5 l) <= f)%nat.
Proof.
  intros Hlen Hne. rewrite List.length_skipn.
  destruct l; [congruence |]. simpl in *. lia.
Qed.

Lemma translateBatches_spec fuel language replies arrival b n entries c ns :
  (length entries <= fuel)%nat ->
  let out := translateBatches fuel language replies arrival b n entries c ns in
  Forall2 resolved entries (runElements out)
  /\ (length (runCalls out) <= length entries)%nat
  /\ Forall
       (fun call =>
          exists kv, In kv entries /\ call = callFor language (snd kv))
       (runCalls out)
  /\ runNodes out
     = List.fold_left (fun acc kv => applyTranslation (snd kv) acc)
         (runElements out) ns.
Proof.
  revert b n entries c ns.
  induction fuel as [| f IH]; intros b n entries c ns Hlen.
  - destruct entries; [| simpl in Hlen; lia]. cbn.
    repeat split; constructor.
  - destruct entries as [| e0 es]; [cbn; repeat split; constructor |].
    cbv zeta. step_batches. set (l := e0 :: es) in *.
    destruct (startAll_spec language c replies n (firstn 5 l))
      as (H1 & H2 & H3 & _ & _).
    set (out := translateBatch language replies (arrival b) n (firstn 5 l) c ns).
    assert (Hfuel : (length (skipn 5 l) <= f)%nat)
      by (apply skipn_fuel; [exact Hlen | discriminate]).
    destruct (IH (S b) (n + length (runCalls out))%nat (skipn 5 l)
                (runCache out) (runNodes out) Hfuel)
      as (R1 & R2 & R3 & R4).
    cbv zeta in R1, R2, R3, R4.
    split; [| split; [| split]].
    + rewrite <- (List.firstn_skipn 5 l) at 1.
      apply Forall2_app; [exact H1 | exact R1].
    + assert (Hl : length l = (length (firstn 5 l) + length (skipn 5 l))%nat)
        by (now rewrite <- List.length_app, List.firstn_skipn).
      rewrite List.length_app, Hl.
      unfold out at 1. cbn [translateBatch runCalls]. lia.
    + apply List.Forall_app. split.
      * eapply List.Forall_impl; [| exact H3].
        intros call (kv & Hin & _ & ->). exists kv. split; [| reflexivity].
        rewrite <- (List.firstn_skipn 5 l). apply List.in_or_app. now left.
      * eapply List.Forall_impl; [| exact R3].
        intros call (kv & Hin & ->). exists kv. split; [| reflexivity].
        rewrite <- (List.firstn_skipn 5 l). apply List.in_or_app. now right.
    + rewrite R4, List.fold_left_app. reflexivity.
Qed.

Lemma translateBatches_reuses fuel language replies arrival b n entries c ns
    (K t : jsstring) :
  (length entries <= fuel)%nat ->
  obj_get K c = Some t -> truthy t = true ->
  let out := translateBatches fuel language replies arrival b n entries c ns in
  obj_get K (runCache out) = Some t
  /\ Forall (fun call => callText call ++ [CH_DASH] ++ language <> K)
       (runCalls out)
  /\ Forall
       (fun kv' : jsstring * PageElement =>
          cacheKey language (snd kv') = K -> translatedText (snd kv') = Some t)
       (runElements out).
Proof.
  intros Hlen HK Ht. revert b n entries c ns Hlen HK.
  induction fuel as [| f IH]; intros b n entries c ns Hlen HK.
  - destruct entries; [| simpl in Hlen; lia]. cbn.
    repeat split; [exact HK | constructor | constructor].
  - destruct entries as [| e0 es];
      [cbn; repeat split; [exact HK | constructor | constructor] |].
    cbv zeta. step_batches. set (l := e0 :: es) in *.
    destruct (startAll_hits language c replies n (firstn 5 l) K t HK Ht)
      as (H1 & H2 & H3).
    set (out := translateBatch language replies (arrival b) n (firstn 5 l) c ns).
    assert (Hfuel : (length (skipn 5 l) <= f)%nat)
      by (apply skipn_fuel; [exact Hlen | discriminate]).
    assert (HK1 : obj_get K (runCache out) = Some t).
    { unfold out. cbn [translateBatch runCache].
      now rewrite arrive_other_key. }
    destruct (IH (S b) (n + length (runCalls out))%nat (skipn 5 l)
                (runCache out) (runNodes out) Hfuel HK1)
      as (R1 & R2 & R3).
    cbv zeta in R1, R2, R3.
    split; [exact R1 |].
    split; apply List.Forall_app; now split.
Qed.

Lemma translateBatches_down fuel language replies arrival b n entries c ns :
  (length entries <= fuel)%nat ->
  backendDown replies ->
  let out := translateBatches fuel language replies arrival b n entries c ns in
  runCache out = c
  /\ runElements out = List.map (degraded c language) entries
  /\ runCalls out
     = List.map (fun kv => callFor language (snd kv))
         (List.filter
            (fun kv => bool_decide (cached c language (snd kv) = None))
            entries).
Proof.
  intros Hlen Hdown. revert b n entries ns Hlen.
  induction fuel as [| f IH]; intros b n entries ns Hlen.
  - destruct entries; [| simpl in Hlen; lia]. cbn. now repeat split.
  - destruct entries as [| e0 es]; [cbn; now repeat split |].
    cbv zeta. step_batches. set (l := e0 :: es) in *.
    destruct (startAll_down language c replies n (firstn 5 l) Hdown)
      as (H1 & H2 & H3).
    set (out := translateBatch language replies (arrival b) n (firstn 5 l) c ns).
    assert (Hfuel : (length (skipn 5 l) <= f)%nat)
      by (apply skipn_fuel; [exact Hlen | discriminate]).
    assert (Hc : runCache out = c).
    { unfold out. cbn [translateBatch runCache]. now apply arrive_rejected. }
    rewrite Hc.
    destruct (IH (S b) (n + length (runCalls out))%nat (skipn 5 l)
                (runNodes out) Hfuel) as (R1 & R2 & R3).
    cbv zeta in R1, R2, R3.
    split; [exact R1 |].
    rewrite R2, R3. unfold out. cbn [translateBatch runElements runCalls].
    rewrite H1, H2.
    rewrite <- List.map_app, <- List.map_app, <- List.filter_app.
    now rewrite (List.firstn_skipn 5 l).
Qed.

(** *** The marker *)

Lemma applyToElement_marked original t e :
  marked (applyToElement original t e) = true.
Proof.
  unfold marked, applyToElement, getAttribute, setAttribute. cbn [attributes].
  rewrite obj_get_set_eq. now apply bool_decide_eq_true_2.
Qed.

Lemma applyTranslation_keeps_mark pageElement (ns : gmap nat Element) id :
  (exists e, ns !! id = Some e /\ marked e = true) ->
  exists e, applyTranslation pageElement ns !! id = Some e /\ marked e = true.
Proof.
  intros (e & He & Hm). unfold applyTranslation.
  destruct (translatedText pageElement) as [t |]; [| now exists e].
  destruct (truthy t); [| now exists e].
  destruct (decide (element pageElement = id)) as [-> | Hne].
  - rewrite lookup_alter_eq, He. eexists. split; [reflexivity |].
    apply applyToElement_marked.
  - rewrite lookup_alter_ne by exact Hne. now exists e.
Qed.

Lemma applyTranslations_keep_mark (l : list (jsstring * PageElement))
    (ns : gmap nat Element) id :
  (exists e, ns !! id = Some e /\ marked e = true) ->
  exists e,
    List.fold_left (fun acc kv => applyTranslation (snd kv) acc) l ns !! id
    = Some e
    /\ marked e = true.
Proof.
  revert ns. induction l as [| kv l IH]; intros ns Hm; cbn [List.fold_left];
    [exact Hm |].
  apply IH. now apply applyTranslation_keeps_mark.
Qed.

Lemma applyTranslations_mark (l : list (jsstring * PageElement))
    (ns : gmap nat Element) (kv : jsstring * PageElement) :
  In kv l ->
  truthy (or_else (translatedText (snd kv)) []) = true ->
  is_Some (ns !! element (snd kv)) ->
  exists e,
    List.fold_left (fun acc kv0 => applyTranslation (snd kv0) acc) l ns
      !! element (snd kv)
    = Some e
    /\ marked e = true.
Proof.
  revert ns. induction l as [| kv0 l IH]; intros ns Hin Ht Hsome;
    [destruct Hin |].
  cbn [List.fold_left]. destruct Hin as [-> | Hin].
  - apply applyTranslations_keep_mark.
    destruct Hsome as [e He]. unfold applyTranslation.
    unfold or_else in Ht.
    destruct (translatedText (snd kv)) as [t |]; [| discriminate].
    destruct (truthy t); [| discriminate].
    rewrite lookup_alter_eq, He. eexists. split; [reflexivity |].
    apply applyToElement_marked.
  - apply IH; [exact Hin | exact Ht |].
    apply elem_of_dom. rewrite applyTranslation_dom. now apply elem_of_dom.
Qed.

(** *** [translateAll] *)

(** X22: [translateAll] never fails, whatever the replies and the order in
    which they arrive. On a translated page it is [restoreAll] and places
    no call. Otherwise it raises the flag and leaves on every entry of the
    map a text, under the same key, element, original text and selector;
    it places at most one call per entry, each for the original text of an
    entry, in the target language; the document is the one that the texts
    of the entries, applied in the order of the map, make of the document
    it found. The call that follows is a restoration. *)
Theorem translateAll_shape replies arrival (s : Service)
    (ns : gmap nat Element) :
  let out := translateAll replies arrival s ns in
  let s' := fst (fst out) in
  (isTranslated s = true -> out = (restoreAll s ns, []))
  /\ (isTranslated s = false ->
      isTranslated s' = true
      /\ targetLanguage s' = targetLanguage s
      /\ Forall2 resolved (elements s) (elements s')
      /\ (length (snd out) <= length (elements s))%nat
      /\ Forall
           (fun call =>
              exists kv, In kv (elements s)
                         /\ call = callFor (targetLanguage s) (snd kv))
           (snd out)
      /\ snd (fst out)
         = List.fold_left (fun acc kv => applyTranslation (snd kv) acc)
             (elements s') ns
      /\ forall replies' arrival',
           translateAll replies' arrival' s' (snd (fst out))
           = (restoreAll s' (snd (fst out)), [])).
Proof.
  cbv zeta. unfold translateAll.
  destruct (isTranslated s) eqn:E; split.
  - reflexivity.
  - discriminate.
  - discriminate.
  - intros _.
    destruct (translateBatches_spec (length (elements s)) (targetLanguage s)
                replies arrival 0 0 (elements s) (cache s) ns (le_n _))
      as (H1 & H2 & H3 & H4).
    cbv zeta in H1, H2, H3, H4.
    cbn [fst snd elements isTranslated targetLanguage].
    split; [reflexivity |]. split; [reflexivity |]. split; [exact H1 |].
    split; [exact H2 |]. split; [exact H3 |]. split; [exact H4 |].
    reflexivity.
Qed.

Lemma translateAll_shape_witness :
  isTranslated (fst (fst (translateAll allRejected inOrder scanned sampleNodes)))
  = true
  /\ (length (snd (translateAll allRejected inOrder scanned sampleNodes)) <= 3)%nat.
Proof.
  destruct (translateAll_shape allRejected inOrder scanned sampleNodes)
    as [_ H].
  destruct (H eq_refl) as (Hflag & _ & _ & Hcalls & _).
  split; [exact Hflag | exact Hcalls].
Defined.

(** X23: a cached text is not asked for again. When the cache holds a text
    that is not empty for the original text of an entry in the target
    language, [translateAll] places no call for that original text, leaves
    the cached text on every entry with that original text, and the cache
    holds the same text at the end, whatever the other calls return. *)
Theorem translateAll_reuses_cache replies arrival (s : Service)
    (ns : gmap nat Element) (kv : jsstring * PageElement) (t : jsstring) :
  isTranslated s = false ->
  In kv (elements s) ->
  cached (cache s) (targetLanguage s) (snd kv) = Some t ->
  let out := translateAll replies arrival s ns in
  let s' := fst (fst out) in
  cached (cache s') (targetLanguage s') (snd kv) = Some t
  /\ Forall (fun call => callText call <> originalText (snd kv)) (snd out)
  /\ Forall
       (fun kv' : jsstring * PageElement =>
          originalText (snd kv') = originalText (snd kv) ->
          translatedText (snd kv') = Some t)
       (elements s').
Proof.
  intros Hflag Hin Hc. cbv zeta. unfold translateAll. rewrite Hflag.
  apply cached_truthy in Hc as [HK Ht].
  destruct (translateBatches_reuses (length (elements s)) (targetLanguage s)
              replies arrival 0 0 (elements s) (cache s) ns
              (cacheKey (targetLanguage s) (snd kv)) t (le_n _) HK Ht)
    as (H1 & H2 & H3).
  cbv zeta in H1, H2, H3. cbn [fst snd elements cache targetLanguage].
  split; [| split].
  - unfold cached. now rewrite H1, Ht.
  - eapply List.Forall_impl; [| exact H2].
    intros call Hne Heq. apply Hne. unfold cacheKey. now rewrite Heq.
  - eapply List.Forall_impl; [| exact H3].
    intros kv' Himp Heq. apply Himp. unfold cacheKey. now rewrite Heq.
Qed.

Lemma translateAll_reuses_cache_witness :
  Forall (fun call => callText call <> str "Save changes")
    (snd (translateAll allRejected inOrder warmService sampleNodes)).
Proof.
  destruct (translateAll_reuses_cache allRejected inOrder warmService
              sampleNodes buttonEntry [0x4fdd; 0x5b58]%N)
    as (_ & H & _).
  - reflexivity.
  - vm_compute. left. reflexivity.
  - reflexivity.
  - exact H.
Defined.

(** X24: with the backend down the page is still flagged as translated.
    When every call is rejected, [translateAll] caches nothing, places one
    call for each entry whose text is not cached, and leaves on each entry
    the cached text or, failing that, its own original text. That text is
    applied like a translation: every held element of the document whose
    entry has an original text ends up marked as translated, and the flag
    of the service is raised. *)
Theorem translateAll_backend_down replies arrival (s : Service)
    (ns : gmap nat Element) :
  isTranslated s = false -> backendDown replies ->
  let out := translateAll replies arrival s ns in
  let s' := fst (fst out) in
  isTranslated s' = true
  /\ cache s' = cache s
  /\ elements s' = List.map (degraded (cache s) (targetLanguage s)) (elements s)
  /\ snd out
     = List.map (fun kv => callFor (targetLanguage s) (snd kv))
         (List.filter
            (fun kv =>
               bool_decide (cached (cache s) (targetLanguage s) (snd kv) = None))
            (elements s))
  /\ forall kv,
       In kv (elements s) ->
       truthy (originalText (snd kv)) = true ->
       is_Some (ns !! element (snd kv)) ->
       exists e',
         snd (fst out) !! element (snd kv) = Some e' /\ marked e' = true.
Proof.
  intros Hflag Hdown. cbv zeta. unfold translateAll. rewrite Hflag.
  destruct (translateBatches_down (length (elements s)) (targetLanguage s)
              replies arrival 0 0 (elements s) (cache s) ns (le_n _) Hdown)
    as (H1 & H2 & H3).
  destruct (translateBatches_spec (length (elements s)) (targetLanguage s)
              replies arrival 0 0 (elements s) (cache s) ns (le_n _))
    as (_ & _ & _ & H4).
  cbv zeta in H1, H2, H3, H4.
  cbn [fst snd elements cache isTranslated targetLanguage].
  split; [reflexivity |]. split; [exact H1 |]. split; [exact H2 |].
  split; [exact H3 |].
  intros kv Hin Ht Hsome. rewrite H4, H2.
  apply (applyTranslations_mark _ ns
           (degraded (cache s) (targetLanguage s) kv)).
  - now apply List.in_map.
  - unfold degraded. cbn [snd withTranslated translatedText].
    destruct (cached (cache s) (targetLanguage s) (snd kv)) as [t |] eqn:E.
    + apply cached_truthy in E as [_ E]. unfold or_else. now rewrite E.
    + unfold or_else. now rewrite Ht.
  - exact Hsome.
Qed.

Lemma translateAll_backend_down_witness :
  length (snd (translateAll allRejected inOrder scanned sampleNodes)) = 3%nat
  /\ cache (fst (fst (translateAll allRejected inOrder scanned sampleNodes)))
     = [].
Proof.
  destruct (translateAll_backend_down allRejected inOrder scanned sampleNodes)
    as (_ & Hcache & _ & Hcalls & _).
  - reflexivity.
  - intros n. reflexivity.
  - split; [rewrite Hcalls; vm_compute; reflexivity | exact Hcache].
Defined.

(** *** The toggle *)

(** The state of one element under the translations of a list of entries
    that record [text] for it: it is untouched, or [text] is recorded on it
    and it has one text node of its own. *)
Lemma applyTranslations_at (id : nat) (e : Element) (text : jsstring)
    (l : list (jsstring * PageElement)) (ns : gmap nat Element) :
  (length (directTextNodes (childNodes e)) <= 1)%nat ->
  or_else (getAttribute DATA_ORIGINAL_TEXT e) [] = [] ->
  truthy text = true ->
  (forall kv, In kv l -> element (snd kv) = id -> originalText (snd kv) = text) ->
  ns !! id = Some e
  \/ (exists e' t0,
        ns !! id = Some e'
        /\ getAttribute DATA_ORIGINAL_TEXT e' = Some text
        /\ directTextNodes (childNodes e') = [t0]) ->
  let m := List.fold_left (fun acc kv => applyTranslation (snd kv) acc) l ns in
  m !! id = Some e
  \/ (exists e' t0,
        m !! id = Some e'
        /\ getAttribute DATA_ORIGINAL_TEXT e' = Some text
        /\ directTextNodes (childNodes e') = [t0]).
Proof.
  intros Hone Hnone Htext. revert ns.
  induction l as [| kv l IH]; intros ns Hl Hns; cbn [List.fold_left];
    [exact Hns |].
  apply IH; [intros kv0 Hin; apply Hl; now right |].
  unfold applyTranslation.
  destruct (translatedText (snd kv)) as [t |]; [| exact Hns].
  destruct (truthy t) eqn:Ht; [| exact Hns].
  destruct (decide (element (snd kv) = id)) as [Hid | Hne].
  - rewrite (Hl kv (or_introl eq_refl) Hid), Hid. right.
    destruct Hns as [He | (e' & t0 & He' & Horig & Hnode)].
    + destruct (applyToElement_first text t e Hone Hnone Ht) as [H1 H2].
      exists (applyToElement text t e), t.
      rewrite lookup_alter_eq, He. now repeat split.
    + destruct (applyToElement_again text t t0 e' Htext Horig Hnode)
        as [H1 H2].
      exists (applyToElement text t e'), t.
      rewrite lookup_alter_eq, He'. now repeat split.
  - now rewrite lookup_alter_ne by exact Hne.
Qed.

Lemma resolved_tracked (l l' : list (jsstring * PageElement)) :
  Forall2 resolved l l' ->
  List.map (fun kv => element (snd kv)) l'
  = List.map (fun kv => element (snd kv)) l.
Proof.
  induction 1 as [| kv kv' l l' [_ [t Ht]] _ IH]; [reflexivity |].
  cbn [List.map]. rewrite IH, Ht. reflexivity.
Qed.

Lemma resolved_originals (l l' : list (jsstring * PageElement)) (id : nat)
    (text : jsstring) :
  Forall2 resolved l l' ->
  (forall kv, In kv l -> element (snd kv) = id -> originalText (snd kv) = text) ->
  forall kv', In kv' l' -> element (snd kv') = id ->
              originalText (snd kv') = text.
Proof.
  induction 1 as [| kv kv' l l' [_ [t Ht]] _ IH]; intros Hl kv0 Hin;
    [destruct Hin |].
  destruct Hin as [<- | Hin].
  - rewrite Ht. cbn [withTranslated element originalText].
    apply Hl. now left.
  - apply IH; [intros kv1 H1; apply Hl; now right | exact Hin].
Qed.

(** X25: the toggle gives the texts back. After a scan, two calls of
    [translateAll] in a row, whatever the replies to the first are, leave
    every held element that has one text node of its own, not blank, and
    no original text recorded at the scan, with the text that was scanned;
    the marker is gone, the second call has placed no call and the flag is
    down. *)
Theorem translateAll_toggle (replies replies' : nat -> TranslateReply)
    (arrival arrival' : nat -> list nat) (d : Document) (s0 : Service)
    (id : nat) (e : Element) (t : jsstring) :
  isTranslated s0 = false ->
  id ∈ tracked (scanPage d s0) ->
  nodes d !! id = Some e ->
  directTextNodes (childNodes e) = [t] ->
  truthy (trim t) = true ->
  or_else (getAttribute DATA_ORIGINAL_TEXT e) [] = [] ->
  let first := translateAll replies arrival (scanPage d s0) (nodes d) in
  let second :=
    translateAll replies' arrival' (fst (fst first)) (snd (fst first)) in
  isTranslated (fst (fst second)) = false
  /\ snd second = []
  /\ getElementText (snd (fst second)) id = getElementText (nodes d) id
  /\ exists e',
       snd (fst second) !! id = Some e' /\ marked e' = false.
Proof.
  intros Hflag Hheld He Hnode Hshown Hnone first second.
  set (s := scanPage d s0) in *.
  assert (Hs : isTranslated s = false) by exact Hflag.
  assert (Htext : getElementText (nodes d) id = trim t).
  { unfold getElementText. rewrite He, Hnode. cbn [List.concat].
    now rewrite app_nil_r, Hshown. }
  assert (Hscan : forall kv, In kv (elements s) -> element (snd kv) = id ->
                             originalText (snd kv) = trim t).
  { intros kv Hin Hid.
    pose proof (scanPage_invariant
                  (fun kv => originalText (snd kv)
                             = getElementText (nodes d) (element (snd kv)))
                  d s0) as Hinv.
    rewrite List.Forall_forall in Hinv.
    rewrite (Hinv (fun _ _ _ _ _ _ _ => eq_refl) kv Hin), Hid. exact Htext. }
  destruct (translateBatches_spec (length (elements s)) (targetLanguage s)
              replies arrival 0 0 (elements s) (cache s) (nodes d) (le_n _))
    as (H1 & _ & _ & H4).
  cbv zeta in H1, H4.
  set (out := translateBatches (length (elements s)) (targetLanguage s)
                replies arrival 0 0 (elements s) (cache s) (nodes d)) in *.
  set (s1 := mkService (runElements out) (runCache out) true
               (targetLanguage s)).
  assert (F : first = (s1, runNodes out, runCalls out)).
  { subst first. unfold translateAll. now rewrite Hs. }
  assert (G : second = (restoreAll s1 (runNodes out), [])).
  { subst second. rewrite F. reflexivity. }
  rewrite G. cbn [fst snd].
  split; [reflexivity |]. split; [reflexivity |].
  assert (Htracked : id ∈ tracked s1).
  { unfold tracked, s1. cbn [elements].
    rewrite (resolved_tracked _ _ H1). exact Hheld. }
  assert (Hlen : (length (directTextNodes (childNodes e)) <= 1)%nat)
    by (rewrite Hnode; simpl; lia).
  pose proof (applyTranslations_at id e (trim t) (runElements out) (nodes d)
                Hlen Hnone Hshown
                (resolved_originals _ _ id (trim t) H1 Hscan)
                (or_introl He)) as Hat.
  cbv zeta in Hat. rewrite <- H4 in Hat.
  assert (L : snd (restoreAll s1 (runNodes out)) !! id
              = restoreElement <$> runNodes out !! id).
  { rewrite restoreAll_nodes, restored_lookup.
    now rewrite decide_True by exact Htracked. }
  rewrite Htext. unfold getElementText. rewrite L.
  destruct Hat as [Hsame | (e' & t0 & He' & Horig & Hone)].
  - rewrite Hsame. cbn [fmap option_fmap option_map].
    rewrite (restoreElement_nothing_recorded e Hnone), Hnode.
    cbn [List.concat]. rewrite app_nil_r, Hshown.
    split; [reflexivity |]. exists e. split; [reflexivity |].
    destruct (marked e) eqn:M; [| reflexivity].
    pose proof (scanPage_invariant
                  (fun kv => shouldSkipElement (nodes d) (element (snd kv))
                             = false) d s0) as Hinv.
    rewrite List.Forall_forall in Hinv.
    apply list_elem_of_In in Hheld. unfold tracked in Hheld.
    apply List.in_map_iff in Hheld as (kv & Hid & Hin).
    rewrite <- (Hinv (fun _ _ _ _ _ _ K => K) kv Hin), Hid.
    symmetry. now apply (shouldSkipElement_marked _ _ e).
  - rewrite He'. cbn [fmap option_fmap option_map].
    rewrite (restoreElement_shows (trim t) t0 e' Hshown Horig Hone).
    cbn [List.concat]. rewrite app_nil_r, JsFacts.trim_idem, Hshown.
    split; [apply JsFacts.trim_idem |].
    exists (restoreElement e'). split; [reflexivity |].
    destruct (restoreElement_restores (trim t) e' Horig Hshown) as [Hm _].
    unfold marked. rewrite Hm. now apply bool_decide_eq_false_2.
Qed.

Lemma translateAll_toggle_witness :
  getElementText
    (snd (fst (translateAll allRejected inOrder
                 (fst (fst (translateAll allSaved inOrder scanned sampleNodes)))
                 (snd (fst (translateAll allSaved inOrder scanned
                              sampleNodes)))))) 4
  = str "Save changes".
Proof.
  destruct (translateAll_toggle allSaved allRejected inOrder inOrder
              sampleDocument newService 4
              (el "button" [(str "class", str "chakra-button primary")]
                 [CText (str "Save changes")])
              (str "Save changes")) as (_ & _ & H & _).
  - reflexivity.
  - apply list_elem_of_In. vm_compute. now left.
  - reflexivity.
  - reflexivity.
  - reflexivity.
  - reflexivity.
  - exact H.
Defined.

End PageMore.

(** ** Further properties of the restoration of the hook and the switcher *)

Module HookMore.
Import Hook Switcher ObjFacts PageSpec HookSpec HookFacts HookMoreSpec.

Lemma restoreOne_restores (original : jsstring) (e : Element) :
  getAttribute DATA_ORIGINAL_TEXT e = Some original ->
  truthy original = true ->
  restoredTo original e (restoreOne e).
Proof.
  intros Horig Ht. unfold restoreOne. rewrite Horig, Ht.
  unfold restoredTo, getAttribute, removeAttribute, setTextContent.
  cbn [attributes childNodes setChildNodes]. rewrite Ht.
  split; [reflexivity |].
  split; [rewrite PageFacts.obj_get_delete_ne by discriminate;
          apply obj_get_delete_eq |].
  split; [apply obj_get_delete_eq |].
  intros name H1 H2. now rewrite !PageFacts.obj_get_delete_ne.
Qed.

(** X26: what the loop of [restoreOriginalText] does to the document. An
    element of the document with a recorded original text gets that text
    as its only child, whatever children it had, and loses the record and
    the marker; its other attributes stay. An element without a recorded
    text, and one that the document does not reach, are left as they
    are. *)
Theorem restoreTexts_restores (d : Document) (id : nat) (e : Element) :
  nodes d !! id = Some e ->
  exists e',
    restoreTexts d !! id = Some e'
    /\ (id ∈ querySelectorAll d ORIGINALS ->
        forall original,
          getAttribute DATA_ORIGINAL_TEXT e = Some original ->
          truthy original = true ->
          restoredTo original e e')
    /\ (or_else (getAttribute DATA_ORIGINAL_TEXT e) [] = [] -> e' = e)
    /\ (id ∉ querySelectorAll d ORIGINALS -> e' = e).
Proof.
  intros He. unfold restoreTexts. fold ORIGINALS.
  rewrite (MapFacts.alter_all_lookup restoreOne restoreOne_idem), He.
  destruct (decide (id ∈ querySelectorAll d ORIGINALS)) as [Hin | Hout].
  - exists (restoreOne e). split; [reflexivity |].
    split; [intros _ original; apply restoreOne_restores |].
    split; [apply restoreOne_unmarked | tauto].
  - exists e. split; [reflexivity |]. split; [tauto |]. now split.
Qed.

Lemma restoreTexts_restores_witness :
  exists e',
    restoreTexts switchedDocument !! 2%nat = Some e'
    /\ childNodes e' = [CText (str "Hello !World")].
Proof.
  destruct (restoreTexts_restores switchedDocument 2
              (applyOne (str "Hello !World") [0x4f60; 0x597d]%N
                 (el "h1" [] [CText (str "Hello "); CElem 3;
                              CText (str "World")])))
    as (e' & He' & Hrestored & _); [reflexivity |].
  exists e'. split; [exact He' |].
  destruct (Hrestored) with (original := str "Hello !World") as [H _].
  - apply list_elem_of_In. vm_compute. now left.
  - reflexivity.
  - reflexivity.
  - exact H.
Defined.

(** X27: the round trip of the switcher. An element without a recorded
    original text, translated by the switcher from the text it showed and
    then restored, shows that text again, as its only child: the child
    elements it had are not put back. Record and marker are gone, and the
    other attributes are the ones it had. *)
Theorem switcher_round_trip (text translated_text : jsstring) (e : Element) :
  truthy text = true ->
  or_else (getAttribute DATA_ORIGINAL_TEXT e) [] = [] ->
  let e' := restoreOne (applyOne text translated_text e) in
  restoredTo text e e'
  /\ forall (ns : gmap nat Element) (id : nat),
       textContent (<[id := e']> ns) id = text.
Proof.
  intros Ht Hnone e'.
  assert (Horig : getAttribute DATA_ORIGINAL_TEXT
                    (applyOne text translated_text e) = Some text).
  { unfold applyOne. rewrite Hnone. cbn [truthy].
    unfold getAttribute, setAttribute, setTextContent.
    cbn [attributes setChildNodes].
    rewrite obj_get_set_ne by discriminate. apply obj_get_set_eq. }
  destruct (restoreOne_restores text _ Horig Ht) as (Hc & Ho & Hm & Hothers).
  fold e' in Hc, Ho, Hm, Hothers.
  split.
  - split; [exact Hc |]. split; [exact Ho |]. split; [exact Hm |].
    intros name H1 H2. rewrite (Hothers name H1 H2).
    unfold applyOne. rewrite Hnone. cbn [truthy].
    unfold getAttribute, setAttribute, setTextContent.
    cbn [attributes setChildNodes].
    now rewrite !obj_get_set_ne by congruence.
  - intros ns id. unfold textContent. cbn [textContent_upto].
    rewrite lookup_insert_eq, Hc. cbn [List.flat_map]. apply app_nil_r.
Qed.

Lemma switcher_round_trip_witness :
  childNodes
    (restoreOne
       (applyOne (str "Hello !World") [0x4f60; 0x597d]%N
          (el "h1" [] [CText (str "Hello "); CElem 3; CText (str "World")])))
  = [CText (str "Hello !World")].
Proof.
  destruct (switcher_round_trip (str "Hello !World") [0x4f60; 0x597d]%N
              (el "h1" [] [CText (str "Hello "); CElem 3;
                           CText (str "World")]))
    as [(H & _) _]; [reflexivity | reflexivity | exact H].
Defined.

(** *** The hook translates nothing *)

Lemma sameTexts_refl (e : Element) : sameTexts e e.
Proof. now repeat split. Qed.

Lemma sameTexts_trans (e1 e2 e3 : Element) :
  sameTexts e1 e2 -> sameTexts e2 e3 -> sameTexts e1 e3.
Proof.
  intros (A1 & A2 & A3) (B1 & B2 & B3). split; [congruence |].
  split; [congruence |]. intros name Hname.
  now rewrite (B3 name Hname), (A3 name Hname).
Qed.

Lemma removeChild_sameTexts (b : nat) (e : Element) :
  sameTexts e (removeChild b e).
Proof.
  split; [| now split]. unfold removeChild. cbn [setChildNodes childNodes].
  induction (childNodes e) as [| [s | j] cs IH]; cbn; [reflexivity | |].
  - now rewrite IH.
  - destruct (bool_decide (j = b)); cbn; exact IH.
Qed.

Lemma appendChild_sameTexts (b : nat) (e : Element) :
  sameTexts e (appendChild b e).
Proof.
  split; [| now split]. unfold appendChild. cbn [setChildNodes childNodes].
  induction (childNodes e) as [| [s | j] cs IH]; cbn; [reflexivity | |].
  - now rewrite IH.
  - exact IH.
Qed.

Lemma setStyle_sameTexts (v : jsstring) (e : Element) :
  sameTexts e (setAttribute (str "style") v e).
Proof.
  split; [reflexivity |]. split; [reflexivity |]. intros name Hname.
  unfold getAttribute, setAttribute. cbn [attributes].
  now apply obj_get_set_ne.
Qed.

Lemma alter_sameTexts (f : Element -> Element) (j : nat)
    (ns : gmap nat Element) (id : nat) (e : Element) :
  (forall x, sameTexts x (f x)) ->
  ns !! id = Some e ->
  exists e', alter f j ns !! id = Some e' /\ sameTexts e e'.
Proof.
  intros Hf He. destruct (decide (j = id)) as [-> | Hne].
  - rewrite lookup_alter_eq, He. eexists. split; [reflexivity | apply Hf].
  - rewrite lookup_alter_ne by exact Hne. exists e.
    split; [exact He | apply sameTexts_refl].
Qed.

Lemma removeButton_sameTexts (b : nat) (ns : gmap nat Element) (id : nat)
    (e : Element) :
  ns !! id = Some e ->
  exists e', removeButton b ns !! id = Some e' /\ sameTexts e e'.
Proof.
  intros He. unfold removeButton.
  assert (H1 : exists e1,
            match parentNode ns b with
            | Some p => alter (removeChild b) p ns
            | None => ns
            end !! id = Some e1 /\ sameTexts e e1).
  { destruct (parentNode ns b) as [p |].
    - apply alter_sameTexts; [apply removeChild_sameTexts | exact He].
    - exists e. split; [exact He | apply sameTexts_refl]. }
  destruct H1 as (e1 & He1 & Hs1).
  destruct (alter_sameTexts
              (fun e0 =>
                 setAttribute (str "style")
                   (or_else (getAttribute (str "style") e0) []
                    ++ str " display: none;") e0)
              b _ id e1 (fun x => setStyle_sameTexts _ x) He1)
    as (e2 & He2 & Hs2).
  exists e2. split; [exact He2 | now apply (sameTexts_trans e e1)].
Qed.

Lemma addRestoreButton_sameTexts (d : Document) (id : nat) (e : Element) :
  nodes d !! id = Some e ->
  exists e', nodes (addRestoreButton d) !! id = Some e' /\ sameTexts e e'.
Proof.
  intros He. unfold addRestoreButton.
  destruct (getElementById d RESTORE_BUTTON_ID) as [existingButton |].
  - cbn [withNodes nodes]. now apply removeButton_sameTexts.
  - cbn [withNodes nodes].
    apply alter_sameTexts; [apply appendChild_sameTexts |].
    rewrite lookup_insert_ne; [exact He |].
    intros Heq. apply (is_fresh (dom (nodes d))). rewrite Heq.
    apply elem_of_dom. now exists e.
Qed.

(** X28: the hook translates nothing. Whatever the window holds when the
    effect runs, every element of the document is still there afterwards
    with the text nodes it had and, but for [style], the attributes it
    had: the effect only puts or removes the restore button, or removes
    the persisted language. *)
Theorem useAITranslation_keeps_texts (w : Window) (id : nat) (e : Element) :
  nodes (document w) !! id = Some e ->
  exists e',
    nodes (document (useAITranslation w)) !! id = Some e' /\ sameTexts e e'.
Proof.
  intros He. unfold useAITranslation, restoreAITranslationState.
  destruct (truthy (or_else (ai_language w) []));
    [| exists e; split; [exact He | apply sameTexts_refl]].
  destruct (length _ =? 0)%nat; cbn [document].
  - exists e. split; [exact He | apply sameTexts_refl].
  - now apply addRestoreButton_sameTexts.
Qed.

Lemma useAITranslation_keeps_texts_witness :
  exists e',
    nodes (document (useAITranslation
                       (mkWindow switchedDocument (Some (str "ja"))))) !! 2%nat
    = Some e'
    /\ directTextNodes (childNodes e') = [[0x4f60; 0x597d]%N].
Proof.
  destruct (useAITranslation_keeps_texts
              (mkWindow switchedDocument (Some (str "ja"))) 2
              (applyOne (str "Hello !World") [0x4f60; 0x597d]%N
                 (el "h1" [] [CText (str "Hello "); CElem 3;
                              CText (str "World")])))
    as (e' & He' & Htexts & _); [reflexivity |].
  exists e'. split; [exact He' | exact Htexts].
Defined.

End HookMore.

(** ** The dynamic translation hook *)

Module DynamicFacts.
Import Generator Dynamic ObjFacts HookSpec DynamicSpec.








(** The sample load in full: the language, the resources for Japanese
    and for English, and what stays in the storage and in the generator. *)
Example reload_japanese :
  let out := mount 2 (fun _ => japanese) (pageLoad None (Some (str "ja")) bundled) in
  language (i18n (fst out)) = str "ja"
  /\ obj_keys (resources (i18n (fst out))) = [str "en"; str "ja"]
  /\ (exists pack,
        obj_get (str "ja") (resources (i18n (fst out))) = Some pack
        /\ obj_get (str "common.save") pack = Some (Text [0x4fdd; 0x5b58]%N))
  /\ ai_language (fst out) = Some (str "ja")
  /\ obj_keys (generated (fst out)) = [str "core-ja"].
Proof.
  vm_compute. repeat split; try reflexivity.
  eexists. split; reflexivity.
Qed.

(** Without a persisted language, or with one that is none of the
    languages of the AI translation, the mount changes nothing and issues
    no request. *)
Lemma mount_without_language (a : App) replies (fuel : nat) :
  match ai_language a with
  | Some lang => isAILanguage lang = false
  | None => True
  end ->
  (0 < fuel)%nat ->
  mount fuel replies a
  = (mkApp (i18n a) (ai_language a) (generated a) [], []).
Proof.
  intros Hnone Hfuel. destruct fuel as [| f]; [lia |].
  unfold mount. cbn [renders]. unfold restoreLanguage.
  cbn [ai_language].
  destruct (ai_language a) as [lang |]; [| reflexivity].
  rewrite Hnone, andb_false_r. reflexivity.
Qed.

End DynamicFacts.
